(** * agent-api-builder: the recovery engine and the schema normalizer

    A shallow embedding of [backend/server.py]: the text repairs and the
    fallback cascade that turn a model's answer into a file map
    ([generate_api_with_openai]), and [normalize_schema].

    Python text is a sequence of Unicode code points; a code point is a
    number in [N], a text is a list of them. *)

From Stdlib Require Import String Ascii DecimalString List NArith ZArith Bool Lia.
From Stdlib Require Import Permutation Sorted.
Import ListNotations.

Set Warnings "-register-all".
Local Open Scope N_scope.

(** ** Text *)

Abbreviation char := N (only parsing).
Definition text := list char.

Abbreviation DQUOTE := 34 (only parsing).
Abbreviation BSLASH := 92 (only parsing).
Abbreviation LBRACE := 123 (only parsing).
Abbreviation RBRACE := 125 (only parsing).
Abbreviation LBRACK := 91 (only parsing).
Abbreviation RBRACK := 93 (only parsing).
Abbreviation COMMA := 44 (only parsing).
Abbreviation COLON := 58 (only parsing).
Abbreviation SLASH := 47 (only parsing).
Abbreviation STAR := 42 (only parsing).
Abbreviation SPACE := 32 (only parsing).
Abbreviation NL := 10 (only parsing).
Abbreviation CR := 13 (only parsing).
Abbreviation TAB := 9 (only parsing).
Abbreviation BACKQUOTE := 96 (only parsing).

(** [txt s] is the text of the ASCII literal [s]. *)
Definition txt (s : string) : text :=
  map N_of_ascii (list_ascii_of_string s).

(** [js s] is [txt s] with every apostrophe read as a double quote, so that
    JSON documents can be written down: [js "{'a': 'x'}"] is the text
    of the document whose key and value are quoted with code point 34. *)
Definition js (s : string) : text :=
  map (fun c => if c =? 39 then DQUOTE else c) (txt s).

Fixpoint text_eqb (a b : text) : bool :=
  match a, b with
  | [], [] => true
  | x :: a', y :: b' => (x =? y) && text_eqb a' b'
  | _, _ => false
  end.

(** [s.startswith(p)] *)
Fixpoint startswith (p s : text) : bool :=
  match p, s with
  | [], _ => true
  | x :: p', y :: s' => (x =? y) && startswith p' s'
  | _ :: _, [] => false
  end.

(** [s.endswith(p)] *)
Definition endswith (p s : text) : bool :=
  startswith (rev p) (rev s).

(** [p in s] for two strings: [p] occurs in [s]. *)
Fixpoint contains (p s : text) : bool :=
  startswith p s ||
  match s with
  | [] => false
  | _ :: s' => contains p s'
  end.

(** [s.find(p)], from the start: the least index where [p] occurs, or -1. *)
Fixpoint find_from (p s : text) (i : Z) : Z :=
  if startswith p s then i
  else match s with
       | [] => (-1)%Z
       | _ :: s' => find_from p s' (i + 1)%Z
       end.

Definition find (p s : text) : Z := find_from p s 0%Z.

(** [s[a:]] and [s[:b]] for indices that are not negative, and [s[a:b]]. *)
Definition drop (a : Z) (s : text) : text := skipn (Z.to_nat a) s.
Definition take (b : Z) (s : text) : text := firstn (Z.to_nat b) s.
Definition slice (a b : Z) (s : text) : text := drop a (take b s).

(** [s.find(p, start)] for [0 <= start]. *)
Definition find_at (p s : text) (start : Z) : Z :=
  if (Z.of_nat (length s) <? start)%Z then (-1)%Z
  else find_from p (drop start s) start.

(** [s.rfind(c)] for a one-character [c]: the greatest index, or -1. *)
Fixpoint rfind_char_from (c : char) (s : text) (i : Z) (last : Z) : Z :=
  match s with
  | [] => last
  | x :: s' => rfind_char_from c s' (i + 1)%Z (if x =? c then i else last)
  end.

Definition rfind_char (c : char) (s : text) : Z :=
  rfind_char_from c s 0%Z (-1)%Z.

(** [str.isspace] on one character, which is also the class [\s] of [re] on
    text patterns: the characters Unicode lists as white space. *)
Definition isspace (c : char) : bool :=
  ((9 <=? c) && (c <=? 13)) || ((28 <=? c) && (c <=? 32))
  || (c =? 133) || (c =? 160) || (c =? 5760)
  || ((8192 <=? c) && (c <=? 8202))
  || (c =? 8232) || (c =? 8233) || (c =? 8239) || (c =? 8287) || (c =? 12288).

Fixpoint lstrip (s : text) : text :=
  match s with
  | c :: s' => if isspace c then lstrip s' else s
  | [] => []
  end.

(** [s.strip()] *)
Definition strip (s : text) : text :=
  rev (lstrip (rev (lstrip s))).

(** ** Stage 3: re-escaping of control characters

    [fix_unescaped_control_chars]: the loop over [json_text] with its two
    flags; [result] is the list of the pieces appended, joined at the end. *)

Fixpoint fix_loop (in_string escape_next : bool) (json_text : text) : text :=
  match json_text with
  | [] => []
  | char :: rest =>
    if escape_next then char :: fix_loop in_string false rest
    else if char =? BSLASH then char :: fix_loop in_string true rest
    else if char =? DQUOTE then char :: fix_loop (negb in_string) false rest
    else if in_string then
      if char =? NL then txt "\n" ++ fix_loop in_string false rest
      else if char =? CR then txt "\r" ++ fix_loop in_string false rest
      else if char =? TAB then txt "\t" ++ fix_loop in_string false rest
      else if char <? 32 then txt " " ++ fix_loop in_string false rest
      else char :: fix_loop in_string false rest
    else char :: fix_loop in_string false rest
  end.

Definition fix_unescaped_control_chars (json_text : text) : text :=
  fix_loop false false json_text.

(** The stage read as a scanner: the two flags before each character.  A
    quote toggles "inside a string" unless it is escaped; a backslash that
    is not itself escaped escapes exactly the next character, inside a
    string and outside. *)
Definition scanner_step (st : bool * bool) (c : char) : bool * bool :=
  let '(inside, escaped) := st in
  if escaped then (inside, false)
  else if c =? BSLASH then (inside, true)
  else if c =? DQUOTE then (negb inside, false)
  else (inside, false).

(** What the scanner writes for a character met in state [st]: a control
    character inside a string that does not follow an escaping backslash
    is rewritten, everything else is copied. *)
Definition reescape_char (st : bool * bool) (c : char) : text :=
  let '(inside, escaped) := st in
  if inside && negb escaped then
    if c =? NL then [BSLASH; 110]
    else if c =? CR then [BSLASH; 114]
    else if c =? TAB then [BSLASH; 116]
    else if c <? 32 then [SPACE]
    else [c]
  else [c].

Fixpoint reescape_from (st : bool * bool) (s : text) : text :=
  match s with
  | [] => []
  | c :: rest => reescape_char st c ++ reescape_from (scanner_step st c) rest
  end.

(** No control character stands inside a string without an escaping
    backslash right before it: the text holds "only valid escape
    sequences" as far as this stage can tell. *)
Fixpoint no_literal_control (st : bool * bool) (s : text) : bool :=
  match s with
  | [] => true
  | c :: rest =>
    negb (fst st && negb (snd st) && (c <? 32))
    && no_literal_control (scanner_step st c) rest
  end.

(** ** Python values

    What [json.loads] builds and [normalize_schema] receives: [None],
    booleans, integers, floats, strings, lists, and dicts.  A dict keeps its
    keys in insertion order, so it is an association list in that order. *)

(** A float: not a number, an infinity, or [(-1)^neg * m * 2^e]. *)
Inductive pyfloat :=
| FNan
| FInf (neg : bool)
| FFin (neg : bool) (m : N) (e : Z).

Inductive json :=
| JNull
| JBool (b : bool)
| JInt (z : Z)
| JFloat (f : pyfloat)
| JStr (s : text)
| JArr (l : list json)
| JObj (m : list (text * json)).

(** [float(literal)] for the decimal [digits * 10^e10]: the nearest binary64
    value, ties to even, to an infinity beyond the largest finite one. *)
Definition float_of_decimal (neg : bool) (digits : N) (e10 : Z) : pyfloat :=
  if digits =? 0 then FFin neg 0 0
  else
    let P := (if 0 <=? e10 then Z.of_N digits * 10 ^ e10 else Z.of_N digits)%Z in
    let Q := (if 0 <=? e10 then 1 else 10 ^ (- e10))%Z in
    let l := (Z.log2 P - Z.log2 Q)%Z in
    let fl := (if (Q * 2 ^ (Z.max 0 l) <=? P * 2 ^ (Z.max 0 (- l)))%Z then l else l - 1)%Z in
    let e := Z.max (fl - 52) (-1074) in
    let num := (P * 2 ^ (Z.max 0 (- e)))%Z in
    let den := (Q * 2 ^ (Z.max 0 e))%Z in
    let q := (num / den)%Z in
    let r := (num mod den)%Z in
    let up := ((den <? 2 * r) || ((den =? 2 * r) && Z.odd q))%Z in
    let m := (if up then q + 1 else q)%Z in
    let '(m, e) := (if m =? 2 ^ 53 then (2 ^ 52, e + 1) else (m, e))%Z in
    if (971 <? e)%Z then FInf neg else FFin neg (Z.to_N m) e.

(** ** Dicts *)

Section Dict.
Context {K V : Type} (eqb : K -> K -> bool).

(** [d.get(k)] as an option. *)
Fixpoint dict_get (k : K) (d : list (K * V)) : option V :=
  match d with
  | [] => None
  | (k', v) :: d' => if eqb k k' then Some v else dict_get k d'
  end.

(** [k in d] *)
Definition dict_mem (k : K) (d : list (K * V)) : bool :=
  match dict_get k d with Some _ => true | None => false end.

(** [d[k] = v]: a key already there keeps its place, a new one goes last. *)
Fixpoint dict_set (k : K) (v : V) (d : list (K * V)) : list (K * V) :=
  match d with
  | [] => [(k, v)]
  | (k', v') :: d' =>
    if eqb k k' then (k', v) :: d' else (k', v') :: dict_set k v d'
  end.
End Dict.

(** ** [json.loads]

    The decoder of CPython's [json] with its default settings (the
    compiled scanner, [strict] strings).  Every failure of the decoder is a
    [JSONDecodeError]; the interpreter's limits (recursion depth, the
    length of an integer literal) are not modelled. *)

Definition is_json_ws (c : char) : bool :=
  (c =? SPACE) || (c =? TAB) || (c =? NL) || (c =? CR).

Fixpoint skip_ws (s : text) : text :=
  match s with
  | c :: r => if is_json_ws c then skip_ws r else s
  | [] => []
  end.

Definition is_digit (c : char) : bool := (48 <=? c) && (c <=? 57).

Definition hex_value (c : char) : option N :=
  if is_digit c then Some (c - 48)
  else if (97 <=? c) && (c <=? 102) then Some (c - 87)
  else if (65 <=? c) && (c <=? 70) then Some (c - 55)
  else None.

Definition hex4 (a b c d : char) : option N :=
  match hex_value a, hex_value b, hex_value c, hex_value d with
  | Some x, Some y, Some z, Some w => Some (((x * 16 + y) * 16 + z) * 16 + w)
  | _, _, _, _ => None
  end.

(** The one-letter escapes of a JSON string. *)
Definition backslash (esc : char) : option char :=
  if esc =? DQUOTE then Some DQUOTE
  else if esc =? BSLASH then Some BSLASH
  else if esc =? SLASH then Some SLASH
  else if esc =? 98 then Some 8
  else if esc =? 102 then Some 12
  else if esc =? 110 then Some NL
  else if esc =? 114 then Some CR
  else if esc =? 116 then Some TAB
  else None.

Definition is_high_surrogate (u : N) : bool := (55296 <=? u) && (u <=? 56319).
Definition is_low_surrogate (u : N) : bool := (56320 <=? u) && (u <=? 57343).
Definition join_surrogates (u u2 : N) : N :=
  65536 + ((u - 55296) * 1024 + (u2 - 56320)).

Definition prepend (c : char) (r : option (text * text)) : option (text * text) :=
  match r with
  | Some (str, rest) => Some (c :: str, rest)
  | None => None
  end.

(** [scanstring], from the character after the opening quote: the string
    and the text after its closing quote, or [None] for a decoding error. *)
Fixpoint scanstring (s : text) : option (text * text) :=
  match s with
  | [] => None
  | c :: r =>
    if c =? DQUOTE then Some ([], r)
    else if c =? BSLASH then
      match r with
      | [] => None
      | esc :: r1 =>
        if esc =? 117 then
          match r1 with
          | h1 :: h2 :: h3 :: h4 :: r2 =>
            match hex4 h1 h2 h3 h4 with
            | None => None
            | Some uni =>
              if is_high_surrogate uni then
                match r2 with
                | b :: u :: g1 :: g2 :: g3 :: g4 :: r3 =>
                  if (b =? BSLASH) && (u =? 117) then
                    match hex4 g1 g2 g3 g4 with
                    | None => None
                    | Some uni2 =>
                      if is_low_surrogate uni2
                      then prepend (join_surrogates uni uni2) (scanstring r3)
                      else prepend uni (scanstring r2)
                    end
                  else prepend uni (scanstring r2)
                | _ => prepend uni (scanstring r2)
                end
              else prepend uni (scanstring r2)
            end
          | _ => None
          end
        else
          match backslash esc with
          | Some ch => prepend ch (scanstring r1)
          | None => None
          end
      end
    else if c <? 32 then None
    else prepend c (scanstring r)
  end.

(** The digits at the head of [s], read in base ten after [acc], their
    count, and the rest. *)
Fixpoint read_digits (s : text) (acc : N) (n : Z) : N * Z * text :=
  match s with
  | c :: r => if is_digit c then read_digits r (acc * 10 + (c - 48)) (n + 1)%Z
              else (acc, n, s)
  | [] => (acc, n, [])
  end.

(** The exponent part (e or E, an optional sign, digits) at the head of [s], if there is one. *)
Definition read_exponent (s : text) : option (Z * text) :=
  match s with
  | c :: r =>
    if (c =? 101) || (c =? 69) then
      let '(neg, r1) :=
        match r with
        | sg :: r' => if sg =? 45 then (true, r')
                      else if sg =? 43 then (false, r') else (false, r)
        | [] => (false, r)
        end in
      match r1 with
      | d :: _ =>
        if is_digit d then
          let '(v, _, rest) := read_digits r1 0 0%Z in
          Some (if neg then (- Z.of_N v)%Z else Z.of_N v, rest)
        else None
      | [] => None
      end
    else None
  | [] => None
  end.

(** [_match_number]: an optional minus sign, then 0 or a run of digits that
    does not start with 0, then an optional fraction (a dot and digits) and
    an optional exponent.  A fraction or an exponent makes a float. *)
Definition match_number (s : text) : option (json * text) :=
  let '(neg, s0) :=
    match s with
    | c :: r => if c =? 45 then (true, r) else (false, s)
    | [] => (false, s)
    end in
  match s0 with
  | [] => None
  | d :: r =>
    if is_digit d then
      let '(int_part, _, s1) :=
        if d =? 48 then (0, 1%Z, r) else read_digits s0 0 0%Z in
      let '(mant, frac_len, s2, has_frac) :=
        match s1 with
        | dot :: f :: r' =>
          if (dot =? 46) && is_digit f then
            let '(m, n, rest) := read_digits (f :: r') int_part 0%Z in
            (m, n, rest, true)
          else (int_part, 0%Z, s1, false)
        | _ => (int_part, 0%Z, s1, false)
        end in
      match read_exponent s2 with
      | Some (ex, s3) =>
        Some (JFloat (float_of_decimal neg mant (ex - frac_len)), s3)
      | None =>
        if has_frac
        then Some (JFloat (float_of_decimal neg mant (- frac_len)), s2)
        else Some (JInt (if neg then (- Z.of_N mant)%Z else Z.of_N mant), s2)
      end
    else None
  end.

(** The result of a scan: a value and the text after it, a decoding error,
    or the recursion budget spent. *)
Inductive scanned :=
| Scanned (v : json) (rest : text)
| DecodeError
| OutOfFuel.

Definition scan_constant (s : text) : scanned :=
  if startswith (txt "null") s then Scanned JNull (drop 4 s)
  else if startswith (txt "true") s then Scanned (JBool true) (drop 4 s)
  else if startswith (txt "false") s then Scanned (JBool false) (drop 5 s)
  else if startswith (txt "NaN") s then Scanned (JFloat FNan) (drop 3 s)
  else if startswith (txt "Infinity") s then Scanned (JFloat (FInf false)) (drop 8 s)
  else if startswith (txt "-Infinity") s then Scanned (JFloat (FInf true)) (drop 9 s)
  else match match_number s with
       | Some (v, rest) => Scanned v rest
       | None => DecodeError
       end.

(** [scan_once] with the object and array loops; [parse_pairs] and
    [parse_items] stand at the start of a key and of an item. *)
Fixpoint scan_once (fuel : nat) (s : text) : scanned :=
  match fuel with
  | O => OutOfFuel
  | S fuel' =>
    match s with
    | [] => DecodeError
    | c :: r =>
      if c =? DQUOTE then
        match scanstring r with
        | Some (str, rest) => Scanned (JStr str) rest
        | None => DecodeError
        end
      else if c =? LBRACE then
        match skip_ws r with
        | c1 :: r1 =>
          if c1 =? RBRACE then Scanned (JObj []) r1
          else parse_pairs fuel' [] (c1 :: r1)
        | [] => DecodeError
        end
      else if c =? LBRACK then
        match skip_ws r with
        | c1 :: r1 =>
          if c1 =? RBRACK then Scanned (JArr []) r1
          else parse_items fuel' [] (c1 :: r1)
        | [] => DecodeError
        end
      else scan_constant s
    end
  end

with parse_pairs (fuel : nat) (acc : list (text * json)) (s : text) : scanned :=
  match fuel with
  | O => OutOfFuel
  | S fuel' =>
    match s with
    | [] => DecodeError
    | c :: r =>
      if c =? DQUOTE then
        match scanstring r with
        | None => DecodeError
        | Some (key, s1) =>
          match skip_ws s1 with
          | [] => DecodeError
          | c2 :: r2 =>
            if c2 =? COLON then
              match scan_once fuel' (skip_ws r2) with
              | Scanned val s3 =>
                let acc' := dict_set text_eqb key val acc in
                match skip_ws s3 with
                | [] => DecodeError
                | c4 :: r4 =>
                  if c4 =? RBRACE then Scanned (JObj acc') r4
                  else if c4 =? COMMA then parse_pairs fuel' acc' (skip_ws r4)
                  else DecodeError
                end
              | failure => failure
              end
            else DecodeError
          end
        end
      else DecodeError
    end
  end

with parse_items (fuel : nat) (acc : list json) (s : text) : scanned :=
  match fuel with
  | O => OutOfFuel
  | S fuel' =>
    match scan_once fuel' s with
    | Scanned val s1 =>
      match skip_ws s1 with
      | [] => DecodeError
      | c :: r =>
        if c =? RBRACK then Scanned (JArr (acc ++ [val])) r
        else if c =? COMMA then parse_items fuel' (acc ++ [val]) (skip_ws r)
        else DecodeError
      end
    | failure => failure
    end
  end.

(** What a call raises.  [RecursionError] is what [json_loads] answers when
    the budget of its scan is spent; [json_loads_total] shows that the
    budget it starts with is never spent. *)
Inductive exn :=
| JSONDecodeError
| ValueError (msg : string)
| AttributeError
| TypeError
| RecursionError.

Inductive result (A : Type) :=
| Ok (a : A)
| Raise (e : exn).
Arguments Ok {A} a.
Arguments Raise {A} e.

(** [json.loads(s)]: one value between optional white space, nothing else.
    The budget is twice the length of the text and one more, which no scan
    exhausts ([json_loads_total]): a level of nesting takes two steps of the
    budget and at least one character. *)
Definition json_loads (s : text) : result json :=
  match scan_once (S (2 * length s)) (skip_ws s) with
  | Scanned v rest =>
    match skip_ws rest with
    | [] => Ok v
    | _ :: _ => Raise JSONDecodeError
    end
  | DecodeError => Raise JSONDecodeError
  | OutOfFuel => Raise RecursionError
  end.

Definition bind {A B : Type} (r : result A) (k : A -> result B) : result B :=
  match r with
  | Ok a => k a
  | Raise e => Raise e
  end.

Notation "x <- r ;; k" := (bind r (fun x => k))
  (at level 61, r at next level, right associativity).

(** ** What the interpreter supplies

    Two pieces of Python depend on tables that are not part of this
    program: the text [str()] gives for a float, a list or a dict (their
    [repr], with the shortest decimal of a float and the printable
    characters of Unicode), and [str.lower] outside ASCII.  They are taken
    as given; everything proved holds whatever they are. *)
Class PyLib := {
  py_repr : json -> text;
  lower_unicode : text -> text
}.

(** [bool(v)] *)
Definition truthy (v : json) : bool :=
  match v with
  | JNull => false
  | JBool b => b
  | JInt z => negb (z =? 0)%Z
  | JFloat (FFin _ m _) => negb (m =? 0)
  | JFloat _ => true
  | JStr s => match s with [] => false | _ => true end
  | JArr l => match l with [] => false | _ => true end
  | JObj m => match m with [] => false | _ => true end
  end.

(** [sep.join(parts)] *)
Fixpoint join (sep : text) (parts : list text) : text :=
  match parts with
  | [] => []
  | [p] => p
  | p :: rest => p ++ sep ++ join sep rest
  end.

Definition is_ascii (s : text) : bool := forallb (fun c => c <? 128) s.

Definition ascii_lower (c : char) : char :=
  if (65 <=? c) && (c <=? 90) then c + 32 else c.

Section Python.
Context {lib : PyLib}.

(** [str(v)] *)
Definition py_str (v : json) : text :=
  match v with
  | JStr s => s
  | JNull => txt "None"
  | JBool true => txt "True"
  | JBool false => txt "False"
  | JInt z => txt (NilZero.string_of_int (Z.to_int z))
  | _ => py_repr v
  end.

(** [s.lower()] *)
Definition py_lower (s : text) : text :=
  if is_ascii s then map ascii_lower s else lower_unicode s.
End Python.

(** ** [re.sub] and [re.findall]

    A pattern is given by its matcher: [m s] is the match at the head of
    [s], as the replacement for it and its length, if the pattern matches
    there.  The patterns of this program match no empty text, and the
    replacement is a function of the match.  [re_sub] rewrites the matches
    found from left to right, none overlapping another. *)

Definition matcher := text -> option (text * nat).

Fixpoint re_sub_from (m : matcher) (skip : nat) (s : text) : text :=
  match s with
  | [] => []
  | c :: r =>
    match skip with
    | S k => re_sub_from m k r
    | O =>
      match m s with
      | Some (repl, S k) => repl ++ re_sub_from m k r
      | _ => c :: re_sub_from m 0 r
      end
    end
  end.

Definition re_sub (m : matcher) (s : text) : text := re_sub_from m 0 s.

(** [re.findall] for a pattern without groups: the matches themselves. *)
Fixpoint re_findall_from (m : text -> option nat) (skip : nat) (s : text)
  : list text :=
  match s with
  | [] => []
  | _ :: r =>
    match skip with
    | S k => re_findall_from m k r
    | O =>
      match m s with
      | Some (S k) => firstn (S k) s :: re_findall_from m k r
      | _ => re_findall_from m 0 r
      end
    end
  end.

Definition re_findall (m : text -> option nat) (s : text) : list text :=
  re_findall_from m 0 s.

(** The longest run of white space at the head of [s]. *)
Fixpoint spaces (s : text) : text :=
  match s with
  | c :: r => if isspace c then c :: spaces r else []
  | [] => []
  end.

Definition is_closer (c : char) : bool := (c =? RBRACE) || (c =? RBRACK).

(** [,(\s*[}\]])] replaced by its group: the comma goes, the white space
    and the closing brace or bracket stay. *)
Definition trailing_comma : matcher := fun s =>
  match s with
  | c :: r =>
    if c =? COMMA then
      let w := spaces r in
      match skipn (length w) r with
      | d :: _ => if is_closer d then Some (w ++ [d], S (S (length w))) else None
      | [] => None
      end
    else None
  | [] => None
  end.

(** The characters before the next newline. *)
Fixpoint line_rest (s : text) : nat :=
  match s with
  | c :: r => if c =? NL then O else S (line_rest r)
  | [] => O
  end.

(** [//.*?$] with [re.MULTILINE], replaced by nothing. *)
Definition line_comment : matcher := fun s =>
  match s with
  | a :: b :: r =>
    if (a =? SLASH) && (b =? SLASH) then Some ([], S (S (line_rest r))) else None
  | _ => None
  end.

(** The index of the first [*/] in [s]. *)
Fixpoint comment_close (s : text) : option nat :=
  match s with
  | a :: r =>
    match r with
    | b :: _ =>
      if (a =? STAR) && (b =? SLASH) then Some O
      else option_map S (comment_close r)
    | [] => None
    end
  | [] => None
  end.

(** [/\*.*?\*/] with [re.DOTALL], replaced by nothing. *)
Definition block_comment : matcher := fun s =>
  match s with
  | a :: b :: r =>
    if (a =? SLASH) && (b =? STAR) then
      match comment_close r with
      | Some n => Some ([], (4 + n)%nat)
      | None => None
      end
    else None
  | _ => None
  end.

(** ["\s*}\s*"] replaced by ["},\n"], and the same with a bracket. *)
Definition quote_closer_quote (closer : char) : matcher := fun s =>
  match s with
  | q :: r =>
    if q =? DQUOTE then
      let w1 := spaces r in
      match skipn (length w1) r with
      | d :: r1 =>
        if d =? closer then
          let w2 := spaces r1 in
          match skipn (length w2) r1 with
          | q2 :: _ =>
            if q2 =? DQUOTE
            then Some ([DQUOTE; closer; COMMA; NL; DQUOTE],
                       (3 + length w1 + length w2)%nat)
            else None
          | [] => None
          end
        else None
      | [] => None
      end
    else None
  | [] => None
  end.

Definition fix_json_common_issues (text0 : text) : text :=
  let text1 := re_sub trailing_comma text0 in
  let text2 := re_sub line_comment text1 in
  let text3 := re_sub block_comment text2 in
  let text4 := re_sub (quote_closer_quote RBRACE) text3 in
  let text5 := re_sub (quote_closer_quote RBRACK) text4 in
  strip text5.

(** The run of characters other than braces at the head of [s]. *)
Fixpoint no_braces (s : text) : nat :=
  match s with
  | c :: r => if (c =? LBRACE) || (c =? RBRACE) then O else S (no_braces r)
  | [] => O
  end.

(** The tail of the pattern at the head of [s]: any number of groups (an
    object without braces inside, then a run without braces) and a closing
    brace; the length matched.  After
    a run without braces the next character is a brace or the end, so the
    repetition has one way to go. *)
Fixpoint inner_objects (fuel : nat) (s : text) : option nat :=
  match fuel with
  | O => None
  | S fuel' =>
    match s with
    | c :: r =>
      if c =? RBRACE then Some 1%nat
      else if c =? LBRACE then
        let n1 := no_braces r in
        match skipn n1 r with
        | d :: r1 =>
          if d =? RBRACE then
            let n2 := no_braces r1 in
            option_map (fun n => (2 + n1 + n2 + n)%nat)
                       (inner_objects fuel' (skipn n2 r1))
          else None
        | [] => None
        end
      else None
    | [] => None
    end
  end.

(** [json_pattern] of strategy 3: an opening brace, a run without braces,
    the groups and the closing brace: an object with at most one level of
    objects inside. *)
Definition json_pattern (s : text) : option nat :=
  match s with
  | c :: r =>
    if c =? LBRACE then
      let n := no_braces r in
      option_map (fun k => (1 + n + k)%nat) (inner_objects (length r) (skipn n r))
    else None
  | [] => None
  end.

(** ** The structural scanners of the fallback strategies *)

(** [smart_truncate_json]: the walk from the character after the opening
    brace of the files object.  [i] is the index of the head of [s] in
    [text0]. *)
Fixpoint truncate_loop (text0 s : text) (i last_valid_comma : Z)
         (in_string escape_next : bool) (brace_depth : Z) : option text :=
  match s with
  | [] =>
    if (last_valid_comma =? -1)%Z then None
    else Some (take last_valid_comma text0 ++ [NL; SPACE; SPACE; RBRACE; NL; RBRACE])
  | char :: rest =>
    if escape_next then
      truncate_loop text0 rest (i + 1) last_valid_comma in_string false brace_depth
    else if char =? BSLASH then
      truncate_loop text0 rest (i + 1) last_valid_comma in_string true brace_depth
    else if char =? DQUOTE then
      truncate_loop text0 rest (i + 1) last_valid_comma (negb in_string) false brace_depth
    else if negb in_string then
      if char =? LBRACE then
        truncate_loop text0 rest (i + 1) last_valid_comma in_string false (brace_depth + 1)
      else if char =? RBRACE then
        if (brace_depth - 1 =? 0)%Z then Some (take (i + 1) text0 ++ [RBRACE])
        else truncate_loop text0 rest (i + 1) last_valid_comma in_string false (brace_depth - 1)
      else if char =? COMMA then
        truncate_loop text0 rest (i + 1)
                      (if (brace_depth =? 1)%Z then i else last_valid_comma)
                      in_string false brace_depth
      else truncate_loop text0 rest (i + 1) last_valid_comma in_string false brace_depth
    else truncate_loop text0 rest (i + 1) last_valid_comma in_string false brace_depth
  end.

Definition smart_truncate_json (text0 : text) : option text :=
  let files_start := find (js "'files'") text0 in
  if (files_start =? -1)%Z then None
  else
    let brace_after_files := find_at [LBRACE] text0 files_start in
    if (brace_after_files =? -1)%Z then None
    else truncate_loop text0 (drop (brace_after_files + 1) text0)
                       (brace_after_files + 1) (-1) false false 1.

(** [find_json_object]: the loop from the first brace; [Some e] is the
    value of [end] when the loop breaks, [None] when it runs off the text
    (where [brace_count] is not 0). *)
Fixpoint object_end (s : text) (i : Z) (in_string escape_next : bool)
         (brace_count : Z) : option Z :=
  match s with
  | [] => None
  | char :: rest =>
    if escape_next then object_end rest (i + 1) in_string false brace_count
    else if char =? BSLASH then object_end rest (i + 1) in_string true brace_count
    else if char =? DQUOTE then object_end rest (i + 1) (negb in_string) false brace_count
    else if negb in_string then
      if char =? LBRACE then object_end rest (i + 1) in_string false (brace_count + 1)
      else if char =? RBRACE then
        if (brace_count - 1 =? 0)%Z then Some (i + 1)%Z
        else object_end rest (i + 1) in_string false (brace_count - 1)
      else object_end rest (i + 1) in_string false brace_count
    else object_end rest (i + 1) in_string false brace_count
  end.

Definition find_json_object (text0 : text) : option text :=
  let start := find [LBRACE] text0 in
  if (start =? -1)%Z then None
  else
    match object_end (drop start text0) start false false 0 with
    | Some end_ => if (start <? end_)%Z then Some (slice start end_ text0) else None
    | None => None
    end.

(** ** The recovery engine *)

Definition is_container (v : json) : bool :=
  match v with
  | JObj _ | JArr _ => true
  | _ => false
  end.

(** [result.get('files', {})] *)
Definition get_files (result0 : json) : result json :=
  match result0 with
  | JObj d =>
    Ok (match dict_get text_eqb (txt "files") d with
        | Some v => v
        | None => JObj []
        end)
  | _ => Raise AttributeError
  end.

(** [files.items()] *)
Definition items (files : json) : result (list (text * json)) :=
  match files with
  | JObj d => Ok d
  | _ => Raise AttributeError
  end.

Section Recovery.
Context {lib : PyLib}.

(** What one entry's content becomes: the values of a dict that are
    strings, dicts or lists, joined by newlines; the items of a list,
    joined by newlines; anything else as it is. *)
Definition fix_content (content : json) : json :=
  match content with
  | JObj d =>
    let lines :=
      flat_map (fun kv : text * json =>
                  match snd kv with
                  | JStr s => [s]
                  | JObj _ | JArr _ => [py_str (snd kv)]
                  | _ => []
                  end) d in
    JStr (join [NL] lines)
  | JArr l => JStr (join [NL] (map py_str l))
  | _ => content
  end.

(** The loop that fills [fixed_files]. *)
Definition fix_files (files : list (text * json)) : list (text * json) :=
  fold_left (fun fixed_files (fc : text * json) =>
               dict_set text_eqb (fst fc) (fix_content (snd fc)) fixed_files)
            files [].

(** The body of the first [try]: the strict parse, the coercion, and the
    check that there are files. *)
Definition strict_attempt (response_text : text) : result json :=
  result0 <- json_loads response_text ;;
  files <- get_files result0 ;;
  files <- (if truthy files
            then (entries <- items files ;; Ok (JObj (fix_files entries)))
            else Ok files) ;;
  if truthy files then Ok files
  else Raise (ValueError "API returned empty files dictionary").

(** [json.loads] of a truncated text under [except JSONDecodeError]:
    the files when there are some. *)
Definition truncated_attempt (truncated : option text) : result (option json) :=
  match truncated with
  | Some (c :: t) =>
    match json_loads (c :: t) with
    | Ok result0 =>
      files <- get_files result0 ;;
      Ok (if truthy files then Some files else None)
    | Raise JSONDecodeError => Ok None
    | Raise e => Raise e
    end
  | _ => Ok None
  end.

(** Strategy 1: the balanced object, cleaned, then truncated.  [Ok (Some
    files)] when [json_parsed] is set, [Ok None] when it is not, [Raise]
    for what no handler catches. *)
Definition strategy1 (response_text : text) : result (option json) :=
  match find_json_object response_text with
  | Some (c :: t) =>
    let extracted_json := c :: t in
    let cleaned_json := fix_json_common_issues extracted_json in
    let attempt :=
      result0 <- json_loads cleaned_json ;;
      files <- get_files result0 ;;
      entries <- items files ;;
      let needs_fixing := existsb (fun fc => is_container (snd fc)) entries in
      let files := if needs_fixing then JObj (fix_files entries) else files in
      if truthy files then Ok files
      else Raise (ValueError "Extracted JSON has no 'files' key") in
    match attempt with
    | Ok files => Ok (Some files)
    | Raise JSONDecodeError | Raise (ValueError _) =>
      truncated_attempt (smart_truncate_json extracted_json)
    | Raise e => Raise e
    end
  | _ => Ok None
  end.

(** Strategy 2: the whole response, cleaned, then truncated. *)
Definition strategy2 (response_text : text) : result (option json) :=
  let cleaned_response := fix_json_common_issues response_text in
  match json_loads cleaned_response with
  | Ok result0 =>
    files <- get_files result0 ;;
    if truthy files then
      entries <- items files ;;
      let files := JObj (fix_files entries) in
      Ok (if truthy files then Some files else None)
    else Ok None
  | Raise JSONDecodeError =>
    truncated_attempt (smart_truncate_json cleaned_response)
  | Raise e => Raise e
  end.

(** [sorted(matches, key=len, reverse=True)]: longest first, equal
    lengths in their order. *)
Fixpoint insert_by_len (m : text) (l : list text) : list text :=
  match l with
  | [] => [m]
  | x :: l' =>
    if (length x <? length m)%nat then m :: l else x :: insert_by_len m l'
  end.

Definition sorted_by_len (l : list text) : list text :=
  fold_left (fun acc m => insert_by_len m acc) l [].

(** The loop of strategy 3 over the sorted matches. *)
Fixpoint try_matches (matches : list text) : result (option json) :=
  match matches with
  | [] => Ok None
  | m :: rest =>
    match json_loads (fix_json_common_issues m) with
    | Ok result0 =>
      files <- get_files result0 ;;
      if truthy files then Ok (Some files) else try_matches rest
    | Raise JSONDecodeError => try_matches rest
    | Raise e => Raise e
    end
  end.

Definition strategy3 (response_text : text) : result (option json) :=
  try_matches (sorted_by_len (re_findall json_pattern response_text)).

(** The handler of [json.JSONDecodeError]: the three strategies in
    order, each only when [json_parsed] is still unset, and the
    [ValueError] when none set it. *)
Definition fallback (response_text : text) : result json :=
  r1 <- strategy1 response_text ;;
  match r1 with
  | Some files => Ok files
  | None =>
    r2 <- strategy2 response_text ;;
    match r2 with
    | Some files => Ok files
    | None =>
      r3 <- strategy3 response_text ;;
      match r3 with
      | Some files => Ok files
      | None => Raise (ValueError "returned invalid JSON")
      end
    end
  end.

(** The text repairs before the first parse: the fences, the slice from
    the first opening brace to the last closing brace, the trailing
    commas, the control characters. *)
Definition prepare (content : text) : text :=
  let response_text := strip content in
  let response_text :=
    if startswith (txt "```json") response_text then strip (drop 7 response_text)
    else if startswith (txt "```") response_text then strip (drop 3 response_text)
    else response_text in
  let response_text :=
    if endswith (txt "```") response_text
    then strip (take (Z.of_nat (length response_text) - 3) response_text)
    else response_text in
  let json_start := find [LBRACE] response_text in
  let json_end := (rfind_char RBRACE response_text + 1)%Z in
  let response_text :=
    if negb (json_start =? -1)%Z && (json_start <? json_end)%Z
    then slice json_start json_end response_text
    else response_text in
  let response_text := strip response_text in
  let response_text := re_sub trailing_comma response_text in
  fix_unescaped_control_chars response_text.

(** From the content of the model's answer to the files the rest of
    [generate_api_with_openai] works on; a [Raise] leaves the function
    through its outer handler. *)
Definition recover (content : text) : result json :=
  let response_text := prepare content in
  match strict_attempt response_text with
  | Raise JSONDecodeError => fallback response_text
  | r => r
  end.
End Recovery.

(** ** The schema normalizer *)

(** The closed set of type names the normalizer writes. *)
Inductive type_tag :=
| integer | boolean | datetime | float | text_tag | string_tag.

Definition tag_name (t : type_tag) : text :=
  match t with
  | integer => txt "integer"
  | boolean => txt "boolean"
  | datetime => txt "datetime"
  | float => txt "float"
  | text_tag => txt "text"
  | string_tag => txt "string"
  end.

(** The chain of tests on the lowered text of a type. *)
Definition tag_of_lowered (v : text) : type_tag :=
  if contains (txt "int") v then integer
  else if contains (txt "bool") v then boolean
  else if contains (txt "date") v && contains (txt "time") v then datetime
  else if contains (txt "decimal") v || contains (txt "double") v
          || contains (txt "number") v then float
  else if contains (txt "text") v then text_tag
  else string_tag.

(** Keys of a dict must be hashable: lists and dicts are not. *)
Definition hashable (v : json) : bool := negb (is_container v).

Definition float_eq_int (f : pyfloat) (z : Z) : bool :=
  match f with
  | FFin neg m e =>
    let sm := (if neg then - Z.of_N m else Z.of_N m)%Z in
    (sm * 2 ^ Z.max 0 e =? z * 2 ^ Z.max 0 (- e))%Z
  | _ => false
  end.

(** Two float keys: equal values, or the one not-a-number object that
    [json] hands out, which a dict finds by identity. *)
Definition float_eqb (f g : pyfloat) : bool :=
  match f, g with
  | FNan, FNan => true
  | FInf a, FInf b => Bool.eqb a b
  | FFin n1 m1 e1, FFin n2 m2 e2 =>
    let s1 := (if n1 then - Z.of_N m1 else Z.of_N m1)%Z in
    let s2 := (if n2 then - Z.of_N m2 else Z.of_N m2)%Z in
    (s1 * 2 ^ (e1 - Z.min e1 e2) =? s2 * 2 ^ (e2 - Z.min e1 e2))%Z
  | _, _ => false
  end.

(** [a == b] on hashable values, as a dict compares its keys: a boolean is
    the integer 0 or 1. *)
Definition key_eqb (a b : json) : bool :=
  let num v :=
    match v with
    | JBool b => Some (inl (if b then 1 else 0)%Z)
    | JInt z => Some (inl z)
    | JFloat f => Some (inr f)
    | _ => None
    end in
  match a, b with
  | JNull, JNull => true
  | JStr s, JStr t => text_eqb s t
  | _, _ =>
    match num a, num b with
    | Some (inl x), Some (inl y) => (x =? y)%Z
    | Some (inl x), Some (inr g) => float_eq_int g x
    | Some (inr f), Some (inl y) => float_eq_int f y
    | Some (inr f), Some (inr g) => float_eqb f g
    | _, _ => false
    end
  end.

(** [d.get(k)], [None] when the key is missing. *)
Definition get (k : string) (d : list (text * json)) : json :=
  match dict_get text_eqb (txt k) d with
  | Some v => v
  | None => JNull
  end.

(** [a or b] *)
Definition py_or (a b : json) : json := if truthy a then a else b.

(** [d[k] = v] with a key that may not be hashable. *)
Definition set_item {V : Type} (k : json) (v : V) (d : list (json * V))
  : result (list (json * V)) :=
  if hashable k then Ok (dict_set key_eqb k v d) else Raise TypeError.

(** The loop over a list or a dict, stopping at the first exception. *)
Fixpoint for_each {A S : Type} (body : S -> A -> result S) (l : list A) (s : S)
  : result S :=
  match l with
  | [] => Ok s
  | a :: l' => s' <- body s a ;; for_each body l' s'
  end.

(** [extract_fields] *)
Definition extract_fields (field_data : json) : result (list (json * json)) :=
  match field_data with
  | JArr l =>
    for_each (fun fields f =>
                match f with
                | JObj d =>
                  let name := py_or (py_or (get "name" d) (get "field" d)) (get "column" d) in
                  let dtype := py_or (py_or (get "type" d) (get "datatype" d))
                                     (JStr (txt "string")) in
                  if truthy name then set_item name dtype fields else Ok fields
                | _ => Ok fields
                end) l []
  | JObj d =>
    for_each (fun fields (ni : text * json) =>
                match snd ni with
                | JStr _ => set_item (JStr (fst ni)) (snd ni) fields
                | JObj info =>
                  set_item (JStr (fst ni))
                           (match dict_get text_eqb (txt "type") info with
                            | Some t => t
                            | None => JStr (txt "string")
                            end) fields
                | _ => Ok fields
                end) d []
  | _ => Ok []
  end.

Definition field_keys : list string :=
  ["fields"; "properties"; "attributes"; "columns"; "Fields"; "Properties"]%string.

(** The first of [field_keys] that is a key of [model_data]. *)
Fixpoint first_field_key (keys : list string) (model_data : list (text * json))
  : option json :=
  match keys with
  | [] => None
  | key :: keys' =>
    match dict_get text_eqb (txt key) model_data with
    | Some v => Some v
    | None => first_field_key keys' model_data
    end
  end.

Definition is_str (v : json) : bool :=
  match v with JStr _ => true | _ => false end.
Definition is_dict (v : json) : bool :=
  match v with JObj _ => true | _ => false end.

(** [normalized]: model name to field name to type name. *)
Definition models := list (json * list (json * type_tag)).

Section Normalizer.
Context {lib : PyLib}.

(** The "normalize types" loop, the same in its two places. *)
Definition clean_type (v : json) : type_tag :=
  tag_of_lowered (py_lower (py_str v)).

Definition clean {K : Type} (eqb : K -> K -> bool) (fields : list (K * json))
  : list (K * type_tag) :=
  fold_left (fun clean_fields (kv : K * json) =>
               dict_set eqb (fst kv) (clean_type (snd kv)) clean_fields)
            fields [].

(** [process_model(model_data, model_name)] acting on [normalized];
    [JNull] is the default [None] of [model_name]. *)
Definition process_model (model_data model_name : json) (normalized : models)
  : result models :=
  r <- match model_data with
       | JObj d =>
         let model_name :=
           if negb (truthy model_name)
           then py_or (py_or (get "name" d) (get "model" d)) (get "title" d)
           else model_name in
         found_fields <- match first_field_key field_keys d with
                         | Some v => f <- extract_fields v ;; Ok (Some f)
                         | None => Ok None
                         end ;;
         let unfound := match found_fields with
                        | Some (_ :: _) => false
                        | _ => true
                        end in
         if unfound && truthy model_name then
           let is_simple := forallb (fun kv : text * json =>
                                       is_str (snd kv) || is_dict (snd kv)) d in
           if is_simple
           then (f <- extract_fields model_data ;; Ok (model_name, Some f))
           else Ok (model_name, found_fields)
         else Ok (model_name, found_fields)
       | _ => Ok (model_name, None)
       end ;;
  match r with
  | (model_name, Some (f :: fs)) =>
    if truthy model_name
    then set_item model_name (clean key_eqb (f :: fs)) normalized
    else Ok normalized
  | _ => Ok normalized
  end.

(** [k in v] for whatever [v] is. *)
Definition py_in (k : string) (v : json) : result bool :=
  match v with
  | JObj d => Ok (dict_mem text_eqb (txt k) d)
  | JArr l => Ok (existsb (fun x => match x with
                                    | JStr s => text_eqb (txt k) s
                                    | _ => false
                                    end) l)
  | JStr s => Ok (contains (txt k) s)
  | _ => Raise TypeError
  end.

(** [v[k].items()] once [k in v] holds. *)
Definition subscript_items (k : string) (v : json) : result (list (text * json)) :=
  match v with
  | JObj d =>
    match get k d with
    | JObj entries => Ok entries
    | _ => Raise AttributeError
    end
  | _ => Raise TypeError
  end.

Definition process_entries (entries : list (text * json)) (normalized : models)
  : result models :=
  for_each (fun n (nd : text * json) => process_model (snd nd) (JStr (fst nd)) n)
           entries normalized.

Definition is_already_normalized (schema : list (text * json)) : bool :=
  (0 <? length schema)%nat
  && forallb (fun kv : text * json =>
                match snd kv with
                | JObj fields => forallb (fun fv : text * json => is_str (snd fv)) fields
                | _ => false
                end) schema.

(** What [normalize_schema] returns: the models found, or the schema it
    was given. *)
Inductive normalized_schema :=
| Normalized (normalized : models)
| Original (schema : json).

(** The strategies, up to the last resort: the value of [normalized]. *)
Definition collect_models (schema : json) : result models :=
  match schema with
  | JArr l => for_each (fun n item => process_model item JNull n) l []
  | JObj d =>
    open_api <- (if dict_mem text_eqb (txt "components") d
                 then py_in "schemas" (get "components" d)
                 else Ok false) ;;
    if open_api then
      entries <- subscript_items "schemas" (get "components" d) ;;
      process_entries entries []
    else if dict_mem text_eqb (txt "definitions") d then
      entries <- subscript_items "definitions" schema ;;
      process_entries entries []
    else if is_already_normalized d then
      Ok (fold_left
            (fun n (mf : text * json) =>
               match snd mf with
               | JObj fields =>
                 dict_set key_eqb (JStr (fst mf))
                          (map (fun kv : text * type_tag => (JStr (fst kv), snd kv))
                               (clean text_eqb fields)) n
               | _ => n
               end) d [])
    else
      n <- process_model schema JNull [] ;;
      match n with
      | [] => process_entries d []
      | _ :: _ => Ok n
      end
  | _ => Ok []
  end.

(** [normalize_schema] *)
Definition normalize_schema (schema : json) : result normalized_schema :=
  normalized <- collect_models schema ;;
  let normalized : models + json :=
    match normalized, schema with
    | [], JObj (kv :: d) =>
      if forallb (fun kv : text * json => is_dict (snd kv)) (kv :: d)
      then inr schema else inl normalized
    | _, _ => inl normalized
    end in
  Ok match normalized with
     | inl (m :: n) => Normalized (m :: n)
     | inl [] => Original schema
     | inr s => if truthy s then Original s else Original schema
     end.
End Normalizer.

(** ** Compliant documents

    The documents a file map is serialized to, as [json.dumps] writes them
    with [ensure_ascii=False]: inside a string the quote, the backslash and
    the control characters are escaped and nothing else is; between the
    tokens stands the white space of a [layout]. *)

Definition hex_digit (n : N) : char := if n <? 10 then 48 + n else 87 + n.

Definition escape_char (c : char) : text :=
  if c =? DQUOTE then [BSLASH; DQUOTE]
  else if c =? BSLASH then [BSLASH; BSLASH]
  else if c =? NL then [BSLASH; 110]
  else if c =? CR then [BSLASH; 114]
  else if c =? TAB then [BSLASH; 116]
  else if c =? 8 then [BSLASH; 98]
  else if c =? 12 then [BSLASH; 102]
  else if c <? 32 then [BSLASH; 117; 48; 48; hex_digit (c / 16); hex_digit (c mod 16)]
  else [c].

Definition dumps_string (s : text) : text :=
  DQUOTE :: flat_map escape_char s ++ [DQUOTE].

(** The white space a serializer puts after the tokens of the document:
    after the two opening braces, the colons and the commas, and before
    the two closing braces. *)
Record layout := {
  after_open : text;
  after_files_colon : text;
  after_files_open : text;
  after_colon : text;
  after_comma : text;
  before_files_close : text;
  before_close : text
}.

(** Only the white space of JSON: space, tab, newline, carriage return. *)
Definition blank (w : text) : bool := forallb is_json_ws w.

Definition well_spaced (L : layout) : bool :=
  blank (after_open L) && blank (after_files_colon L) && blank (after_files_open L)
  && blank (after_colon L) && blank (after_comma L)
  && blank (before_files_close L) && blank (before_close L).

(** [json.dumps(doc, ensure_ascii=False)] *)
Definition compact : layout :=
  {| after_open := []; after_files_colon := [SPACE]; after_files_open := [];
     after_colon := [SPACE]; after_comma := [SPACE];
     before_files_close := []; before_close := [] |}.

(** [json.dumps(doc, ensure_ascii=False, indent=2)] *)
Definition indented : layout :=
  {| after_open := [NL; SPACE; SPACE]; after_files_colon := [SPACE];
     after_files_open := [NL; SPACE; SPACE; SPACE; SPACE];
     after_colon := [SPACE]; after_comma := [NL; SPACE; SPACE; SPACE; SPACE];
     before_files_close := [NL; SPACE; SPACE]; before_close := [NL] |}.

Section Serializer.
Variable L : layout.

Definition dumps_entry (kv : text * text) : text :=
  dumps_string (fst kv) ++ COLON :: after_colon L ++ dumps_string (snd kv).

Definition dumps_entries (F : list (text * text)) : text :=
  join (COMMA :: after_comma L) (map dumps_entry F).

(** The document up to the opening brace of the files object. *)
Definition files_open : text :=
  LBRACE :: after_open L ++ dumps_string (txt "files")
         ++ COLON :: after_files_colon L ++ [LBRACE].

(** The document up to its first entry. *)
Definition files_head : text := files_open ++ after_files_open L.

(** The document from its last entry on. *)
Definition files_tail : text :=
  before_files_close L ++ RBRACE :: before_close L ++ [RBRACE].

(** The document of the file map [F]. *)
Definition dumps_files (F : list (text * text)) : text :=
  files_head ++ dumps_entries F ++ files_tail.

(** The document of [F] cut off right after the comma that follows its
    [N]-th entry. *)
Definition truncated_document (F : list (text * text)) (N : nat) : text :=
  files_head ++ dumps_entries (firstn N F) ++ [COMMA].
End Serializer.

(** The entries of a file map as [json.loads] builds them. *)
Definition string_entries (F : list (text * text)) : list (text * json) :=
  map (fun kv => (fst kv, JStr (snd kv))) F.

(** The file map [F] as the engine returns it. *)
Definition file_map (F : list (text * text)) : json :=
  JObj (string_entries F).

(** [k] is a key of [d]. *)
Definition has_key {V : Type} (k : text) (d : list (text * V)) : bool :=
  existsb (fun kv => text_eqb k (fst kv)) d.

(** No key twice. *)
Fixpoint distinct_keys {V : Type} (d : list (text * V)) : bool :=
  match d with
  | [] => true
  | (k, _) :: d' => negb (existsb (fun kv => text_eqb k (fst kv)) d') && distinct_keys d'
  end.

(** The pattern [m] matches somewhere in [s]. *)
Fixpoint matches_in (m : matcher) (s : text) : bool :=
  match s with
  | [] => false
  | _ :: r => (match m s with Some _ => true | None => false end) || matches_in m r
  end.

(** No slash directly followed by a slash or a star in [s]; [prev] tells
    whether the character before [s] is a slash. *)
Fixpoint no_comment_opener (prev : bool) (s : text) : bool :=
  match s with
  | [] => true
  | c :: r =>
    negb (prev && ((c =? SLASH) || (c =? STAR)))
    && no_comment_opener (c =? SLASH) r
  end.

(** A text the repairs of the truncation path leave alone: no closing
    brace or bracket, no [//] and no [/*]. *)
Definition plain (s : text) : bool :=
  negb (existsb is_closer s) && no_comment_opener false s.

(** Keys and values are all plain. *)
Definition plain_entries (F : list (text * text)) : bool :=
  forallb (fun kv => plain (fst kv) && plain (snd kv)) F.

Section Exhaustion.
Context {lib : PyLib}.

(** Every fallback strategy ran and none set [json_parsed]. *)
Definition exhausted (response_text : text) : Prop :=
  strategy1 response_text = Ok None
  /\ strategy2 response_text = Ok None
  /\ strategy3 response_text = Ok None.
End Exhaustion.

(** A model as the specification commits it: a name that is not empty and
    at least one field. *)
Definition named_with_fields (m : json * list (json * type_tag)) : Prop :=
  truthy (fst m) = true /\ snd m <> [].

(** [{"User": {"id": "integer"}}] *)
Definition user_schema : models :=
  [(JStr (txt "User"), [(JStr (txt "id"), integer)])].

(** [normalize_schema] of the value a document decodes to. *)
Definition normalize_document {lib : PyLib} (doc : text) : result normalized_schema :=
  schema <- json_loads doc ;; normalize_schema schema.

(** An interpreter with trivial tables, to run the model on values that
    reach neither of them: no float or nested container to print, no text
    outside ASCII to lower. *)
Definition plain_lib : PyLib :=
  {| py_repr := fun _ => []; lower_unicode := fun s => s |}.

(** In no key and no value is a comma followed, after optional white
    space, by a closing brace or bracket. *)
Definition comma_safe_entries (F : list (text * text)) : bool :=
  forallb (fun kv => negb (matches_in trailing_comma (fst kv))
                     && negb (matches_in trailing_comma (snd kv))) F.

(** In no key and no value, as [json.dumps] writes it, is a comma
    followed, after optional white space, by a closing brace or bracket:
    the remover of trailing commas finds nothing in the written string.
    The newline, the tab and the other control characters are written as
    escapes, so that of the white space of the text itself only the space
    and the white space outside ASCII count. *)
Definition comma_safe_dumped (F : list (text * text)) : bool :=
  forallb (fun kv => negb (matches_in trailing_comma (dumps_string (fst kv)))
                     && negb (matches_in trailing_comma (dumps_string (snd kv)))) F.


(** After optional white space at the head of [s] comes a closing brace or
    bracket. *)
Definition closer_follows (s : text) : bool :=
  match skipn (length (spaces s)) s with
  | d :: _ => is_closer d
  | [] => false
  end.

(** Three files, the first with a closing brace in its content. *)
Definition braces_project : list (text * text) :=
  [(txt "a", txt "}"); (txt "b", txt "y"); (txt "c", txt "z")].

(** A small project, with a path in a directory and a content that holds
    a quote, a backslash, a newline and a tab. *)
Definition sample_project : list (text * text) :=
  [(txt "src/main.py", txt "print('a, b')" ++ [NL; TAB; DQUOTE; BSLASH]);
   (txt "README.md", txt "# demo");
   (txt "requirements.txt", txt "flask")].

(** The body of a string as the scanners see it: characters that are no
    quote, no backslash and no control character, and backslashes each
    followed by one character. *)
Inductive escaped_body : text -> Prop :=
| body_end : escaped_body []
| body_raw : forall c b,
    32 <= c -> c <> DQUOTE -> c <> BSLASH -> escaped_body b -> escaped_body (c :: b)
| body_escape : forall c b, escaped_body b -> escaped_body (BSLASH :: c :: b).

(** What [escape_char] writes: the character itself, a backslash and a
    letter, or a backslash, [u00] and two hexadecimal digits. *)
Inductive escape_shape (c : char) : text -> Prop :=
| shape_raw : 32 <= c -> c <> DQUOTE -> c <> BSLASH -> escape_shape c [c]
| shape_short : forall x,
    In x [DQUOTE; BSLASH; 110; 114; 116; 98; 102] -> backslash x = Some c ->
    escape_shape c [BSLASH; x]
| shape_hex : forall h l,
    c < 32 -> h < 16 -> l < 16 -> c = h * 16 + l ->
    escape_shape c [BSLASH; 117; 48; 48; hex_digit h; hex_digit l].

(** What the object loop does after the last value: close, go on, or fail. *)
Definition after_entries (fuel : nat) (acc : list (text * json)) (t : text) : scanned :=
  match skip_ws t with
  | [] => DecodeError
  | c :: r =>
    if c =? RBRACE then Scanned (JObj acc) r
    else if c =? COMMA then parse_pairs fuel acc (skip_ws r)
    else DecodeError
  end.

(** A scan that did not exhaust its budget and, when it found a value,
    left a text shorter than [s]. *)
Definition scan_ok (r : scanned) (s : text) : Prop :=
  r <> OutOfFuel
  /\ forall v rest, r = Scanned v rest -> (length rest < length s)%nat.

(** ** Text around an object

    [wrapped a b s t]: the text [t] holds [a], [s], [b] in a row, with no
    [a] before them and no [b] after them.  With the two braces for [a] and
    [b] this is an answer whose outermost braces enclose [s], whatever prose
    or fences stand around them. *)
Definition wrapped (a b : char) (s t : text) : Prop :=
  exists before after,
    t = before ++ a :: s ++ b :: after
    /\ existsb (N.eqb a) before = false
    /\ existsb (N.eqb b) after = false.

(** ** After the engine: the wrong dependency files and the README

    The end of [generate_api_with_openai], once [json_parsed] is set and
    [files] is what the engine returned. *)

(** [language in names], [language == name]: only a string is equal to a
    string. *)
Definition language_in (language : json) (names : list string) : bool :=
  match language with
  | JStr s => existsb (fun n => text_eqb s (txt n)) names
  | _ => false
  end.

(** The names the three branches test for, in the order of the tests. *)
Definition wrong_files (language : json) : list string :=
  if language_in language ["nodejs-express"; "nodejs-nestjs"; "typescript-express"]%string
  then ["requirements.txt"; "setup.py"]%string
  else if language_in language ["python-flask"; "python-fastapi"]%string
  then ["package.json"]%string
  else if language_in language ["java-spring"]%string
  then ["requirements.txt"; "package.json"]%string
  else [].

(** [files_to_remove]: the names among them that are [in files]. *)
Definition files_to_remove (language files : json) : result (list string) :=
  for_each (fun found k =>
              present <- py_in k files ;;
              Ok (if present then found ++ [k] else found))
           (wrong_files language) [].

(** [del d[k]] for a key of [d]. *)
Fixpoint dict_del (k : text) (d : list (text * json)) : list (text * json) :=
  match d with
  | [] => []
  | (k', v) :: d' => if text_eqb k k' then d' else (k', v) :: dict_del k d'
  end.

(** [del files[k]] for a [k] that was found [in files]: a dict loses the
    key; a string or a list, where [in] looks for a part or an item, takes
    no string as an index. *)
Definition del_item (k : string) (files : json) : result json :=
  match files with
  | JObj d => Ok (JObj (dict_del (txt k) d))
  | _ => Raise TypeError
  end.

(** [files[k] = v] *)
Definition assign_item (k : string) (v : json) (files : json) : result json :=
  match files with
  | JObj d => Ok (JObj (dict_set text_eqb (txt k) v d))
  | _ => Raise TypeError
  end.

(** [', '.join(models_list)]: every item must be a string. *)
Definition join_names (models_list : list json) : result text :=
  if forallb is_str models_list
  then Ok (join (txt ", ") (map (fun m => match m with JStr s => s | _ => [] end)
                                models_list))
  else Raise TypeError.

Section Finish.
Context {lib : PyLib}.

(** [readme_content]; [now] is [datetime.now().strftime('%Y-%m-%d %H:%M:%S')]. *)
Definition readme_content (project_name framework : json) (now models : text) : text :=
  txt "# " ++ py_str project_name ++ [NL; NL]
  ++ txt "Auto-generated REST API using " ++ py_str framework ++ [NL; NL]
  ++ txt "## Generated on" ++ [NL] ++ now ++ [NL; NL]
  ++ txt "## Models" ++ [NL] ++ models ++ [NL; NL]
  ++ txt "## Installation and Usage" ++ [NL]
  ++ txt "Please refer to the framework-specific documentation for setup instructions."
  ++ [NL].

(** From the files of the engine to the files returned. *)
Definition finish_files (language project_name framework : json)
           (models_list : list json) (now : text) (files : json) : result json :=
  names <- files_to_remove language files ;;
  files <- for_each (fun files k => del_item k files) names files ;;
  present <- py_in "README.md" files ;;
  if present then Ok files
  else
    models <- join_names models_list ;;
    assign_item "README.md"
                (JStr (readme_content project_name framework now models)) files.
End Finish.

(** The deletions, one after the other. *)
Definition deleted (names : list string) (d : list (text * json))
  : list (text * json) :=
  fold_left (fun d k => dict_del (txt k) d) names d.

(** ** [cleanup_old_repos]

    The file system is what the function sees of it: [repo_dirs], the
    paths [glob] lists; [getmtime], their modification times, as integers
    that order like the floats of [os.path.getmtime]; [removable], whether
    [shutil.rmtree] removes a path or raises the [OSError] that is passed
    over.  What the function does is the list of the paths it removes. *)

(** [l.sort(key=key, reverse=True)]: the greatest key first, equal keys in
    the order they had. *)
Fixpoint insert_newest (key : text -> Z) (p : text) (l : list text) : list text :=
  match l with
  | [] => [p]
  | x :: l' => if (key x <? key p)%Z then p :: l else x :: insert_newest key p l'
  end.

Definition newest_first (key : text -> Z) (l : list text) : list text :=
  fold_left (fun sorted p => insert_newest key p sorted) l [].

(** [l[k:]] *)
Definition from_index {A : Type} (k : Z) (l : list A) : list A :=
  if (k <? 0)%Z then skipn (Z.to_nat (Z.max 0 (Z.of_nat (length l) + k))) l
  else skipn (Z.to_nat k) l.

Definition cleanup_old_repos (repo_dirs : list text) (keep_count : Z)
           (getmtime : text -> Z) (removable : text -> bool) : list text :=
  if (Z.of_nat (length repo_dirs) <=? keep_count)%Z then []
  else filter removable (from_index keep_count (newest_first getmtime repo_dirs)).

(** ** Repository addresses

    What [handle_git_operations], [load_git_repo] and [push_to_git] make
    of the [git_config] of a request before they touch the network. *)

(** [s.replace(old, new)] for an [old] that is not empty: the occurrences
    of [old] from left to right, none overlapping another. *)
Definition replace (old new s : text) : text :=
  re_sub (fun r => if startswith old r then Some (new, length old) else None) s.

(** [s.split(c)] for a one-character [c]. *)
Fixpoint split_on (c : char) (s : text) : list text :=
  match s with
  | [] => [[]]
  | x :: r =>
    if x =? c then [] :: split_on c r
    else match split_on c r with
         | p :: parts => (x :: p) :: parts
         | [] => [[x]]
         end
  end.

(** [v.replace(old, new)], [v.split('/')[-1]] and [v.startswith(p)] for
    whatever [v] is: only a string has these methods. *)
Definition replace_in (old new : text) (v : json) : result text :=
  match v with
  | JStr s => Ok (replace old new s)
  | _ => Raise AttributeError
  end.

(** [repo_url.split('/')[-1].replace('.git', '')] *)
Definition repo_name_of (repo_url : json) : result text :=
  match repo_url with
  | JStr u => Ok (replace (txt ".git") [] (last (split_on SLASH u) []))
  | _ => Raise AttributeError
  end.

(** [auth_url]: the credentials go after every [https://] of the URL when
    there is a token and the URL holds [https://]; [credentials] is the
    text the f-string gives. *)
Definition auth_url_of (credentials : text) (token repo_url : json) : result json :=
  insert <- (if truthy token then py_in "https://" repo_url else Ok false) ;;
  if insert then
    u <- replace_in (txt "https://") credentials repo_url ;; Ok (JStr u)
  else Ok repo_url.

Section Addresses.
Context {lib : PyLib}.

(** [f'https://{token}@'] *)
Definition with_token (token : json) : text :=
  txt "https://" ++ py_str token ++ txt "@".

(** [handle_git_operations] up to [repo_path]: [None] when there is no
    repository to push to, else the URL to clone and the name. *)
Definition git_destination (git_config : json) : result (option (json * text)) :=
  if negb (truthy git_config) then Ok None
  else
    g <- items git_config ;;
    let repo_url := get "repo_url" g in
    if negb (truthy repo_url) then Ok None
    else
      let token := get "token" g in
      auth_url <- auth_url_of (with_token token) token repo_url ;;
      repo_name <- repo_name_of repo_url ;;
      Ok (Some (auth_url, repo_name)).

(** [load_git_repo] up to [repo_name]: the f-string there is
    [f'https://{{token}}@'], whose doubled braces are braces of the text.
    [inl] is the error of a reply with status 400. *)
Definition load_destination (data : json) : result (string + json * text) :=
  d <- items data ;;
  let git_config := get "git_config" d in
  if negb (truthy git_config) then Ok (inl "Missing git configuration"%string)
  else
    g <- items git_config ;;
    let repo_url := get "repo_url" g in
    if negb (truthy repo_url) then Ok (inl "Missing git configuration"%string)
    else
      let token := get "token" g in
      auth_url <- auth_url_of (txt "https://{token}@") token repo_url ;;
      repo_name <- repo_name_of repo_url ;;
      Ok (inr (auth_url, repo_name)).

(** [push_to_git] up to [repo_name]: the checks of the request, in their
    order.  [inl] is the error of a reply with status 400; an exception
    leaves through the handler that replies with status 500. *)
Definition push_destination (data : json) : result (string + json * text) :=
  d <- items data ;;
  let git_config := get "git_config" d in
  let files := get "files" d in
  if negb (truthy git_config) then Ok (inl "Missing git configuration"%string)
  else
    g <- items git_config ;;
    if negb (truthy (get "repo_url" g)) then Ok (inl "Missing git configuration"%string)
    else if negb (truthy files) then Ok (inl "No files to push"%string)
    else
      let repo_url := get "repo_url" g in
      let token := get "token" g in
      match repo_url with
      | JStr u =>
        if negb (startswith (txt "http://") u || startswith (txt "https://") u)
        then Ok (inl "Invalid repository URL. Must be a valid HTTP/HTTPS URL."%string)
        else if contains (txt "github.com") u && negb (truthy token)
        then Ok (inl "GitHub repository requires a personal access token for authentication."%string)
        else
          if truthy token && contains (txt "https://") u then
            if contains (txt "@") u
            then Ok (inl "Repository URL already contains authentication credentials."%string)
            else
              colon <- py_in ":" token ;;
              if colon
              then Ok (inl "Token should be just the access token, not username:token format."%string)
              else
                repo_name <- repo_name_of repo_url ;;
                Ok (inr (JStr (replace (txt "https://") (with_token token) u), repo_name))
          else
            repo_name <- repo_name_of repo_url ;;
            Ok (inr (repo_url, repo_name))
      | _ => Raise AttributeError
      end.
End Addresses.

(** ** [generate_api]: from the request to the schema that is generated

    The route up to its call of [generate_api_with_openai]: the required
    fields, the entities of a loaded project, the normalizer, the filter
    and the two checks of the schema.  A reply with status 400 is given by
    its [error] text; an exception leaves through the handler that replies
    with status 500. *)

(** The first of the required fields that is not [in data]. *)
Fixpoint first_missing (fields : list string) (data : json) : result (option string) :=
  match fields with
  | [] => Ok None
  | field :: rest =>
    present <- py_in field data ;;
    if present then first_missing rest data else Ok (Some field)
  end.

(** The entity a file of the loaded project stands for, if any: what the
    loop over [existing_files] adds to [existing_entities]. *)
Definition entity_of (filepath : text) : option text :=
  if endswith (txt ".java") filepath then
    let filename := last (split_on SLASH filepath) [] in
    let classname := replace (txt ".java") [] filename in
    if contains (txt "/entity/") filepath || endswith (txt "DTO.java") filepath
    then Some (replace (txt "DTO") [] classname)
    else if existsb (fun suffix => contains (txt suffix) classname)
                    ["Repository"; "Service"; "Controller"]%string
    then
      match List.find (fun suffix => endswith (txt suffix) classname)
                 ["Repository"; "Service"; "Controller"]%string with
      | Some suffix => Some (replace (txt suffix) [] classname)
      | None => None
      end
    else None
  else None.

(** [existing_entities], a set: the names added to it.  What follows uses
    its emptiness and its membership only. *)
Definition existing_entities (paths : list text) : list text :=
  flat_map (fun p => match entity_of p with Some e => [e] | None => [] end) paths.

(** [l.index(x)] for an [x] that is in [l]. *)
Fixpoint index_of (x : text) (l : list text) : nat :=
  match l with
  | [] => 0
  | y :: l' => if text_eqb y x then 0 else S (index_of x l')
  end.

(** The loop that sets [config['detected_package']]: the package of the
    first file under [src/main/java/] that gives one. *)
Fixpoint detect_package (paths : list text) : option text :=
  match paths with
  | [] => None
  | filepath :: rest =>
    if startswith (txt "src/main/java/") filepath then
      let parts := split_on SLASH (replace (txt "src/main/java/") [] filepath) in
      if (1 <? length parts)%nat then
        let detected_package :=
          if existsb (fun p => text_eqb p (txt "entity")) parts
          then join (txt ".") (firstn (index_of (txt "entity") parts) parts)
          else join (txt ".") (removelast parts) in
        match detected_package with
        | _ :: _ => Some detected_package
        | [] => detect_package rest
        end
      else detect_package rest
    else detect_package rest
  end.

(** [entity_name in config['existing_entities']]: only a string is equal
    to one of the names. *)
Definition is_existing (existing : list text) (entity_name : json) : bool :=
  match entity_name with
  | JStr s => existsb (text_eqb s) existing
  | _ => false
  end.

Section Acceptance.
Context {lib : PyLib}.

(** The filter of the schema by the existing entities; [inl] when no
    entity is left.  When some entity was left out, the names of the others
    are joined for the log: they must be strings. *)
Definition filter_existing (existing : list text) (schema : normalized_schema)
  : result (string + normalized_schema) :=
  match schema with
  | Normalized normalized =>
    match filter (fun m : json * list (json * type_tag) =>
                    negb (is_existing existing (fst m))) normalized with
    | [] => Ok (inl "All entities in the schema already exist in the loaded repository."%string)
    | filtered =>
      if (length filtered <? length normalized)%nat
         && negb (forallb is_str (map fst filtered))
      then Raise TypeError
      else Ok (inr (Normalized filtered))
    end
  | Original (JObj d) =>
    match filter (fun kv : text * json =>
                    negb (is_existing existing (JStr (fst kv)))) d with
    | [] => Ok (inl "All entities in the schema already exist in the loaded repository."%string)
    | filtered => Ok (inr (Original (JObj filtered)))
    end
  | Original _ => Raise AttributeError
  end.

(** The two checks before the generation. *)
Definition check_schema (schema : normalized_schema) : string + normalized_schema :=
  match schema with
  | Normalized [] =>
    inl "Invalid schema format. Schema must contain at least one model definition."%string
  | Normalized _ => inr schema
  | Original (JObj (kv :: d)) =>
    if forallb (fun kv : text * json => is_dict (snd kv)) (kv :: d) then inr schema
    else inl "Invalid schema format. Each model must have field definitions."%string
  | Original _ =>
    inl "Invalid schema format. Schema must contain at least one model definition."%string
  end.

(** [generate_api] up to the generation: the schema the generator is
    called with, or the error of the reply. *)
Definition accept (data : json) : result (string + normalized_schema) :=
  missing <- first_missing ["project_name"; "language"; "schema"]%string data ;;
  match missing with
  | Some field => Ok (inl ("Missing required field: " ++ field)%string)
  | None =>
    match data with
    | JObj d =>
      let existing_files :=
        match dict_get text_eqb (txt "existing_files") d with
        | Some v => v
        | None => JObj []
        end in
      existing <- (if truthy existing_files then
                     match existing_files with
                     | JObj files => Ok (existing_entities (map fst files))
                     | JStr _ | JArr _ => Raise AttributeError
                     | _ => Raise TypeError
                     end
                   else Ok []) ;;
      schema <- normalize_schema (get "schema" d) ;;
      filtered <- match existing with
                  | [] => Ok (inr schema)
                  | _ :: _ => filter_existing existing schema
                  end ;;
      match filtered with
      | inl error => Ok (inl error)
      | inr schema => Ok (check_schema schema)
      end
    | _ => Raise TypeError
    end
  end.
End Acceptance.

(** The model names of a schema: the keys of the dict it is. *)
Definition model_names (schema : normalized_schema) : list json :=
  match schema with
  | Normalized normalized => map fst normalized
  | Original (JObj d) => map (fun kv : text * json => JStr (fst kv)) d
  | Original _ => []
  end.

(** ** The Python package of a repository

    [extract_project_metadata], its search for a package: [rel_paths] are
    the paths, relative to the repository, of the directories that
    [os.walk] yields with an [__init__.py] among their files, in the order
    of the walk; [sep] is [os.sep]. *)

(** [l.sort(key=len)]: the shortest first, equal lengths in the order they
    had. *)
Fixpoint insert_shortest (p : text) (l : list text) : list text :=
  match l with
  | [] => [p]
  | x :: l' =>
    if (length p <? length x)%nat then p :: l else x :: insert_shortest p l'
  end.

Definition shortest_first (l : list text) : list text :=
  fold_left (fun sorted p => insert_shortest p sorted) l [].

Definition unwanted_words : list string :=
  ["test"; "tests"; "docs"; "examples"; "build"; "dist"]%string.

Section Package.
Context {lib : PyLib}.

(** What a directory adds to [potential_packages]. *)
Definition potential_package (sep : char) (rel_path : text) : list text :=
  if text_eqb rel_path (txt ".") then []
  else
    let package := replace [sep] (txt ".") rel_path in
    if existsb (fun x => contains (txt x) (py_lower package)) unwanted_words
    then []
    else [package].

(** [metadata['package_name']] after the search; [None] leaves it unset. *)
Definition python_package (sep : char) (rel_paths : list text) : option text :=
  match shortest_first (flat_map (potential_package sep) rel_paths) with
  | package :: _ => Some package
  | [] => None
  end.
End Package.

(** ** The files of a cloned repository

    [load_git_repo], its walk over the clone.  A directory is what
    [os.walk] lists of it: its files, each with its name, its size in
    bytes and its text when its bytes decode as UTF-8, and its
    subdirectories, both in the order of the listing.  Reading a file
    fails here only with [UnicodeDecodeError], the one error the loop
    catches: such a file has no text. *)

Definition repo_file : Type := text * (Z * option text).

Inductive directory :=
| Directory (filenames : list repo_file) (dirs : list (text * directory)).

Definition MAX_FILES : nat := 100.
Definition MAX_SIZE : Z := 100 * 1024.

(** The directories the loop takes out of [dirs], so that the walk does
    not enter them.  The names of one listing are distinct: removing the
    first [.git] removes every one. *)
Definition pruned (name : text) : bool :=
  text_eqb name (txt ".git") || text_eqb name (txt "__pycache__").

(** What the walk yields, top down: each directory with the path from the
    repository to it (empty, or ending with the separator) and its files;
    after a directory come its subdirectories that were left in [dirs]. *)
Fixpoint walked (prefix : text) (d : directory) : list (text * list repo_file) :=
  match d with
  | Directory filenames dirs =>
    (prefix, filenames)
      :: (fix below (l : list (text * directory)) : list (text * list repo_file) :=
            match l with
            | [] => []
            | (name, sub) :: l' =>
              (if pruned name then [] else walked (prefix ++ name ++ [SLASH]) sub)
                ++ below l'
            end) dirs
  end.

(** The loop over the files of one directory: [files] and [file_count]
    after it. *)
Fixpoint read_files (prefix : text) (filenames : list repo_file)
         (files : list (text * text)) (file_count : nat) : list (text * text) * nat :=
  match filenames with
  | [] => (files, file_count)
  | (filename, (size, content)) :: rest =>
    if (MAX_FILES <=? file_count)%nat then (files, file_count)
    else
      let rel_path := replace [BSLASH] [SLASH] (prefix ++ filename) in
      if (MAX_SIZE <? size)%Z then read_files prefix rest files file_count
      else
        match content with
        | Some t =>
          read_files prefix rest (dict_set text_eqb rel_path t files) (S file_count)
        | None => read_files prefix rest files file_count
        end
  end.

(** The loop over what the walk yields. *)
Fixpoint read_dirs (yielded : list (text * list repo_file))
         (files : list (text * text)) (file_count : nat) : list (text * text) * nat :=
  match yielded with
  | [] => (files, file_count)
  | (prefix, filenames) :: rest =>
    let '(files, file_count) := read_files prefix filenames files file_count in
    if (MAX_FILES <=? file_count)%nat then (files, file_count)
    else read_dirs rest files file_count
  end.

(** [files] as [load_git_repo] returns it. *)
Definition load_files (repo : directory) : list (text * text) :=
  fst (read_dirs (walked [] repo) [] 0).

(** The files of a directory that are read: not larger than [MAX_SIZE]
    and decoded, each with its path and its text. *)
Definition readable (prefix : text) (f : repo_file) : list (text * text) :=
  match f with
  | (filename, (size, Some t)) =>
    if (MAX_SIZE <? size)%Z then []
    else [(replace [BSLASH] [SLASH] (prefix ++ filename), t)]
  | _ => []
  end.

Definition readable_files (yielded : list (text * list repo_file)) : list (text * text) :=
  flat_map (fun pf : text * list repo_file => flat_map (readable (fst pf)) (snd pf))
           yielded.

(** The dict that takes the entries of a list in their order. *)
Definition collected (entries : list (text * text)) (files : list (text * text))
  : list (text * text) :=
  fold_left (fun files kv => dict_set text_eqb (fst kv) (snd kv) files) entries files.

(** The repository without its [.git] and [__pycache__] directories, at
    every depth. *)
Fixpoint without_pruned (d : directory) : directory :=
  match d with
  | Directory filenames dirs =>
    Directory filenames
      ((fix below (l : list (text * directory)) : list (text * directory) :=
          match l with
          | [] => []
          | (name, sub) :: l' =>
            if pruned name then below l' else (name, without_pruned sub) :: below l'
          end) dirs)
  end.

(** ** The Java package of a loaded project

    [extract_project_metadata], its walk over [src/main/java], which is
    there. *)

(** What [os.walk] yields when nothing is taken out of [dirs]: each
    directory with the names that lead from the top to it, and its
    files. *)
Fixpoint walked_all (path : list text) (d : directory) : list (list text * list repo_file) :=
  match d with
  | Directory filenames dirs =>
    (path, filenames)
      :: (fix below (l : list (text * directory)) : list (list text * list repo_file) :=
            match l with
            | [] => []
            | (name, sub) :: l' => walked_all (path ++ [name]) sub ++ below l'
            end) dirs
  end.

(** [os.path.relpath(root, top)] for a directory of the walk over [top]. *)
Definition relpath (sep : char) (path : list text) : text :=
  match path with
  | [] => txt "."
  | _ => join [sep] path
  end.

(** The loop: [None] when it ends without a [break], and [package_name]
    stays what it was. *)
Fixpoint first_package (sep : char) (yielded : list (list text * list repo_file))
  : option text :=
  match yielded with
  | [] => None
  | (path, files) :: rest =>
    match files with
    | [] => first_package sep rest
    | _ :: _ =>
      let rel_path := relpath sep path in
      if text_eqb rel_path (txt ".") then first_package sep rest
      else Some (replace [sep] (txt ".") rel_path)
    end
  end.

Definition java_package (sep : char) (src_main_java : directory) : option text :=
  first_package sep (walked_all [] src_main_java).

(** The directory [names] lead to through directories that hold nothing
    else. *)
Definition nest (names : list text) (inner : directory) : directory :=
  fold_right (fun name sub => Directory [] [(name, sub)]) inner names.

(** * Theorems *)

(** ** The re-escaping stage *)

Lemma fix_loop_reescape : forall s in_string escape_next,
  fix_loop in_string escape_next s = reescape_from (in_string, escape_next) s.
Proof.
  induction s as [|c s IH]; intros ins esc; [reflexivity|].
  cbn [fix_loop reescape_from reescape_char scanner_step].
  destruct esc; [rewrite andb_false_r; cbn; now rewrite IH|].
  rewrite andb_true_r.
  destruct (c =? 92) eqn:Hb.
  - apply N.eqb_eq in Hb; subst c. destruct ins; cbn; now rewrite IH.
  - destruct (c =? 34) eqn:Hq.
    + apply N.eqb_eq in Hq; subst c. destruct ins; cbn; now rewrite IH.
    + destruct ins; [|cbn; now rewrite IH].
      destruct (c =? 10); [cbn; now rewrite IH|].
      destruct (c =? 13); [cbn; now rewrite IH|].
      destruct (c =? 9); [cbn; now rewrite IH|].
      destruct (c <? 32); cbn; now rewrite IH.
Qed.

Lemma reescape_clean : forall s st,
  no_literal_control st s = true -> reescape_from st s = s.
Proof.
  induction s as [|c s IH]; intros [ins esc] H; [reflexivity|].
  cbn [no_literal_control fst snd] in H.
  apply andb_true_iff in H as [Hc Hs].
  cbn [reescape_from]. rewrite (IH _ Hs).
  unfold reescape_char.
  destruct (ins && negb esc); [|reflexivity].
  cbn in Hc. apply negb_true_iff in Hc.
  assert ((c =? 10) = false /\ (c =? 13) = false /\ (c =? 9) = false) as (-> & -> & ->).
  { apply N.ltb_ge in Hc. repeat split; apply N.eqb_neq; lia. }
  now rewrite Hc.
Qed.

(** C6 (amended). The re-escaping stage is a scanner with two flags: a
    quote toggles the string state unless it is escaped, and a backslash
    that is not itself escaped escapes exactly the next character.  Outside
    a string every character is copied.  Inside a string a newline, a
    carriage return or a tab that does not follow an escaping backslash
    becomes its two-character escape, and any other such control character
    one space.  The character that follows an escaping backslash is copied
    whatever it is, a control character too.  A text in which no control
    character stands inside a string without an escaping backslash before
    it comes out identical. *)
Theorem fix_unescaped_control_chars_reescapes : forall json_text,
  fix_unescaped_control_chars json_text = reescape_from (false, false) json_text
  /\ (forall st c, fst st = false -> reescape_char st c = [c])
  /\ (forall c, reescape_char (true, false) c =
                if c =? NL then txt "\n" else if c =? CR then txt "\r"
                else if c =? TAB then txt "\t" else if c <? 32 then txt " "
                else [c])
  /\ (forall c, reescape_char (true, true) c = [c])
  /\ (no_literal_control (false, false) json_text = true ->
      fix_unescaped_control_chars json_text = json_text).
Proof.
  intros t. unfold fix_unescaped_control_chars. rewrite fix_loop_reescape.
  repeat split.
  - intros [ins esc] c H; cbn in H; subst ins; reflexivity.
  - apply reescape_clean.
Qed.

(** [fix_unescaped_control_chars_reescapes] on a document whose newline is
    written as an escape. *)
Lemma fix_unescaped_control_chars_witness :
  fix_unescaped_control_chars (js "{'a': 'x\ny'}") = js "{'a': 'x\ny'}".
Proof.
  apply (fix_unescaped_control_chars_reescapes (js "{'a': 'x\ny'}")).
  reflexivity.
Defined.

(** C6, as stated, fails: a newline inside a string that follows a
    backslash is not rewritten; the text ["a\<LF>b"] comes out as it went
    in, the newline still in it. *)
Lemma escaped_newline_is_copied :
  fix_unescaped_control_chars [DQUOTE; 97; BSLASH; NL; 98; DQUOTE]
  = [DQUOTE; 97; BSLASH; NL; 98; DQUOTE]
  /\ fix_unescaped_control_chars [DQUOTE; 97; NL; 98; DQUOTE]
     = [DQUOTE; 97; BSLASH; 110; 98; DQUOTE].
Proof. split; reflexivity. Qed.

Lemma scanner_after_reescape : forall st c,
  fold_left scanner_step (reescape_char st c) st = scanner_step st c.
Proof.
  intros [[|] [|]] c; try reflexivity.
  unfold reescape_char. cbn [andb negb].
  destruct (c =? 10) eqn:E1; [apply N.eqb_eq in E1; subst; reflexivity|].
  destruct (c =? 13) eqn:E2; [apply N.eqb_eq in E2; subst; reflexivity|].
  destruct (c =? 9) eqn:E3; [apply N.eqb_eq in E3; subst; reflexivity|].
  destruct (c <? 32) eqn:E4; [|reflexivity].
  apply N.ltb_lt in E4. cbn.
  destruct (c =? 92) eqn:E5; [apply N.eqb_eq in E5; lia|].
  destruct (c =? 34) eqn:E6; [apply N.eqb_eq in E6; lia|]. reflexivity.
Qed.

Lemma reescape_app : forall a b st,
  reescape_from st (a ++ b) =
  reescape_from st a ++ reescape_from (fold_left scanner_step a st) b.
Proof.
  induction a as [|c a IH]; intros b st; [reflexivity|].
  cbn. now rewrite IH, app_assoc.
Qed.

Lemma reescape_char_stable : forall st c,
  reescape_from st (reescape_char st c) = reescape_char st c.
Proof.
  intros [[|] [|]] c; try reflexivity.
  unfold reescape_char. cbn [andb negb].
  destruct (c =? 10) eqn:E1; [reflexivity|].
  destruct (c =? 13) eqn:E2; [reflexivity|].
  destruct (c =? 9) eqn:E3; [reflexivity|].
  destruct (c <? 32) eqn:E4; [reflexivity|].
  cbn. rewrite E1, E2, E3, E4. reflexivity.
Qed.

(** X1. [fix_unescaped_control_chars] is idempotent: applied to its own
    result it changes nothing, so a text that went through it once holds
    nothing that it would escape. *)
Lemma fix_unescaped_control_chars_idempotent : forall json_text,
  fix_unescaped_control_chars (fix_unescaped_control_chars json_text)
  = fix_unescaped_control_chars json_text.
Proof.
  intros t. unfold fix_unescaped_control_chars. rewrite !fix_loop_reescape.
  generalize (false, false). induction t as [|c t IH]; intros st; [reflexivity|].
  cbn [reescape_from]. rewrite reescape_app, reescape_char_stable.
  now rewrite scanner_after_reescape, IH.
Qed.

(** ** The type canonicalizer *)

Section TypeTags.
Context {lib : PyLib}.

Lemma clean_type_ascii : forall s,
  is_ascii s = true -> clean_type (JStr s) = tag_of_lowered (map ascii_lower s).
Proof.
  intros s H. unfold clean_type, py_lower, py_str. now rewrite H.
Qed.

Lemma datetime_needs_both : forall v,
  tag_of_lowered v = datetime <->
  contains (txt "int") v = false /\ contains (txt "bool") v = false
  /\ contains (txt "date") v = true /\ contains (txt "time") v = true.
Proof.
  intros v. unfold tag_of_lowered.
  destruct (contains (txt "int") v); [split; [discriminate|intros (? & _); discriminate]|].
  destruct (contains (txt "bool") v); [split; [discriminate|intros (_ & ? & _); discriminate]|].
  destruct (contains (txt "date") v), (contains (txt "time") v); cbn [andb];
    try (split; [reflexivity|] ; intros _; reflexivity);
    try (now repeat split).
  all: split; [|intros (_ & _ & ? & ?); discriminate].
  all: destruct (_ || _ || _); [discriminate|]; destruct (contains (txt "text") v); discriminate.
Qed.

(** C3 (amended). The table of the canonicalizer: VARCHAR, BOOL, DOUBLE,
    TEXT and INT4 give string, boolean, float, text and integer, and
    DATETIME gives datetime; TIMESTAMP holds "time" but not "date" and
    gives string.  The match is on substrings of the lowered text, the
    first rule that matches wins, and the datetime rule needs both "date"
    and "time". *)
Theorem type_canonicalization_table :
  map (fun s => clean_type (JStr (txt s)))
      ["VARCHAR"; "BOOL"; "TIMESTAMP"; "DOUBLE"; "TEXT"; "INT4"; "DATETIME"]%string
  = [string_tag; boolean; string_tag; float; text_tag; integer; datetime]
  /\ (forall s, is_ascii s = true ->
                clean_type (JStr s) = tag_of_lowered (map ascii_lower s))
  /\ (forall v, contains (txt "int") v = true -> tag_of_lowered v = integer)
  /\ (forall v, contains (txt "int") v = false -> contains (txt "bool") v = true ->
                tag_of_lowered v = boolean)
  /\ (forall v, tag_of_lowered v = datetime <->
                contains (txt "int") v = false /\ contains (txt "bool") v = false
                /\ contains (txt "date") v = true /\ contains (txt "time") v = true).
Proof.
  split; [reflexivity|]. split; [apply clean_type_ascii|].
  split; [intros v H; unfold tag_of_lowered; now rewrite H|].
  split; [intros v H1 H2; unfold tag_of_lowered; now rewrite H1, H2|].
  apply datetime_needs_both.
Qed.
End TypeTags.

(** C3, as stated, fails: whatever the interpreter's tables, TIMESTAMP is
    not mapped to datetime. *)
Lemma timestamp_is_not_datetime :
  ~ exists l : PyLib, clean_type (lib := l) (JStr (txt "TIMESTAMP")) = datetime.
Proof. intros [l H]. discriminate H. Qed.

(** ** The schema normalizer on documents *)

Section Documents.
Context {lib : PyLib}.

(** C8. The array of model descriptors, the map already in canonical
    form and the OpenAPI document all normalize to
    [{"User": {"id": "integer"}}]. *)
Theorem schema_format_equivalence :
  normalize_document (js "[{'name':'User','fields':[{'name':'id','type':'int'}]}]")
  = Ok (Normalized user_schema)
  /\ normalize_document (js "{'User':{'id':'int'}}") = Ok (Normalized user_schema)
  /\ normalize_document
       (js "{'components':{'schemas':{'User':{'properties':{'id':{'type':'integer'}}}}}}")
     = Ok (Normalized user_schema).
Proof. repeat split; vm_compute; reflexivity. Qed.

(** C7, on the failing input: a [definitions] entry that is no dict
    makes [normalize_schema] raise, and so does a [components] entry that
    is a number. *)
Theorem normalize_schema_raises :
  normalize_document (js "{'definitions': 5}") = Raise AttributeError
  /\ normalize_document (js "{'components': 5}") = Raise TypeError
  /\ normalize_document (js "[{'name': ['a'], 'fields': {'x': 'int'}}]")
     = Raise TypeError.
Proof. repeat split; vm_compute; reflexivity. Qed.

(** When no model was found and nothing was raised, the schema itself
    is returned. *)
Lemma zero_models_returns_original : forall schema,
  collect_models schema = Ok [] ->
  normalize_schema schema = Ok (Original schema).
Proof.
  intros schema H. unfold normalize_schema. rewrite H. cbn [bind].
  destruct schema as [| | | | | |[|kv d]]; try reflexivity.
  destruct (forallb _ _); reflexivity.
Qed.
End Documents.

(** ** The truncation scanner and brackets *)

(** C10. The scanner of [smart_truncate_json] steps over a bracket as over
    any other character, so its state inside an array is its state outside:
    a comma outside strings at brace depth 1 becomes the truncation point,
    in an array too.  On a document cut inside the array of its last entry
    the truncation falls after the array's first item, and what is returned
    does not decode. *)
Theorem truncation_ignores_brackets :
  (forall text0 rest i last depth,
      truncate_loop text0 (LBRACK :: rest) i last false false depth
      = truncate_loop text0 rest (i + 1) last false false depth
      /\ truncate_loop text0 (RBRACK :: rest) i last false false depth
         = truncate_loop text0 rest (i + 1) last false false depth)
  /\ (forall text0 rest i last,
         truncate_loop text0 (COMMA :: rest) i last false false 1
         = truncate_loop text0 rest (i + 1) i false false 1)
  /\ smart_truncate_json (js "{'files': {'a': 'x', 'b': ['p', 'q'")
     = Some (js "{'files': {'a': 'x', 'b': ['p'" ++ [NL] ++ txt "  }" ++ [NL] ++ txt "}")
  /\ json_loads (js "{'files': {'a': 'x', 'b': ['p'" ++ [NL] ++ txt "  }" ++ [NL] ++ txt "}")
     = Raise JSONDecodeError.
Proof.
  split; [intros; split; reflexivity|].
  split; [intros; reflexivity|].
  split; vm_compute; reflexivity.
Qed.

(** ** Dicts with distinct keys *)

Lemma text_eqb_eq : forall a b, text_eqb a b = true <-> a = b.
Proof.
  induction a as [|x a IH]; destruct b as [|y b]; cbn; try (split; congruence).
  rewrite andb_true_iff, N.eqb_eq, IH. split; [intros [-> ->]; reflexivity|].
  intros H; injection H; auto.
Qed.

Lemma text_eqb_refl : forall a, text_eqb a a = true.
Proof. intros a. now apply text_eqb_eq. Qed.

Lemma text_eqb_sym : forall a b, text_eqb a b = text_eqb b a.
Proof.
  intros a b. destruct (text_eqb a b) eqn:E.
  - apply text_eqb_eq in E. subst. symmetry. apply text_eqb_refl.
  - destruct (text_eqb b a) eqn:E'; [|reflexivity].
    apply text_eqb_eq in E'. subst. now rewrite text_eqb_refl in E.
Qed.

Section FreshKeys.
Context {V : Type}.

Lemma dict_set_fresh : forall k (v : V) d,
  has_key k d = false -> dict_set text_eqb k v d = d ++ [(k, v)].
Proof.
  induction d as [|[k' v'] d IH]; intros H; [reflexivity|].
  cbn in H. apply orb_false_iff in H as [H1 H2].
  cbn. rewrite H1. now rewrite IH.
Qed.

Lemma has_key_app : forall k (d1 d2 : list (text * V)),
  has_key k (d1 ++ d2) = has_key k d1 || has_key k d2.
Proof. intros. unfold has_key. apply existsb_app. Qed.

Lemma fold_dict_set_distinct : forall {A : Type} (g : A -> V) (l : list (text * A)) acc,
  distinct_keys l = true ->
  (forall kv, In kv l -> has_key (fst kv) acc = false) ->
  fold_left (fun d (kv : text * A) => dict_set text_eqb (fst kv) (g (snd kv)) d) l acc
  = acc ++ map (fun kv => (fst kv, g (snd kv))) l.
Proof.
  intros A g. induction l as [|[k a] l IH]; intros acc Hd Hacc.
  - cbn. now rewrite app_nil_r.
  - cbn in Hd. apply andb_true_iff in Hd as [Hk Hd]. apply negb_true_iff in Hk.
    cbn [fold_left map fst snd].
    rewrite dict_set_fresh by (apply (Hacc (k, a)); now left).
    rewrite IH; [now rewrite <- app_assoc|assumption|].
    intros kv Hin. rewrite has_key_app, (Hacc kv) by now right.
    cbn. rewrite orb_false_r.
    rewrite text_eqb_sym.
    destruct (text_eqb k (fst kv)) eqn:E; [|reflexivity].
    exfalso. assert (existsb (fun kv0 : text * A => text_eqb k (fst kv0)) l = true).
    { apply existsb_exists. now exists kv. }
    congruence.
Qed.
End FreshKeys.

(** ** Content coercion *)

Section Coercion.
Context {lib : PyLib}.

Lemma fix_files_distinct : forall files,
  distinct_keys files = true ->
  fix_files files = map (fun fc => (fst fc, fix_content (snd fc))) files.
Proof.
  intros files H. unfold fix_files.
  now rewrite (fold_dict_set_distinct fix_content files []).
Qed.





End Coercion.



(** ** Which models are committed *)

Lemma for_each_invariant : forall {A S : Type} (P : S -> Prop)
    (body : S -> A -> result S) (l : list A) (s s' : S),
  (forall s a s', P s -> body s a = Ok s' -> P s') ->
  P s -> for_each body l s = Ok s' -> P s'.
Proof.
  intros A S P body. induction l as [|a l IH]; intros s s' Hb Hs H.
  - cbn in H. injection H as <-. exact Hs.
  - cbn in H. destruct (body s a) as [s1|e] eqn:E; [|discriminate].
    cbn in H. apply (IH s1 s' Hb); [eapply Hb; eauto|exact H].
Qed.

Lemma dict_set_Forall : forall {K V : Type} (eqb : K -> K -> bool)
    (P : K * V -> Prop) k v d,
  Forall P d -> P (k, v) -> (forall k' v', P (k', v') -> P (k', v)) ->
  Forall P (dict_set eqb k v d).
Proof.
  intros K V eqb P k v. induction d as [|[k' v'] d IH]; intros Hd Hk Hr.
  - cbn. auto.
  - inversion Hd; subst. cbn. destruct (eqb k k'); constructor; eauto.
Qed.

Lemma dict_set_not_nil : forall {K V : Type} (eqb : K -> K -> bool) k (v : V) d,
  dict_set eqb k v d <> [].
Proof. intros K V eqb k v [|[k' v'] d]; cbn; [|destruct (eqb k k')]; discriminate. Qed.

Section Commit.
Context {lib : PyLib}.

Lemma clean_not_nil : forall {K : Type} (eqb : K -> K -> bool) f fs,
  clean eqb (f :: fs) <> [].
Proof.
  intros K eqb f fs. unfold clean. cbn [fold_left].
  generalize (dict_set eqb (fst f) (clean_type (snd f)) []) (dict_set_not_nil eqb (fst f) (clean_type (snd f)) []).
  induction fs as [|g fs IH]; intros acc Hacc; cbn; [exact Hacc|].
  apply IH. apply dict_set_not_nil.
Qed.

Lemma set_item_named : forall name fields (normalized normalized' : models),
  Forall named_with_fields normalized ->
  truthy name = true -> fields <> [] ->
  set_item name fields normalized = Ok normalized' ->
  Forall named_with_fields normalized'.
Proof.
  intros name fields n n' Hn Ht Hf H. unfold set_item in H.
  destruct (hashable name); [|discriminate]. injection H as <-.
  apply dict_set_Forall; [assumption|now split|].
  intros k' v' [Hk _]. now split.
Qed.

(** A call of [process_model] that returns leaves [normalized] as it was
    or commits a model with a name and at least one field. *)
Lemma process_model_named : forall model_data model_name normalized normalized',
  Forall named_with_fields normalized ->
  process_model model_data model_name normalized = Ok normalized' ->
  Forall named_with_fields normalized'.
Proof.
  intros md name n n' Hn H. unfold process_model in H.
  match type of H with bind ?r _ = _ => destruct r as [[name' [[|f fs]|]]|e] eqn:E end;
    cbn [bind] in H; try discriminate; try (injection H as <-; assumption).
  destruct (truthy name') eqn:Ht; [|injection H as <-; assumption].
  eapply set_item_named; eauto. apply clean_not_nil.
Qed.

Lemma process_entries_named : forall entries normalized normalized',
  Forall named_with_fields normalized ->
  process_entries entries normalized = Ok normalized' ->
  Forall named_with_fields normalized'.
Proof.
  intros entries n n' Hn H. unfold process_entries in H.
  refine (for_each_invariant (Forall named_with_fields) _ entries n n' _ Hn H).
  intros s a s' Hs Hb. eapply process_model_named; eauto.
Qed.

(** What the strategies collect: models with a name and fields, unless
    the schema went through the branch of the canonical form. *)
Lemma collect_models_cases : forall schema normalized,
  collect_models schema = Ok normalized ->
  Forall named_with_fields normalized
  \/ (exists d,
        schema = JObj d /\ is_already_normalized d = true
        /\ dict_mem text_eqb (txt "definitions") d = false
        /\ normalized
           = fold_left
               (fun n (mf : text * json) =>
                  match snd mf with
                  | JObj fields =>
                    dict_set key_eqb (JStr (fst mf))
                             (map (fun kv : text * type_tag => (JStr (fst kv), snd kv))
                                  (clean text_eqb fields)) n
                  | _ => n
                  end) d []).
Proof.
  intros schema n H. destruct schema as [| | | | |l|d];
    try (injection H as <-; left; constructor).
  - left. refine (for_each_invariant (Forall named_with_fields) _ l [] n _ _ H);
      [|constructor].
    intros s a s' Hs Hb. eapply process_model_named; eauto.
  - unfold collect_models in H.
    match type of H with bind ?r _ = _ => destruct r as [[|]|e] end;
      cbn [bind] in H; try discriminate H.
    + left. match type of H with bind ?r _ = _ => destruct r end;
        cbn [bind] in H; [|discriminate H].
      eapply process_entries_named; [|exact H]. constructor.
    + destruct (dict_mem text_eqb (txt "definitions") d) eqn:D.
      * left. match type of H with bind ?r _ = _ => destruct r end;
          cbn [bind] in H; [|discriminate H].
        eapply process_entries_named; [|exact H]. constructor.
      * destruct (is_already_normalized d) eqn:A.
        -- right. exists d. injection H as <-. auto.
        -- left. destruct (process_model (JObj d) JNull []) as [[|m n0]|e] eqn:E;
             cbn [bind] in H; try discriminate H.
           ++ eapply process_entries_named; [|exact H]. constructor.
           ++ injection H as <-. eapply process_model_named; [|exact E]. constructor.
Qed.

(** C9 (amended). For every input on which the normalizer returns, one
    of three cases holds.  The descriptor strategies found models: the
    result holds only models with a name that is not empty and at least
    one extracted field, and a descriptor that fails either condition is
    left out.  Or the input went through the branch of the canonical form
    (a map, not empty, without a [definitions] key, whose values are all
    maps of strings): every entry is committed with its types normalized,
    whatever its name and fields.  Or no model was found: the input itself
    is returned, unchanged, whatever it holds. *)
Theorem committed_models_have_name_and_fields : forall schema returned,
  normalize_schema schema = Ok returned ->
  (exists normalized,
      returned = Normalized normalized /\ normalized <> []
      /\ Forall named_with_fields normalized)
  \/ (exists d,
        schema = JObj d /\ is_already_normalized d = true
        /\ dict_mem text_eqb (txt "definitions") d = false
        /\ returned
           = Normalized
               (fold_left
                  (fun n (mf : text * json) =>
                     match snd mf with
                     | JObj fields =>
                       dict_set key_eqb (JStr (fst mf))
                                (map (fun kv : text * type_tag => (JStr (fst kv), snd kv))
                                     (clean text_eqb fields)) n
                     | _ => n
                     end) d []))
  \/ (returned = Original schema /\ collect_models schema = Ok []).
Proof.
  intros schema r H. unfold normalize_schema in H.
  destruct (collect_models schema) as [[|m n]|e] eqn:C; cbn [bind] in H;
    [| |discriminate H].
  - right. right. split; [|reflexivity].
    destruct schema as [| | | | | |[|kv d]]; try (injection H as <-; reflexivity).
    destruct (forallb _ _); [|injection H as <-; reflexivity].
    destruct (truthy _); injection H as <-; reflexivity.
  - assert (r = Normalized (m :: n)) as -> by (destruct schema; now injection H as <-).
    destruct (collect_models_cases _ _ C) as [F|(d & -> & A & D & E)].
    + left. exists (m :: n). repeat split; [discriminate|exact F].
    + right. left. exists d. rewrite <- E. auto.
Qed.

(** What the canonical-form branch commits: each entry under its own key,
    with its types normalized. *)
Lemma canonical_form_commits_everything : forall d,
  dict_mem text_eqb (txt "components") d = false ->
  dict_mem text_eqb (txt "definitions") d = false ->
  is_already_normalized d = true ->
  collect_models (JObj d)
  = Ok (fold_left
          (fun n (mf : text * json) =>
             match snd mf with
             | JObj fields =>
               dict_set key_eqb (JStr (fst mf))
                        (map (fun kv : text * type_tag => (JStr (fst kv), snd kv))
                             (clean text_eqb fields)) n
             | _ => n
             end) d []).
Proof.
  intros d H1 H2 H3. unfold collect_models. rewrite H1. cbn [bind].
  now rewrite H2, H3.
Qed.
End Commit.

(** [committed_models_have_name_and_fields] on a list of two descriptors,
    the second without fields: the first case, with the one model
    [User]. *)
Lemma committed_models_witness :
  (exists normalized,
      Normalized user_schema = Normalized normalized /\ normalized <> []
      /\ Forall named_with_fields normalized)
  \/ (exists d,
        JArr [JObj [(txt "name", JStr (txt "User"));
                    (txt "fields", JArr [JObj [(txt "name", JStr (txt "id"));
                                               (txt "type", JStr (txt "int"))]])];
              JObj [(txt "name", JStr (txt "Empty")); (txt "fields", JArr [])]]
        = JObj d /\ is_already_normalized d = true
        /\ dict_mem text_eqb (txt "definitions") d = false
        /\ Normalized user_schema
           = Normalized
               (fold_left
                  (fun n (mf : text * json) =>
                     match snd mf with
                     | JObj fields =>
                       dict_set key_eqb (JStr (fst mf))
                                (map (fun kv : text * type_tag => (JStr (fst kv), snd kv))
                                     (clean (lib := plain_lib) text_eqb fields)) n
                     | _ => n
                     end) d []))
  \/ (Normalized user_schema
      = Original
          (JArr [JObj [(txt "name", JStr (txt "User"));
                       (txt "fields", JArr [JObj [(txt "name", JStr (txt "id"));
                                                  (txt "type", JStr (txt "int"))]])];
                 JObj [(txt "name", JStr (txt "Empty")); (txt "fields", JArr [])]])
      /\ collect_models (lib := plain_lib)
           (JArr [JObj [(txt "name", JStr (txt "User"));
                        (txt "fields", JArr [JObj [(txt "name", JStr (txt "id"));
                                                   (txt "type", JStr (txt "int"))]])];
                  JObj [(txt "name", JStr (txt "Empty")); (txt "fields", JArr [])]])
         = Ok []).
Proof.
  apply (committed_models_have_name_and_fields (lib := plain_lib)
           (JArr [JObj [(txt "name", JStr (txt "User"));
                        (txt "fields", JArr [JObj [(txt "name", JStr (txt "id"));
                                                   (txt "type", JStr (txt "int"))]])];
                  JObj [(txt "name", JStr (txt "Empty")); (txt "fields", JArr [])]])).
  reflexivity.
Defined.

(** C9, as stated, fails.  Whatever the interpreter's tables, the input
    [{"": {"id": "int"}}] yields a model with an empty name and
    [{"User": {}}] a model without fields, both through the branch of the
    canonical form.  And the inputs [{"": {"x": 5}}] and
    [{"User": {"fields": []}}], in which no model is found, are returned as
    they are, the empty name and the entry without an extracted field in
    them; [generate_api] passes the first on to the generator. *)
Lemma unnamed_and_fieldless_models_are_returned :
  (~ exists l : PyLib,
       (forall n, normalize_document (lib := l) (js "{'': {'id': 'int'}}") = Ok (Normalized n) ->
                  Forall named_with_fields n)
       \/ (forall n, normalize_document (lib := l) (js "{'User': {}}") = Ok (Normalized n) ->
                     Forall named_with_fields n))
  /\ (forall l : PyLib,
        normalize_document (lib := l) (js "{'': {'x': 5}}")
        = Ok (Original (JObj [([], JObj [(txt "x", JInt 5)])]))
        /\ normalize_document (lib := l) (js "{'User': {'fields': []}}")
           = Ok (Original (JObj [(txt "User", JObj [(txt "fields", JArr [])])]))
        /\ accept (lib := l)
             (JObj [(txt "project_name", JStr (txt "shop"));
                    (txt "language", JStr (txt "java-spring"));
                    (txt "schema", JObj [([], JObj [(txt "x", JInt 5)])])])
           = Ok (inr (Original (JObj [([], JObj [(txt "x", JInt 5)])])))).
Proof.
  split.
  - intros [l [H|H]].
    + specialize (H _ eq_refl). inversion H as [|? ? [Hn _] _]. discriminate Hn.
    + specialize (H _ eq_refl). inversion H as [|? ? [_ Hf] _]. now apply Hf.
  - intros l. repeat split; vm_compute; reflexivity.
Qed.

(** ** The decoder never runs out of budget *)

Lemma skip_ws_length : forall s, (length (skip_ws s) <= length s)%nat.
Proof.
  induction s as [|c s IH]; [apply le_n|]. cbn [skip_ws].
  destruct (is_json_ws c); cbn [length]; lia.
Qed.

Lemma prepend_some : forall c r str rest,
  prepend c r = Some (str, rest) -> exists str', r = Some (str', rest).
Proof.
  intros c [[str' rest']|] str rest H; [|discriminate H].
  cbn in H. injection H as _ <-. eauto.
Qed.

Lemma scanstring_shorter : forall n s str rest,
  (length s <= n)%nat -> scanstring s = Some (str, rest) ->
  (length rest < length s)%nat.
Proof.
  induction n as [|n IH]; intros s str rest Hn H.
  - destruct s; [discriminate H|cbn in Hn; lia].
  - destruct s as [|c r]; [discriminate H|]. cbn [length] in *.
    cbn [scanstring] in H.
    destruct (c =? 34). { injection H as _ <-. lia. }
    destruct (c =? 92).
    + destruct r as [|esc r1]; [discriminate H|]. cbn [length] in *.
      destruct (esc =? 117).
      * destruct r1 as [|h1 [|h2 [|h3 [|h4 r2]]]]; try discriminate H.
        cbn [length] in *.
        destruct (hex4 h1 h2 h3 h4) as [uni|]; [|discriminate H].
        assert (forall str, prepend uni (scanstring r2) = Some (str, rest) ->
                            (length rest < S (S (S (S (S (S (length r2)))))))%nat) as Hlone.
        { intros str0 H0. apply prepend_some in H0 as [str' H0].
          apply IH in H0; lia. }
        destruct (is_high_surrogate uni); [|eauto].
        destruct r2 as [|b [|u [|g1 [|g2 [|g3 [|g4 r3]]]]]]; eauto.
        destruct ((b =? 92) && (u =? 117)); [|eauto].
        destruct (hex4 g1 g2 g3 g4) as [uni2|]; [|discriminate H].
        destruct (is_low_surrogate uni2); [|eauto].
        apply prepend_some in H as [str' H]. apply IH in H; cbn [length] in *; lia.
      * destruct (backslash esc); [|discriminate H].
        apply prepend_some in H as [str' H]. apply IH in H; lia.
    + destruct (c <? 32); [discriminate H|].
      apply prepend_some in H as [str' H]. apply IH in H; lia.
Qed.

Lemma read_digits_length : forall s acc n a k rest,
  read_digits s acc n = (a, k, rest) -> (length rest <= length s)%nat.
Proof.
  induction s as [|c s IH]; intros acc n a k rest H.
  - injection H as _ _ <-. apply le_n.
  - cbn [read_digits] in H. destruct (is_digit c).
    + apply IH in H. cbn [length]. lia.
    + injection H as _ _ <-. apply le_n.
Qed.

Lemma read_exponent_length : forall s ex rest,
  read_exponent s = Some (ex, rest) -> (length rest <= length s)%nat.
Proof.
  intros s ex rest H. unfold read_exponent in H.
  destruct s as [|c r]; [discriminate H|].
  destruct ((c =? 101) || (c =? 69)); [|discriminate H].
  assert (forall r1, (length r1 <= length r)%nat ->
            match r1 with
            | d :: _ =>
              if is_digit d then
                let '(v, _, rest) := read_digits r1 0 0%Z in
                Some (if (false : bool) then (- Z.of_N v)%Z else Z.of_N v, rest)
              else None
            | [] => None
            end = Some (ex, rest) \/
            match r1 with
            | d :: _ =>
              if is_digit d then
                let '(v, _, rest) := read_digits r1 0 0%Z in
                Some (if (true : bool) then (- Z.of_N v)%Z else Z.of_N v, rest)
              else None
            | [] => None
            end = Some (ex, rest) ->
            (length rest <= length (c :: r))%nat) as Hr.
  { intros r1 Hl Hm. destruct r1 as [|d r1']; [destruct Hm; discriminate|].
    destruct (is_digit d); [|destruct Hm; discriminate].
    destruct (read_digits (d :: r1') 0 0%Z) as [[v k] rest'] eqn:E.
    apply read_digits_length in E.
    assert (rest' = rest) by (destruct Hm as [Hm|Hm]; now injection Hm).
    subst. cbn [length] in *. lia. }
  destruct r as [|sg r'].
  - discriminate H.
  - destruct (sg =? 45); [apply (Hr r'); [cbn; lia|now right]|].
    destruct (sg =? 43); [apply (Hr r'); [cbn; lia|now left]|].
    apply (Hr (sg :: r')); [apply le_n|now left].
Qed.

Lemma match_number_shorter : forall s v rest,
  match_number s = Some (v, rest) -> (length rest < length s)%nat.
Proof.
  intros s v rest H. unfold match_number in H.
  assert (forall (neg : bool) s0, (length s0 <= length s)%nat ->
            match s0 with
            | [] => None
            | d :: r =>
              if is_digit d then
                let '(int_part, _, s1) :=
                  if d =? 48 then (0, 1%Z, r) else read_digits s0 0 0%Z in
                let '(mant, frac_len, s2, has_frac) :=
                  match s1 with
                  | dot :: f :: r' =>
                    if (dot =? 46) && is_digit f then
                      let '(m, n, rest) := read_digits (f :: r') int_part 0%Z in
                      (m, n, rest, true)
                    else (int_part, 0%Z, s1, false)
                  | _ => (int_part, 0%Z, s1, false)
                  end in
                match read_exponent s2 with
                | Some (ex, s3) =>
                  Some (JFloat (float_of_decimal neg mant (ex - frac_len)), s3)
                | None =>
                  if has_frac
                  then Some (JFloat (float_of_decimal neg mant (- frac_len)), s2)
                  else Some (JInt (if neg then (- Z.of_N mant)%Z else Z.of_N mant), s2)
                end
              else None
            end = Some (v, rest) -> (length rest < length s0)%nat) as Hbody.
  { intros neg s0 _ H0. destruct s0 as [|d r]; [discriminate H0|].
    destruct (is_digit d) eqn:Hd; [|discriminate H0].
    assert (exists int_part k s1,
               (if d =? 48 then (0, 1%Z, r) else read_digits (d :: r) 0 0%Z)
               = (int_part, k, s1) /\ (length s1 <= length r)%nat) as (ip & k & s1 & E & Hs1).
    { destruct (d =? 48); [now exists 0, 1%Z, r|].
      cbn [read_digits]. rewrite Hd.
      destruct (read_digits r (0 * 10 + (d - 48)) (0 + 1)%Z) as [[a k] s1] eqn:E.
      exists a, k, s1. split; [reflexivity|]. now apply read_digits_length in E. }
    rewrite E in H0.
    assert (exists mant fl s2 hf,
               match s1 with
               | dot :: f :: r' =>
                 if (dot =? 46) && is_digit f then
                   let '(m, n, rest) := read_digits (f :: r') ip 0%Z in
                   (m, n, rest, true)
                 else (ip, 0%Z, s1, false)
               | _ => (ip, 0%Z, s1, false)
               end = (mant, fl, s2, hf) /\ (length s2 <= length s1)%nat)
      as (mant & fl & s2 & hf & E2 & Hs2).
    { destruct s1 as [|dot [|f r']]; try (now eexists _, _, _, _).
      destruct ((dot =? 46) && is_digit f); [|now eexists _, _, _, _].
      destruct (read_digits (f :: r') ip 0%Z) as [[m n] rest'] eqn:E3.
      exists m, n, rest', true. split; [reflexivity|].
      apply read_digits_length in E3. cbn [length] in *. lia. }
    rewrite E2 in H0.
    destruct (read_exponent s2) as [[ex s3]|] eqn:E4.
    - apply read_exponent_length in E4. injection H0 as _ <-. cbn [length]. lia.
    - destruct hf; injection H0 as _ <-; cbn [length]; lia. }
  destruct s as [|c r]; [discriminate H|].
  destruct (c =? 45).
  - apply (Hbody true r) in H; cbn [length] in *; lia.
  - apply (Hbody false (c :: r)) in H; [exact H|apply le_n].
Qed.

Lemma startswith_length : forall p s,
  startswith p s = true -> (length p <= length s)%nat.
Proof.
  induction p as [|x p IH]; intros s H; [cbn; lia|].
  destruct s as [|y s]; [discriminate H|].
  cbn in H. apply andb_true_iff in H as [_ H]. apply IH in H. cbn [length]. lia.
Qed.

Lemma drop_shorter : forall p s k,
  startswith p s = true -> Z.of_nat (length p) = k -> (0 < length p)%nat ->
  (length (drop k s) < length s)%nat.
Proof.
  intros p s k Hp <- Hl. apply startswith_length in Hp. unfold drop.
  rewrite Nat2Z.id, length_skipn. lia.
Qed.

Lemma scan_constant_shorter : forall s,
  scan_constant s <> OutOfFuel
  /\ forall v rest, scan_constant s = Scanned v rest -> (length rest < length s)%nat.
Proof.
  intros s. unfold scan_constant.
  destruct (startswith (txt "null") s) eqn:E1.
  { split; [discriminate|]. intros v rest H. injection H as _ <-.
    apply (drop_shorter (txt "null")); [exact E1|reflexivity|cbn; lia]. }
  destruct (startswith (txt "true") s) eqn:E2.
  { split; [discriminate|]. intros v rest H. injection H as _ <-.
    apply (drop_shorter (txt "true")); [exact E2|reflexivity|cbn; lia]. }
  destruct (startswith (txt "false") s) eqn:E3.
  { split; [discriminate|]. intros v rest H. injection H as _ <-.
    apply (drop_shorter (txt "false")); [exact E3|reflexivity|cbn; lia]. }
  destruct (startswith (txt "NaN") s) eqn:E4.
  { split; [discriminate|]. intros v rest H. injection H as _ <-.
    apply (drop_shorter (txt "NaN")); [exact E4|reflexivity|cbn; lia]. }
  destruct (startswith (txt "Infinity") s) eqn:E5.
  { split; [discriminate|]. intros v rest H. injection H as _ <-.
    apply (drop_shorter (txt "Infinity")); [exact E5|reflexivity|cbn; lia]. }
  destruct (startswith (txt "-Infinity") s) eqn:E6.
  { split; [discriminate|]. intros v rest H. injection H as _ <-.
    apply (drop_shorter (txt "-Infinity")); [exact E6|reflexivity|cbn; lia]. }
  destruct (match_number s) as [[v rest]|] eqn:E; split; try discriminate.
  intros v0 rest0 H. injection H as _ <-. now apply match_number_shorter in E.
Qed.

Lemma scan_once_unfold : forall fuel s,
  scan_once (S fuel) s =
  match s with
  | [] => DecodeError
  | c :: r =>
    if c =? DQUOTE then
      match scanstring r with
      | Some (str, rest) => Scanned (JStr str) rest
      | None => DecodeError
      end
    else if c =? LBRACE then
      match skip_ws r with
      | c1 :: r1 =>
        if c1 =? RBRACE then Scanned (JObj []) r1
        else parse_pairs fuel [] (c1 :: r1)
      | [] => DecodeError
      end
    else if c =? LBRACK then
      match skip_ws r with
      | c1 :: r1 =>
        if c1 =? RBRACK then Scanned (JArr []) r1
        else parse_items fuel [] (c1 :: r1)
      | [] => DecodeError
      end
    else scan_constant s
  end.
Proof. reflexivity. Qed.

Lemma parse_pairs_unfold : forall fuel acc s,
  parse_pairs (S fuel) acc s =
  match s with
  | [] => DecodeError
  | c :: r =>
    if c =? DQUOTE then
      match scanstring r with
      | None => DecodeError
      | Some (key, s1) =>
        match skip_ws s1 with
        | [] => DecodeError
        | c2 :: r2 =>
          if c2 =? COLON then
            match scan_once fuel (skip_ws r2) with
            | Scanned val s3 => after_entries fuel (dict_set text_eqb key val acc) s3
            | failure => failure
            end
          else DecodeError
        end
      end
    else DecodeError
  end.
Proof. reflexivity. Qed.

Lemma parse_items_unfold : forall fuel acc s,
  parse_items (S fuel) acc s =
  match scan_once fuel s with
  | Scanned val s1 =>
    match skip_ws s1 with
    | [] => DecodeError
    | c :: r =>
      if c =? RBRACK then Scanned (JArr (acc ++ [val])) r
      else if c =? COMMA then parse_items fuel (acc ++ [val]) (skip_ws r)
      else DecodeError
    end
  | failure => failure
  end.
Proof. reflexivity. Qed.

(** With enough budget a scan does not exhaust it, and it consumes text. *)
Lemma scan_total : forall fuel,
  (forall s, (2 * length s + 1 <= fuel)%nat -> scan_ok (scan_once fuel s) s)
  /\ (forall acc s, (2 * length s + 2 <= fuel)%nat -> scan_ok (parse_pairs fuel acc s) s)
  /\ (forall acc s, (2 * length s + 2 <= fuel)%nat -> scan_ok (parse_items fuel acc s) s).
Proof.
  induction fuel as [|fuel (IH1 & IH2 & IH3)].
  { repeat split; intros; lia. }
  assert (forall s, scan_ok DecodeError s) as Herr by (intros; split; discriminate).
  split; [|split].
  - intros s Hf. rewrite scan_once_unfold.
    destruct s as [|c r]; [apply Herr|]. cbn [length] in Hf.
    destruct (c =? 34).
    { destruct (scanstring r) as [[str rest]|] eqn:E; [|apply Herr].
      apply scanstring_shorter with (n := length r) in E; [|apply le_n].
      split; [discriminate|]. intros v rest0 H. injection H as _ <-. cbn [length]. lia. }
    pose proof (skip_ws_length r) as Hw.
    destruct (c =? 123).
    { destruct (skip_ws r) as [|c1 r1] eqn:E; [apply Herr|]. cbn [length] in Hw.
      destruct (c1 =? 125).
      - split; [discriminate|]. intros v rest H. injection H as _ <-. cbn [length]. lia.
      - destruct (IH2 [] (c1 :: r1)) as [Hn Hs]; [cbn [length]; lia|].
        split; [exact Hn|]. intros v rest H. apply Hs in H. cbn [length] in *. lia. }
    destruct (c =? 91).
    { destruct (skip_ws r) as [|c1 r1] eqn:E; [apply Herr|]. cbn [length] in Hw.
      destruct (c1 =? 93).
      - split; [discriminate|]. intros v rest H. injection H as _ <-. cbn [length]. lia.
      - destruct (IH3 [] (c1 :: r1)) as [Hn Hs]; [cbn [length]; lia|].
        split; [exact Hn|]. intros v rest H. apply Hs in H. cbn [length] in *. lia. }
    apply scan_constant_shorter.
  - intros acc s Hf. rewrite parse_pairs_unfold.
    destruct s as [|c r]; [apply Herr|]. cbn [length] in Hf.
    destruct (c =? 34); [|apply Herr].
    destruct (scanstring r) as [[key s1]|] eqn:E; [|apply Herr].
    apply scanstring_shorter with (n := length r) in E; [|apply le_n].
    pose proof (skip_ws_length s1) as Hw1.
    destruct (skip_ws s1) as [|c2 r2]; [apply Herr|]. cbn [length] in Hw1.
    destruct (c2 =? 58); [|apply Herr].
    pose proof (skip_ws_length r2) as Hw2.
    destruct (IH1 (skip_ws r2)) as [Hn Hs]; [lia|].
    destruct (scan_once fuel (skip_ws r2)) as [val s3| |]; [|apply Herr|now elim Hn].
    specialize (Hs _ _ eq_refl). unfold after_entries.
    pose proof (skip_ws_length s3) as Hw3.
    destruct (skip_ws s3) as [|c4 r4]; [apply Herr|]. cbn [length] in Hw3.
    destruct (c4 =? 125).
    { split; [discriminate|]. intros v rest H. injection H as _ <-. cbn [length]. lia. }
    destruct (c4 =? 44); [|apply Herr].
    pose proof (skip_ws_length r4) as Hw4.
    destruct (IH2 (dict_set text_eqb key val acc) (skip_ws r4)) as [Hn' Hs']; [lia|].
    split; [exact Hn'|]. intros v rest H. apply Hs' in H. cbn [length]. lia.
  - intros acc s Hf. rewrite parse_items_unfold.
    destruct (IH1 s) as [Hn Hs]; [lia|].
    destruct (scan_once fuel s) as [val s1| |]; [|apply Herr|now elim Hn].
    specialize (Hs _ _ eq_refl).
    pose proof (skip_ws_length s1) as Hw1.
    destruct (skip_ws s1) as [|c r]; [apply Herr|]. cbn [length] in Hw1.
    destruct (c =? 93).
    { split; [discriminate|]. intros v rest H. injection H as _ <-. lia. }
    destruct (c =? 44); [|apply Herr].
    pose proof (skip_ws_length r) as Hw.
    destruct (IH3 (acc ++ [val]) (skip_ws r)) as [Hn' Hs']; [lia|].
    split; [exact Hn'|]. intros v rest H. apply Hs' in H. lia.
Qed.

(** [json.loads] returns a value or raises [JSONDecodeError], nothing else. *)
Lemma json_loads_total : forall s e, json_loads s = Raise e -> e = JSONDecodeError.
Proof.
  intros s e H. unfold json_loads in H.
  pose proof (skip_ws_length s) as Hw.
  destruct (proj1 (scan_total (S (2 * length s))) (skip_ws s)) as [Hn _]; [lia|].
  destruct (scan_once _ _) as [v rest| |]; [destruct (skip_ws rest)| |];
    try discriminate H; try (now injection H); now elim Hn.
Qed.

(** ** When the engine fails *)

Lemma get_files_raises : forall r e, get_files r = Raise e -> e = AttributeError.
Proof. intros [] e H; try discriminate H; now injection H. Qed.

Lemma items_raises : forall f e, items f = Raise e -> e = AttributeError.
Proof. intros [] e H; try discriminate H; now injection H. Qed.

Section Failure.
Context {lib : PyLib}.

Lemma truncated_attempt_raises : forall t e,
  truncated_attempt t = Raise e -> e = AttributeError.
Proof.
  intros [[|c t]|] e H; try discriminate H. unfold truncated_attempt in H.
  destruct (json_loads (c :: t)) as [r|e'] eqn:E.
  - destruct (get_files r) eqn:G; cbn [bind] in H; [discriminate H|].
    injection H as <-. eapply get_files_raises; eauto.
  - apply json_loads_total in E. subst e'. discriminate H.
Qed.

Lemma strategy1_raises : forall t e, strategy1 t = Raise e -> e = AttributeError.
Proof.
  intros t e H. unfold strategy1 in H.
  destruct (find_json_object t) as [[|c x]|]; try discriminate H.
  destruct (json_loads _) as [r|e1] eqn:E1; cbn [bind] in H.
  - destruct (get_files r) as [f|e2] eqn:E2; cbn [bind] in H.
    + destruct (items f) as [en|e3] eqn:E3; cbn [bind] in H.
      * destruct (truthy _); [discriminate H|].
        now apply truncated_attempt_raises in H.
      * apply items_raises in E3. subst e3. now injection H.
    + apply get_files_raises in E2. subst e2. now injection H.
  - apply json_loads_total in E1. subst e1.
    now apply truncated_attempt_raises in H.
Qed.

Lemma strategy2_raises : forall t e, strategy2 t = Raise e -> e = AttributeError.
Proof.
  intros t e H. unfold strategy2 in H.
  destruct (json_loads _) as [r|e1] eqn:E1.
  - destruct (get_files r) as [f|e2] eqn:E2; cbn [bind] in H.
    + destruct (truthy f); [|discriminate H].
      destruct (items f) as [en|e3] eqn:E3; cbn [bind] in H; [discriminate H|].
      apply items_raises in E3. subst e3. now injection H.
    + apply get_files_raises in E2. subst e2. now injection H.
  - apply json_loads_total in E1. subst e1.
    now apply truncated_attempt_raises in H.
Qed.

Lemma try_matches_raises : forall ms e, try_matches ms = Raise e -> e = AttributeError.
Proof.
  induction ms as [|m ms IH]; intros e H; [discriminate H|]. cbn [try_matches] in H.
  destruct (json_loads _) as [r|e1] eqn:E1.
  - destruct (get_files r) as [f|e2] eqn:E2; cbn [bind] in H.
    + destruct (truthy f); [discriminate H|auto].
    + apply get_files_raises in E2. subst e2. now injection H.
  - apply json_loads_total in E1. subst e1. auto.
Qed.

(** The [ValueError] of the handler is raised only when the three
    strategies have run and none has produced files. *)
Lemma fallback_value_error : forall t msg,
  fallback t = Raise (ValueError msg) -> exhausted t.
Proof.
  intros t msg H. unfold fallback in H. unfold exhausted.
  destruct (strategy1 t) as [[f|]|e] eqn:E1; cbn [bind] in H; try discriminate H.
  2:{ apply strategy1_raises in E1. subst e. discriminate H. }
  destruct (strategy2 t) as [[f|]|e] eqn:E2; cbn [bind] in H; try discriminate H.
  2:{ apply strategy2_raises in E2. subst e. discriminate H. }
  destruct (strategy3 t) as [[f|]|e] eqn:E3; cbn [bind] in H; try discriminate H.
  2:{ apply try_matches_raises in E3. subst e. discriminate H. }
  auto.
Qed.

(** C4 (amended). The fallback strategies run only when the strict parse
    itself fails to decode: then the engine's answer is the handler's, and
    the handler reports that no valid JSON was returned only after all
    three strategies have run without producing files.  Any other failure
    of the first attempt leaves the engine at once: when the strict parse
    succeeds and the files mapping is empty or missing the engine fails
    with "API returned empty files dictionary" and no strategy is tried. *)
Theorem failure_only_after_exhaustion : forall content,
  (strict_attempt (prepare content) = Raise JSONDecodeError ->
   recover content = fallback (prepare content))
  /\ (forall msg, fallback (prepare content) = Raise (ValueError msg) ->
                  exhausted (prepare content))
  /\ (forall e, strict_attempt (prepare content) = Raise e -> e <> JSONDecodeError ->
                recover content = Raise e)
  /\ (forall result0 files,
         json_loads (prepare content) = Ok result0 ->
         get_files result0 = Ok files -> truthy files = false ->
         recover content = Raise (ValueError "API returned empty files dictionary")).
Proof.
  intros content. unfold recover. split; [|split; [|split]].
  - intros H. now rewrite H.
  - apply fallback_value_error.
  - intros e H Hne. rewrite H. destruct e; try reflexivity. now elim Hne.
  - intros r f Hl Hg Ht. unfold strict_attempt. rewrite Hl. cbn [bind].
    rewrite Hg. cbn [bind]. rewrite Ht. cbn [bind]. now rewrite Ht.
Qed.
End Failure.

(** C4, as stated, fails: on [{"x": {"files": {"a": "b"}}}] the strict
    parse succeeds without a files mapping and the engine fails, although
    strategy 3 is not exhausted: run on the same text, it finds the files. *)
Lemma failure_before_exhaustion :
  ~ exists l : PyLib,
      forall e, recover (lib := l) (js "{'x': {'files': {'a': 'b'}}}") = Raise e ->
                exhausted (lib := l) (prepare (js "{'x': {'files': {'a': 'b'}}}")).
Proof.
  intros [l H].
  destruct (H (ValueError "API returned empty files dictionary") eq_refl) as (_ & _ & H3).
  vm_compute in H3. discriminate H3.
Qed.

(** ** Strings of a compliant document *)

Lemma hex_digit_value : forall n, n < 16 -> hex_value (hex_digit n) = Some n.
Proof.
  intros n H. unfold hex_digit, hex_value, is_digit.
  destruct (n <? 10) eqn:E.
  - apply N.ltb_lt in E.
    replace (48 <=? 48 + n) with true by (symmetry; apply N.leb_le; lia).
    replace (48 + n <=? 57) with true by (symmetry; apply N.leb_le; lia).
    cbn [andb]. f_equal. lia.
  - apply N.ltb_ge in E.
    replace (87 + n <=? 57) with false by (symmetry; apply N.leb_gt; lia).
    rewrite andb_false_r.
    replace (97 <=? 87 + n) with true by (symmetry; apply N.leb_le; lia).
    replace (87 + n <=? 102) with true by (symmetry; apply N.leb_le; lia).
    cbn [andb]. f_equal. lia.
Qed.

Lemma hex_digit_range : forall n, n < 16 ->
  (48 <= hex_digit n /\ hex_digit n <= 57) \/ (97 <= hex_digit n /\ hex_digit n <= 102).
Proof.
  intros n H. unfold hex_digit. destruct (n <? 10) eqn:E.
  - apply N.ltb_lt in E. left. lia.
  - apply N.ltb_ge in E. right. lia.
Qed.

Lemma escape_char_shape : forall c, escape_shape c (escape_char c).
Proof.
  intros c. unfold escape_char.
  destruct (c =? 34) eqn:E1; [apply N.eqb_eq in E1; subst; apply shape_short; cbn; auto|].
  destruct (c =? 92) eqn:E2; [apply N.eqb_eq in E2; subst; apply shape_short; cbn; auto|].
  destruct (c =? 10) eqn:E3; [apply N.eqb_eq in E3; subst; apply shape_short; cbn; auto 10|].
  destruct (c =? 13) eqn:E4; [apply N.eqb_eq in E4; subst; apply shape_short; cbn; auto 10|].
  destruct (c =? 9) eqn:E5; [apply N.eqb_eq in E5; subst; apply shape_short; cbn; auto 10|].
  destruct (c =? 8) eqn:E6; [apply N.eqb_eq in E6; subst; apply shape_short; cbn; auto 10|].
  destruct (c =? 12) eqn:E7; [apply N.eqb_eq in E7; subst; apply shape_short; cbn; auto 10|].
  apply N.eqb_neq in E1, E2.
  destruct (c <? 32) eqn:E8.
  - apply N.ltb_lt in E8.
    assert (c / 16 < 16) by (apply N.Div0.div_lt_upper_bound; lia).
    assert (c mod 16 < 16) by (apply N.mod_lt; lia).
    apply shape_hex; auto.
    rewrite (N.div_mod c 16) at 1 by lia. lia.
  - apply N.ltb_ge in E8. now apply shape_raw.
Qed.

Lemma escaped_body_app : forall a b,
  escaped_body a -> escaped_body b -> escaped_body (a ++ b).
Proof.
  induction 1; intros Hb; cbn; [assumption|apply body_raw; auto|apply body_escape; auto].
Qed.

Lemma hex_digit_body : forall n b, n < 16 -> escaped_body b -> escaped_body (hex_digit n :: b).
Proof.
  intros n b H Hb. destruct (hex_digit_range n H); constructor; auto; lia.
Qed.

Lemma escape_char_body : forall c, escaped_body (escape_char c).
Proof.
  intros c. destruct (escape_char_shape c).
  - constructor; auto. constructor.
  - apply body_escape. constructor.
  - apply body_escape. apply body_raw; [lia|lia|lia|].
    apply body_raw; [lia|lia|lia|].
    apply hex_digit_body; auto. apply hex_digit_body; auto. constructor.
Qed.

Lemma dumps_body : forall s, escaped_body (flat_map escape_char s).
Proof.
  induction s as [|c s IH]; cbn; [constructor|].
  apply escaped_body_app; [apply escape_char_body|exact IH].
Qed.

Lemma hex4_00 : forall h l, h < 16 -> l < 16 ->
  hex4 48 48 (hex_digit h) (hex_digit l) = Some (h * 16 + l).
Proof.
  intros h l Hh Hl. unfold hex4. rewrite !hex_digit_value by assumption.
  change (hex_value 48) with (Some 0). cbv beta iota. reflexivity.
Qed.

Lemma scanstring_unicode_escape : forall h1 h2 h3 h4 r2 uni,
  hex4 h1 h2 h3 h4 = Some uni -> is_high_surrogate uni = false ->
  scanstring (BSLASH :: 117 :: h1 :: h2 :: h3 :: h4 :: r2) = prepend uni (scanstring r2).
Proof.
  intros h1 h2 h3 h4 r2 uni H1 H2.
  change (scanstring (BSLASH :: 117 :: h1 :: h2 :: h3 :: h4 :: r2))
    with (match hex4 h1 h2 h3 h4 with
          | None => None
          | Some uni =>
            if is_high_surrogate uni then
              match r2 with
              | b :: u :: g1 :: g2 :: g3 :: g4 :: r3 =>
                if (b =? BSLASH) && (u =? 117) then
                  match hex4 g1 g2 g3 g4 with
                  | None => None
                  | Some uni2 =>
                    if is_low_surrogate uni2
                    then prepend (join_surrogates uni uni2) (scanstring r3)
                    else prepend uni (scanstring r2)
                  end
                else prepend uni (scanstring r2)
              | _ => prepend uni (scanstring r2)
              end
            else prepend uni (scanstring r2)
          end).
  now rewrite H1, H2.
Qed.

(** [scanstring] undoes [escape_char]. *)
Lemma scanstring_escape_char : forall c rest,
  scanstring (escape_char c ++ rest) = prepend c (scanstring rest).
Proof.
  intros c rest. destruct (escape_char_shape c) as [H1 H2 H3|x Hx Hb|h l Hc Hh Hl Heq].
  - cbn. apply N.eqb_neq in H2, H3. rewrite H2, H3.
    replace (c <? 32) with false by (symmetry; apply N.ltb_ge; lia). reflexivity.
  - cbn in Hx. decompose [or] Hx; try contradiction; subst x;
      cbn in Hb; injection Hb as <-; reflexivity.
  - cbn [app]. rewrite (scanstring_unicode_escape _ _ _ _ _ c); [reflexivity| |].
    + rewrite hex4_00 by assumption. f_equal. lia.
    + unfold is_high_surrogate. apply andb_false_iff. left. apply N.leb_gt. lia.
Qed.

Lemma scanstring_dumps : forall s rest,
  scanstring (flat_map escape_char s ++ DQUOTE :: rest) = Some (s, rest).
Proof.
  induction s as [|c s IH]; intros rest; [reflexivity|].
  cbn [flat_map]. rewrite <- app_assoc, scanstring_escape_char, IH. reflexivity.
Qed.

(** ** The scanners on a string *)

Lemma fix_loop_body : forall b rest,
  escaped_body b ->
  fix_loop true false (b ++ DQUOTE :: rest) = b ++ DQUOTE :: fix_loop false false rest.
Proof.
  induction 1 as [|c b H1 H2 H3 Hb IH|c b Hb IH]; cbn [app fix_loop].
  - reflexivity.
  - apply N.eqb_neq in H2, H3. rewrite H2, H3.
    replace (c =? NL) with false by (symmetry; apply N.eqb_neq; lia).
    replace (c =? CR) with false by (symmetry; apply N.eqb_neq; lia).
    replace (c =? TAB) with false by (symmetry; apply N.eqb_neq; lia).
    replace (c <? 32) with false by (symmetry; apply N.ltb_ge; lia).
    now rewrite IH.
  - cbn [N.eqb Pos.eqb]. now rewrite IH.
Qed.

Lemma fix_loop_string : forall s rest,
  fix_loop false false (dumps_string s ++ rest) = dumps_string s ++ fix_loop false false rest.
Proof.
  intros s rest. unfold dumps_string. cbn [app fix_loop N.eqb Pos.eqb negb].
  rewrite <- !app_assoc. cbn [app]. rewrite fix_loop_body by apply dumps_body.
  reflexivity.
Qed.

Section Truncation.
Variable text0 : text.

Lemma truncate_body : forall b rest i last depth,
  escaped_body b ->
  truncate_loop text0 (b ++ DQUOTE :: rest) i last true false depth
  = truncate_loop text0 rest (i + Z.of_nat (length b) + 1) last false false depth.
Proof.
  intros b rest i last depth H. revert i.
  induction H as [|c b H1 H2 H3 Hb IH|c b Hb IH]; intros i; cbn [app truncate_loop length].
  - cbn [N.eqb Pos.eqb negb]. f_equal. lia.
  - apply N.eqb_neq in H2, H3. rewrite H2, H3. cbn [negb]. rewrite IH. f_equal. lia.
  - cbn [N.eqb Pos.eqb]. rewrite IH. f_equal. lia.
Qed.

Lemma truncate_string : forall s rest i last depth,
  truncate_loop text0 (dumps_string s ++ rest) i last false false depth
  = truncate_loop text0 rest (i + Z.of_nat (length (dumps_string s))) last false false depth.
Proof.
  intros s rest i last depth. unfold dumps_string.
  cbn [app truncate_loop N.eqb Pos.eqb negb length].
  rewrite <- app_assoc. cbn [app]. rewrite truncate_body by apply dumps_body.
  f_equal. rewrite length_app. cbn [length]. lia.
Qed.
End Truncation.

Lemma object_end_body : forall b rest i count,
  escaped_body b ->
  object_end (b ++ DQUOTE :: rest) i true false count
  = object_end rest (i + Z.of_nat (length b) + 1) false false count.
Proof.
  intros b rest i count H. revert i.
  induction H as [|c b H1 H2 H3 Hb IH|c b Hb IH]; intros i; cbn [app object_end length].
  - cbn [N.eqb Pos.eqb negb]. f_equal. lia.
  - apply N.eqb_neq in H2, H3. rewrite H2, H3. cbn [negb]. rewrite IH. f_equal. lia.
  - cbn [N.eqb Pos.eqb]. rewrite IH. f_equal. lia.
Qed.

Lemma object_end_string : forall s rest i count,
  object_end (dumps_string s ++ rest) i false false count
  = object_end rest (i + Z.of_nat (length (dumps_string s))) false false count.
Proof.
  intros s rest i count. unfold dumps_string.
  cbn [app object_end N.eqb Pos.eqb negb length].
  rewrite <- app_assoc. cbn [app]. rewrite object_end_body by apply dumps_body.
  f_equal. rewrite length_app. cbn [length]. lia.
Qed.

Lemma take_app_length : forall (a b : text),
  take (Z.of_nat (length a)) (a ++ b) = a.
Proof.
  intros a b. unfold take. rewrite Nat2Z.id.
  rewrite firstn_app, Nat.sub_diag, firstn_all. cbn. apply app_nil_r.
Qed.

Lemma drop_app_length : forall (a b : text),
  drop (Z.of_nat (length a)) (a ++ b) = b.
Proof.
  intros a b. unfold drop. rewrite Nat2Z.id.
  rewrite skipn_app, Nat.sub_diag, skipn_all. reflexivity.
Qed.

Lemma startswith_app : forall p rest, startswith p (p ++ rest) = true.
Proof.
  induction p as [|c p IH]; intros rest; [reflexivity|].
  cbn [app startswith]. now rewrite N.eqb_refl, IH.
Qed.

Lemma find_from_here : forall p s i, startswith p s = true -> find_from p s i = i.
Proof. intros p [|c s] i H; cbn [find_from]; now rewrite H. Qed.

(** [find] walks over the characters that differ from the first one of
    the pattern. *)
Lemma find_from_skips : forall c p pre rest i,
  (forall x, In x pre -> (c =? x) = false) ->
  find_from (c :: p) (pre ++ (c :: p) ++ rest) i = (i + Z.of_nat (length pre))%Z.
Proof.
  intros c p pre rest. induction pre as [|a pre IH]; intros i H.
  - change ([] ++ (c :: p) ++ rest) with ((c :: p) ++ rest).
    rewrite find_from_here by apply startswith_app. cbn [length]. lia.
  - cbn [app find_from startswith]. rewrite (H a) by now left.
    cbn [andb]. rewrite IH by (intros x Hx; apply H; now right).
    cbn [length]. lia.
Qed.

(** ** Repairs that find nothing to repair *)

Lemma strip_fixed : forall c s d,
  isspace c = false -> isspace d = false -> strip (c :: s ++ [d]) = c :: s ++ [d].
Proof.
  intros c s d Hc Hd. unfold strip. cbn [lstrip]. rewrite Hc.
  cbn [rev]. rewrite rev_app_distr. cbn [rev app lstrip]. rewrite Hd.
  cbn [rev]. rewrite rev_app_distr, rev_involutive. reflexivity.
Qed.

Lemma re_sub_no_match : forall m s, matches_in m s = false -> re_sub m s = s.
Proof.
  intros m s. unfold re_sub. induction s as [|c s IH]; intros H; [reflexivity|].
  cbn [matches_in] in H. apply orb_false_iff in H as [H1 H2].
  cbn [re_sub_from]. destruct (m (c :: s)); [discriminate H1|]. now rewrite IH.
Qed.

Lemma skipn_head_in : forall (n : nat) (r : text) d x, skipn n r = d :: x -> In d r.
Proof.
  intros n r d x H. rewrite <- (firstn_skipn n r), H. apply in_or_app. right. now left.
Qed.

Lemma no_closer_in : forall s d, existsb is_closer s = false -> In d s -> is_closer d = false.
Proof.
  intros s d H Hin. destruct (is_closer d) eqn:E; [|reflexivity].
  assert (existsb is_closer s = true) by (apply existsb_exists; eauto). congruence.
Qed.

Lemma no_closer_tail : forall c s, existsb is_closer (c :: s) = false -> existsb is_closer s = false.
Proof. intros c s H. cbn in H. now apply orb_false_iff in H. Qed.

Lemma trailing_comma_needs_closer : forall s,
  existsb is_closer s = false -> matches_in trailing_comma s = false.
Proof.
  induction s as [|c s IH]; intros H; [reflexivity|].
  cbn [matches_in]. rewrite IH by now apply no_closer_tail with c.
  rewrite orb_false_r. unfold trailing_comma.
  destruct (c =? 44); [|reflexivity].
  destruct (skipn (length (spaces s)) s) as [|d x] eqn:E; [reflexivity|].
  apply skipn_head_in in E.
  rewrite (no_closer_in (c :: s) d H) by now right. reflexivity.
Qed.

Lemma quote_closer_needs_closer : forall closer s,
  is_closer closer = true ->
  existsb is_closer s = false -> matches_in (quote_closer_quote closer) s = false.
Proof.
  intros closer s Hc. induction s as [|c s IH]; intros H; [reflexivity|].
  cbn [matches_in]. rewrite IH by now apply no_closer_tail with c.
  rewrite orb_false_r. unfold quote_closer_quote.
  destruct (c =? 34); [|reflexivity].
  destruct (skipn (length (spaces s)) s) as [|d x] eqn:E; [reflexivity|].
  apply skipn_head_in in E.
  destruct (d =? closer) eqn:Ed; [|reflexivity].
  apply N.eqb_eq in Ed. subst d.
  rewrite (no_closer_in (c :: s) closer H) in Hc by now right. discriminate Hc.
Qed.

Lemma comments_need_opener : forall s prev,
  no_comment_opener prev s = true ->
  matches_in line_comment s = false /\ matches_in block_comment s = false.
Proof.
  induction s as [|a s IH]; intros prev H; [now split|].
  cbn [no_comment_opener] in H. apply andb_true_iff in H as [_ H].
  destruct (IH _ H) as [IH1 IH2]. cbn [matches_in]. rewrite IH1, IH2, !orb_false_r.
  destruct s as [|b r]; [now split|].
  cbn [no_comment_opener] in H. apply andb_true_iff in H as [H _].
  apply negb_true_iff in H. unfold line_comment, block_comment.
  destruct (a =? 47); [|now split]. cbn [andb] in *.
  apply orb_false_iff in H as [-> ->]. now split.
Qed.

(** The common-defect fixer leaves alone a text without closers and
    comment openers that has no white space at its ends. *)
Lemma fix_json_common_issues_plain : forall c s d,
  isspace c = false -> isspace d = false ->
  existsb is_closer (c :: s ++ [d]) = false ->
  no_comment_opener false (c :: s ++ [d]) = true ->
  fix_json_common_issues (c :: s ++ [d]) = c :: s ++ [d].
Proof.
  intros c s d Hc Hd H1 H2. unfold fix_json_common_issues.
  destruct (comments_need_opener _ _ H2) as [H3 H4].
  rewrite (re_sub_no_match trailing_comma) by now apply trailing_comma_needs_closer.
  rewrite (re_sub_no_match line_comment) by exact H3.
  rewrite (re_sub_no_match block_comment) by exact H4.
  rewrite (re_sub_no_match (quote_closer_quote RBRACE))
    by (apply quote_closer_needs_closer; [reflexivity|exact H1]).
  rewrite (re_sub_no_match (quote_closer_quote RBRACK))
    by (apply quote_closer_needs_closer; [reflexivity|exact H1]).
  now apply strip_fixed.
Qed.

Lemma rfind_char_absent : forall c s i last,
  existsb (N.eqb c) s = false -> rfind_char_from c s i last = last.
Proof.
  intros c. induction s as [|x s IH]; intros i last H; [reflexivity|].
  cbn in H. apply orb_false_iff in H as [H1 H2].
  cbn [rfind_char_from]. rewrite N.eqb_sym, H1. now apply IH.
Qed.

Lemma rfind_char_last : forall c s i last,
  rfind_char_from c (s ++ [c]) i last = (i + Z.of_nat (length s))%Z.
Proof.
  intros c. induction s as [|x s IH]; intros i last.
  - cbn. rewrite N.eqb_refl. lia.
  - cbn [app rfind_char_from length]. rewrite IH. lia.
Qed.

Lemma no_closer_no_brace : forall s,
  existsb is_closer s = false -> existsb (N.eqb RBRACE) s = false.
Proof.
  induction s as [|x s IH]; intros H; [reflexivity|].
  cbn [existsb] in *. apply orb_false_iff in H as [H1 H2].
  rewrite (IH H2), orb_false_r. unfold is_closer in H1.
  apply orb_false_iff in H1 as [H1 _]. now rewrite N.eqb_sym.
Qed.

(** ** Plain strings *)

Lemma hex_digit_ordinary : forall n, n < 16 ->
  is_closer (hex_digit n) = false
  /\ (hex_digit n =? SLASH) = false /\ (hex_digit n =? STAR) = false.
Proof.
  intros n H. unfold is_closer.
  destruct (hex_digit_range n H) as [[? ?]|[? ?]]; repeat split;
    try (apply orb_false_iff; split); apply N.eqb_neq; lia.
Qed.

Lemma escape_char_no_closer : forall c,
  is_closer c = false -> existsb is_closer (escape_char c) = false.
Proof.
  intros c H. destruct (escape_char_shape c) as [H1 H2 H3|x Hx Hb|h l Hc Hh Hl Heq].
  - cbn. now rewrite H.
  - cbn in Hx. decompose [or] Hx; try contradiction; subst x; reflexivity.
  - cbn [existsb]. destruct (hex_digit_ordinary h Hh) as (-> & _).
    destruct (hex_digit_ordinary l Hl) as (-> & _). reflexivity.
Qed.

Lemma flat_map_no_closer : forall s,
  existsb is_closer s = false -> existsb is_closer (flat_map escape_char s) = false.
Proof.
  induction s as [|c s IH]; intros H; [reflexivity|].
  cbn [existsb flat_map] in *. apply orb_false_iff in H as [H1 H2].
  now rewrite existsb_app, escape_char_no_closer, IH.
Qed.

Lemma dumps_string_no_closer : forall s,
  existsb is_closer s = false -> existsb is_closer (dumps_string s) = false.
Proof.
  intros s H. unfold dumps_string. cbn [existsb].
  rewrite existsb_app, flat_map_no_closer by exact H. reflexivity.
Qed.

Lemma plain_entries_cons : forall kv F,
  plain_entries (kv :: F) = true ->
  (existsb is_closer (fst kv) = false /\ no_comment_opener false (fst kv) = true)
  /\ (existsb is_closer (snd kv) = false /\ no_comment_opener false (snd kv) = true)
  /\ plain_entries F = true.
Proof.
  intros kv F H. cbn [plain_entries forallb] in H.
  apply andb_true_iff in H as [H HF]. apply andb_true_iff in H as [Hk Hv].
  unfold plain in Hk, Hv.
  apply andb_true_iff in Hk as [Hk1 Hk2]. apply andb_true_iff in Hv as [Hv1 Hv2].
  apply negb_true_iff in Hk1, Hv1. auto.
Qed.

Lemma escape_char_no_opener : forall c prev rest,
  negb (prev && ((c =? SLASH) || (c =? STAR))) = true ->
  no_comment_opener prev (escape_char c ++ rest) = no_comment_opener (c =? SLASH) rest.
Proof.
  intros c prev rest H.
  destruct (escape_char_shape c) as [H1 H2 H3|x Hx Hb|h l Hc Hh Hl Heq].
  - cbn [app no_comment_opener]. now rewrite H.
  - cbn in Hx. decompose [or] Hx; try contradiction; subst x;
      cbn in Hb; injection Hb as <-; cbn; now rewrite andb_false_r.
  - cbn [app no_comment_opener].
    destruct (hex_digit_ordinary h Hh) as (_ & Hh1 & Hh2).
    destruct (hex_digit_ordinary l Hl) as (_ & Hl1 & Hl2).
    rewrite Hh1, Hh2, Hl1, Hl2. cbn [N.eqb Pos.eqb orb andb negb].
    rewrite andb_false_r. cbn [negb andb].
    replace (c =? 47) with false by (symmetry; apply N.eqb_neq; lia). reflexivity.
Qed.

Lemma flat_map_no_opener : forall s prev rest,
  no_comment_opener prev s = true ->
  no_comment_opener prev (flat_map escape_char s ++ DQUOTE :: rest)
  = no_comment_opener false rest.
Proof.
  induction s as [|c s IH]; intros prev rest H.
  - cbn. now rewrite andb_false_r.
  - cbn [no_comment_opener] in H. apply andb_true_iff in H as [H1 H2].
    cbn [flat_map]. rewrite <- app_assoc.
    rewrite escape_char_no_opener by exact H1. now apply IH.
Qed.

Lemma dumps_string_no_opener : forall s rest,
  no_comment_opener false s = true ->
  no_comment_opener false (dumps_string s ++ rest) = no_comment_opener false rest.
Proof.
  intros s rest H. unfold dumps_string. cbn [app no_comment_opener andb negb N.eqb Pos.eqb].
  rewrite <- app_assoc. cbn [app]. now apply flat_map_no_opener.
Qed.

(** ** The repairs before the first parse *)

Lemma no_fences : forall s d,
  (d =? BACKQUOTE) = false ->
  startswith (txt "```json") (LBRACE :: s ++ [d]) = false
  /\ startswith (txt "```") (LBRACE :: s ++ [d]) = false
  /\ endswith (txt "```") (LBRACE :: s ++ [d]) = false.
Proof.
  intros s d Hd. split; [reflexivity|]. split; [reflexivity|].
  unfold endswith. cbn [rev]. rewrite rev_app_distr. cbn [rev app].
  change (rev (txt "```")) with [BACKQUOTE; BACKQUOTE; BACKQUOTE].
  cbn [startswith]. now rewrite N.eqb_sym, Hd.
Qed.

(** A text from an opening brace to a character that is no white space
    and no backquote, without closers: only the control characters could
    change. *)
Lemma prepare_open : forall s d,
  isspace d = false -> (d =? BACKQUOTE) = false ->
  existsb is_closer (LBRACE :: s ++ [d]) = false ->
  prepare (LBRACE :: s ++ [d]) = fix_unescaped_control_chars (LBRACE :: s ++ [d]).
Proof.
  intros s d Hs Hd Hc. unfold prepare. cbv zeta.
  rewrite strip_fixed by (reflexivity || assumption).
  destruct (no_fences s d Hd) as (-> & -> & ->).
  change (find [LBRACE] (LBRACE :: s ++ [d])) with 0%Z.
  unfold rfind_char. rewrite rfind_char_absent by now apply no_closer_no_brace.
  change (negb (0 =? -1)%Z && (0 <? -1 + 1)%Z) with false. cbv iota.
  rewrite strip_fixed by (reflexivity || assumption).
  rewrite re_sub_no_match by now apply trailing_comma_needs_closer.
  reflexivity.
Qed.

(** A text from an opening brace to a closing brace with no comma before
    a closer: only the control characters could change. *)
Lemma prepare_closed : forall s,
  matches_in trailing_comma (LBRACE :: s ++ [RBRACE]) = false ->
  prepare (LBRACE :: s ++ [RBRACE]) = fix_unescaped_control_chars (LBRACE :: s ++ [RBRACE]).
Proof.
  intros s Hm. unfold prepare. cbv zeta.
  rewrite strip_fixed by reflexivity.
  destruct (no_fences s RBRACE eq_refl) as (-> & -> & ->).
  change (find [LBRACE] (LBRACE :: s ++ [RBRACE])) with 0%Z.
  unfold rfind_char. change (LBRACE :: s ++ [RBRACE]) with ((LBRACE :: s) ++ [RBRACE]).
  rewrite rfind_char_last.
  replace (negb (0 =? -1)%Z && (0 <? 0 + Z.of_nat (length (LBRACE :: s)) + 1)%Z) with true
    by (symmetry; apply andb_true_iff; split; [reflexivity|apply Z.ltb_lt; lia]).
  replace (0 + Z.of_nat (length (LBRACE :: s)) + 1)%Z
    with (Z.of_nat (length ((LBRACE :: s) ++ [RBRACE])))
    by (rewrite length_app; cbn [length]; lia).
  unfold slice, drop. cbn [Z.to_nat skipn].
  rewrite <- (app_nil_r ((LBRACE :: s) ++ [RBRACE])) at 2.
  rewrite take_app_length.
  change ((LBRACE :: s) ++ [RBRACE]) with (LBRACE :: s ++ [RBRACE]).
  rewrite strip_fixed by reflexivity.
  rewrite re_sub_no_match by exact Hm. reflexivity.
Qed.

(** ** Commas before closers *)

Lemma trailing_comma_follows : forall c r,
  (match trailing_comma (c :: r) with Some _ => true | None => false end)
  = (c =? COMMA) && closer_follows r.
Proof.
  intros c r. unfold trailing_comma, closer_follows.
  destruct (c =? 44); [|reflexivity]. cbn [andb].
  destruct (skipn (length (spaces r)) r) as [|d x]; [reflexivity|].
  destruct (is_closer d); reflexivity.
Qed.

Lemma matches_in_trailing_comma : forall c r,
  matches_in trailing_comma (c :: r)
  = ((c =? COMMA) && closer_follows r) || matches_in trailing_comma r.
Proof. intros c r. cbn [matches_in]. now rewrite trailing_comma_follows. Qed.

Lemma closer_follows_space : forall d r,
  isspace d = true -> closer_follows (d :: r) = closer_follows r.
Proof. intros d r H. unfold closer_follows. cbn [spaces]. now rewrite H. Qed.

Lemma closer_follows_other : forall d r,
  isspace d = false -> closer_follows (d :: r) = is_closer d.
Proof. intros d r H. unfold closer_follows. cbn [spaces]. now rewrite H. Qed.

Lemma escape_char_head : forall c rest,
  (escape_char c ++ rest = c :: rest /\ 32 <= c)
  \/ (exists y, escape_char c ++ rest = BSLASH :: y).
Proof.
  intros c rest. destruct (escape_char_shape c); [left; now split| |];
    right; eexists; reflexivity.
Qed.

(** A closer that follows in the escaped text follows in the text itself. *)
Lemma closer_follows_body : forall s rest,
  closer_follows (flat_map escape_char s ++ DQUOTE :: rest) = true ->
  closer_follows s = true.
Proof.
  induction s as [|d s IH]; intros rest H; [discriminate H|].
  cbn [flat_map] in H. rewrite <- app_assoc in H.
  destruct (escape_char_head d (flat_map escape_char s ++ DQUOTE :: rest))
    as [[E _]|[y E]]; rewrite E in H.
  - destruct (isspace d) eqn:Hs.
    + rewrite closer_follows_space in * by exact Hs. eauto.
    + rewrite closer_follows_other in * by exact Hs. exact H.
  - discriminate H.
Qed.

Lemma escape_char_commas : forall c rest,
  matches_in trailing_comma (escape_char c ++ rest)
  = ((c =? COMMA) && closer_follows rest) || matches_in trailing_comma rest.
Proof.
  intros c rest. destruct (escape_char_shape c) as [H1 H2 H3|x Hx Hb|h l Hc Hh Hl Heq].
  - apply matches_in_trailing_comma.
  - cbn in Hx. decompose [or] Hx; try contradiction; subst x;
      cbn in Hb; injection Hb as <-; reflexivity.
  - cbn [app]. rewrite !matches_in_trailing_comma.
    replace (c =? 44) with false by (symmetry; apply N.eqb_neq; lia).
    replace (hex_digit h =? 44) with false
      by (symmetry; apply N.eqb_neq; destruct (hex_digit_range h Hh); lia).
    replace (hex_digit l =? 44) with false
      by (symmetry; apply N.eqb_neq; destruct (hex_digit_range l Hl); lia).
    reflexivity.
Qed.

Lemma flat_map_commas : forall s rest,
  matches_in trailing_comma s = false ->
  matches_in trailing_comma (flat_map escape_char s ++ DQUOTE :: rest)
  = matches_in trailing_comma rest.
Proof.
  induction s as [|c s IH]; intros rest H; [reflexivity|].
  rewrite matches_in_trailing_comma in H. apply orb_false_iff in H as [H1 H2].
  cbn [flat_map]. rewrite <- app_assoc, escape_char_commas, IH by exact H2.
  destruct (c =? 44); [|reflexivity]. cbn [andb] in *.
  destruct (closer_follows (flat_map escape_char s ++ DQUOTE :: rest)) eqn:E;
    [|reflexivity].
  apply closer_follows_body in E. congruence.
Qed.

Lemma dumps_string_commas : forall s rest,
  matches_in trailing_comma s = false ->
  matches_in trailing_comma (dumps_string s ++ rest) = matches_in trailing_comma rest.
Proof.
  intros s rest H. unfold dumps_string. rewrite <- app_comm_cons, <- app_assoc.
  rewrite matches_in_trailing_comma. cbn [N.eqb Pos.eqb andb orb app].
  now apply flat_map_commas.
Qed.

Lemma comma_safe_cons : forall kv F,
  comma_safe_entries (kv :: F) = true ->
  matches_in trailing_comma (fst kv) = false
  /\ matches_in trailing_comma (snd kv) = false /\ comma_safe_entries F = true.
Proof.
  intros kv F H. cbn [comma_safe_entries forallb] in H.
  apply andb_true_iff in H as [H HF]. apply andb_true_iff in H as [Hk Hv].
  apply negb_true_iff in Hk, Hv. auto.
Qed.

(** ** Commas before closers in the written strings *)




(** A text the comma remover leaves alone is written as a string it
    leaves alone. *)
Lemma comma_safe_entries_dumped : forall F,
  comma_safe_entries F = true -> comma_safe_dumped F = true.
Proof.
  induction F as [|kv F IH]; intros H; [reflexivity|].
  apply comma_safe_cons in H as (Hk & Hv & HF).
  cbn [comma_safe_dumped forallb].
  rewrite <- (app_nil_r (dumps_string (fst kv))), <- (app_nil_r (dumps_string (snd kv))).
  rewrite !dumps_string_commas by assumption. cbn [matches_in negb andb].
  now apply IH.
Qed.

(** ** White space between the tokens *)

Lemma blank_cons : forall c w,
  blank (c :: w) = true -> is_json_ws c = true /\ blank w = true.
Proof. intros c w H. now apply andb_true_iff in H. Qed.

Lemma json_ws_cases : forall c,
  is_json_ws c = true -> c = SPACE \/ c = TAB \/ c = NL \/ c = CR.
Proof.
  intros c H. unfold is_json_ws in H. rewrite !orb_true_iff, !N.eqb_eq in H. tauto.
Qed.

Lemma blank_in : forall w x, blank w = true -> In x w -> is_json_ws x = true.
Proof. intros w x H. now apply forallb_forall. Qed.

Lemma blank_app : forall a b, blank a = true -> blank b = true -> blank (a ++ b) = true.
Proof. intros a b Ha Hb. unfold blank in *. now rewrite forallb_app, Ha, Hb. Qed.

(** Each blank character, in turn. *)
Ltac blank_step H :=
  let H1 := fresh in let H2 := fresh in
  apply blank_cons in H as [H1 H2];
  destruct (json_ws_cases _ H1) as [ -> | [ -> | [ -> | -> ] ] ].

Lemma skip_ws_blank : forall w s, blank w = true -> skip_ws (w ++ s) = skip_ws s.
Proof.
  induction w as [|c w IH]; intros s H; [reflexivity|].
  apply blank_cons in H as [H1 H2]. cbn [app skip_ws]. rewrite H1. now apply IH.
Qed.

Lemma fix_loop_blank : forall w s,
  blank w = true -> fix_loop false false (w ++ s) = w ++ fix_loop false false s.
Proof.
  induction w as [|c w IH]; intros s H; [reflexivity|].
  blank_step H; cbn [app fix_loop N.eqb Pos.eqb]; now rewrite IH.
Qed.

Lemma truncate_blank : forall text0 w s i last depth,
  blank w = true ->
  truncate_loop text0 (w ++ s) i last false false depth
  = truncate_loop text0 s (i + Z.of_nat (length w)) last false false depth.
Proof.
  intros text0. induction w as [|c w IH]; intros s i last depth H.
  - cbn [app length]. f_equal. cbn. lia.
  - blank_step H; cbn [app truncate_loop N.eqb Pos.eqb negb];
      rewrite IH by assumption; f_equal; cbn [length]; lia.
Qed.

Lemma object_end_blank : forall w s i count,
  blank w = true ->
  object_end (w ++ s) i false false count
  = object_end s (i + Z.of_nat (length w)) false false count.
Proof.
  induction w as [|c w IH]; intros s i count H.
  - cbn [app length]. f_equal. cbn. lia.
  - blank_step H; cbn [app object_end N.eqb Pos.eqb negb];
      rewrite IH by assumption; f_equal; cbn [length]; lia.
Qed.

Lemma blank_no_closer : forall w, blank w = true -> existsb is_closer w = false.
Proof.
  induction w as [|c w IH]; intros H; [reflexivity|].
  blank_step H; cbn [existsb]; rewrite IH by assumption; reflexivity.
Qed.

Lemma blank_no_opener : forall w s,
  blank w = true -> no_comment_opener false (w ++ s) = no_comment_opener false s.
Proof.
  induction w as [|c w IH]; intros s H; [reflexivity|].
  blank_step H; cbn [app no_comment_opener andb negb N.eqb Pos.eqb]; now apply IH.
Qed.

Lemma blank_isspace : forall c, is_json_ws c = true -> isspace c = true.
Proof. intros c H. destruct (json_ws_cases c H) as [ -> | [ -> | [ -> | -> ] ] ]; reflexivity. Qed.

Lemma closer_follows_blank : forall w s,
  blank w = true -> closer_follows (w ++ s) = closer_follows s.
Proof.
  induction w as [|c w IH]; intros s H; [reflexivity|].
  apply blank_cons in H as [H1 H2]. cbn [app].
  rewrite closer_follows_space by now apply blank_isspace. now apply IH.
Qed.

Lemma blank_commas : forall w s,
  blank w = true -> matches_in trailing_comma (w ++ s) = matches_in trailing_comma s.
Proof.
  induction w as [|c w IH]; intros s H; [reflexivity|].
  blank_step H; cbn [app]; rewrite matches_in_trailing_comma;
    cbn [N.eqb Pos.eqb andb orb]; now apply IH.
Qed.

Lemma blank_no_quote : forall w x, blank w = true -> In x w -> (DQUOTE =? x) = false.
Proof.
  intros w x H Hx. destruct (json_ws_cases x (blank_in w x H Hx)) as [ -> | [ -> | [ -> | -> ] ] ];
    reflexivity.
Qed.

Lemma blank_no_brace : forall w x, blank w = true -> In x w -> (LBRACE =? x) = false.
Proof.
  intros w x H Hx. destruct (json_ws_cases x (blank_in w x H Hx)) as [ -> | [ -> | [ -> | -> ] ] ];
    reflexivity.
Qed.

(** ** Decoding a compliant document *)

Lemma has_key_string_entries : forall k F,
  has_key k (string_entries F) = has_key k F.
Proof.
  intros k F. unfold has_key, string_entries.
  induction F as [|kv F IH]; [reflexivity|]. cbn. now rewrite IH.
Qed.

Lemma scan_once_object : forall fuel r c1 r1,
  skip_ws r = c1 :: r1 -> (c1 =? RBRACE) = false ->
  scan_once (S fuel) (LBRACE :: r) = parse_pairs fuel [] (c1 :: r1).
Proof.
  intros fuel r c1 r1 H1 H2.
  change (scan_once (S fuel) (LBRACE :: r))
    with (match skip_ws r with
          | c1 :: r1 =>
            if c1 =? RBRACE then Scanned (JObj []) r1
            else parse_pairs fuel [] (c1 :: r1)
          | [] => DecodeError
          end).
  now rewrite H1, H2.
Qed.

Lemma parse_pairs_key : forall fuel acc r key r2,
  scanstring r = Some (key, COLON :: r2) ->
  parse_pairs (S fuel) acc (DQUOTE :: r)
  = match scan_once fuel (skip_ws r2) with
    | Scanned val s3 => after_entries fuel (dict_set text_eqb key val acc) s3
    | failure => failure
    end.
Proof.
  intros fuel acc r key r2 H.
  change (parse_pairs (S fuel) acc (DQUOTE :: r))
    with (match scanstring r with
          | None => DecodeError
          | Some (key, s1) =>
            match skip_ws s1 with
            | [] => DecodeError
            | c2 :: r2 =>
              if c2 =? COLON then
                match scan_once fuel (skip_ws r2) with
                | Scanned val s3 =>
                  let acc' := dict_set text_eqb key val acc in
                  match skip_ws s3 with
                  | [] => DecodeError
                  | c4 :: r4 =>
                    if c4 =? RBRACE then Scanned (JObj acc') r4
                    else if c4 =? COMMA then parse_pairs fuel acc' (skip_ws r4)
                    else DecodeError
                  end
                | failure => failure
                end
              else DecodeError
            end
          end).
  rewrite H. reflexivity.
Qed.

Lemma scan_once_string : forall fuel s t,
  scan_once (S fuel) (dumps_string s ++ t) = Scanned (JStr s) t.
Proof.
  intros fuel s t. unfold dumps_string. rewrite <- app_comm_cons, <- app_assoc.
  change (scan_once (S fuel) (DQUOTE :: flat_map escape_char s ++ [DQUOTE] ++ t))
    with (match scanstring (flat_map escape_char s ++ DQUOTE :: t) with
          | Some (str, rest) => Scanned (JStr str) rest
          | None => DecodeError
          end).
  now rewrite scanstring_dumps.
Qed.

Lemma skip_ws_string : forall w s rest,
  blank w = true ->
  skip_ws (w ++ dumps_string s ++ rest)
  = DQUOTE :: flat_map escape_char s ++ DQUOTE :: rest.
Proof.
  intros w s rest H. rewrite skip_ws_blank by exact H.
  unfold dumps_string. rewrite <- app_comm_cons, <- app_assoc. reflexivity.
Qed.

Lemma distinct_keys_app : forall {V : Type} (a b : list (text * V)),
  distinct_keys (a ++ b) = true -> distinct_keys a = true.
Proof.
  intros V. induction a as [|[k v] a IH]; intros b H; [reflexivity|].
  cbn [app distinct_keys] in *. apply andb_true_iff in H as [H1 H2].
  rewrite (IH b H2), andb_true_r. apply negb_true_iff in H1. apply negb_true_iff.
  rewrite existsb_app in H1. now apply orb_false_iff in H1.
Qed.

Lemma distinct_keys_firstn : forall {V : Type} (n : nat) (d : list (text * V)),
  distinct_keys d = true -> distinct_keys (firstn n d) = true.
Proof.
  intros V n d H. rewrite <- (firstn_skipn n d) in H. now apply distinct_keys_app in H.
Qed.

Lemma distinct_string_entries : forall F,
  distinct_keys (string_entries F) = distinct_keys F.
Proof.
  induction F as [|[k v] F IH]; [reflexivity|].
  cbn [string_entries map distinct_keys fst snd]. fold (string_entries F).
  rewrite IH. f_equal. f_equal. apply (has_key_string_entries k F).
Qed.

Lemma truthy_entries : forall F, F <> [] -> truthy (JObj (string_entries F)) = true.
Proof. intros [|kv F] H; [contradiction|reflexivity]. Qed.

(** Concatenations as one list, from left to right. *)
Ltac flatten := repeat first [rewrite <- app_assoc | progress cbn [app]].

Section Layout.
Variable L : layout.
Hypothesis spaced : well_spaced L = true.

Lemma spaced_fields :
  blank (after_open L) = true /\ blank (after_files_colon L) = true
  /\ blank (after_files_open L) = true /\ blank (after_colon L) = true
  /\ blank (after_comma L) = true /\ blank (before_files_close L) = true
  /\ blank (before_close L) = true.
Proof.
  pose proof spaced as H. unfold well_spaced in H. rewrite !andb_true_iff in H. tauto.
Qed.

Lemma blank_after_open : blank (after_open L) = true.
Proof. apply spaced_fields. Qed.

Lemma blank_after_files_colon : blank (after_files_colon L) = true.
Proof. apply spaced_fields. Qed.

Lemma blank_after_files_open : blank (after_files_open L) = true.
Proof. apply spaced_fields. Qed.

Lemma blank_after_colon : blank (after_colon L) = true.
Proof. apply spaced_fields. Qed.

Lemma blank_after_comma : blank (after_comma L) = true.
Proof. apply spaced_fields. Qed.

Lemma blank_before_files_close : blank (before_files_close L) = true.
Proof. apply spaced_fields. Qed.

Lemma blank_before_close : blank (before_close L) = true.
Proof. apply spaced_fields. Qed.

(** The head of the document, token by token. *)
Lemma files_head_shape : forall s,
  files_head L ++ s
  = LBRACE :: after_open L ++ dumps_string (txt "files")
           ++ COLON :: after_files_colon L ++ LBRACE :: after_files_open L ++ s.
Proof.
  intros s. unfold files_head, files_open.
  flatten. reflexivity.
Qed.

Lemma files_head_brace : files_head L = LBRACE :: tl (files_head L).
Proof. reflexivity. Qed.

Lemma dumps_entries_cons : forall kv F,
  F <> [] ->
  dumps_entries L (kv :: F)
  = dumps_entry L kv ++ (COMMA :: after_comma L) ++ dumps_entries L F.
Proof. intros kv [|kv' F] H; [contradiction|reflexivity]. Qed.

Lemma dumps_entries_head : forall F, F <> [] ->
  exists r, dumps_entries L F = DQUOTE :: r.
Proof.
  intros [|kv [|kv' F]] H; [contradiction| |]; eexists; reflexivity.
Qed.

Lemma skip_ws_entries : forall F t, F <> [] ->
  skip_ws (dumps_entries L F ++ t) = dumps_entries L F ++ t.
Proof.
  intros F t H. destruct (dumps_entries_head F H) as [r ->]. reflexivity.
Qed.

Lemma parse_pairs_entry : forall fuel acc kv t,
  has_key (fst kv) acc = false ->
  parse_pairs (S (S fuel)) acc (dumps_entry L kv ++ t)
  = after_entries (S fuel) (acc ++ [(fst kv, JStr (snd kv))]) t.
Proof.
  intros fuel acc [k v] t Hk. unfold dumps_entry. cbn [fst snd].
  unfold dumps_string at 1. flatten.
  rewrite (parse_pairs_key _ _ _ k (after_colon L ++ dumps_string v ++ t))
    by apply scanstring_dumps.
  rewrite skip_ws_string by apply blank_after_colon.
  change (DQUOTE :: flat_map escape_char v ++ DQUOTE :: t)
    with (DQUOTE :: flat_map escape_char v ++ [DQUOTE] ++ t).
  rewrite app_assoc, app_comm_cons. fold (dumps_string v).
  rewrite scan_once_string.
  rewrite dict_set_fresh by exact Hk. reflexivity.
Qed.

Lemma parse_pairs_entries : forall F fuel acc t,
  F <> [] -> distinct_keys F = true ->
  (forall kv, In kv F -> has_key (fst kv) acc = false) ->
  parse_pairs (S (length F + fuel)) acc (dumps_entries L F ++ t)
  = after_entries (S fuel) (acc ++ string_entries F) t.
Proof.
  induction F as [|kv F IH]; intros fuel acc t Hne Hd Hacc; [contradiction|].
  cbn in Hd. destruct kv as [k v]. apply andb_true_iff in Hd as [Hk Hd].
  apply negb_true_iff in Hk.
  destruct F as [|kv' F].
  - cbn [dumps_entries map join length Nat.add].
    rewrite parse_pairs_entry by (apply (Hacc (k, v)); now left). reflexivity.
  - rewrite dumps_entries_cons by discriminate.
    rewrite <- !app_assoc.
    change (length ((k, v) :: kv' :: F) + fuel)%nat
      with (S (length (kv' :: F) + fuel)).
    rewrite parse_pairs_entry by (apply (Hacc (k, v)); now left).
    unfold after_entries at 1. cbn [app skip_ws is_json_ws N.eqb Pos.eqb orb].
    rewrite skip_ws_blank by apply blank_after_comma.
    rewrite skip_ws_entries by discriminate.
    rewrite IH; [|discriminate|exact Hd|].
    + cbn [string_entries map fst snd]. now rewrite <- app_assoc.
    + intros kv Hin. rewrite has_key_app.
      rewrite (Hacc kv) by now right. cbn [has_key existsb fst orb].
      rewrite orb_false_r. rewrite text_eqb_sym.
      destruct (text_eqb k (fst kv)) eqn:E; [|reflexivity].
      assert (has_key k (kv' :: F) = true) by (apply existsb_exists; now exists kv).
      unfold has_key in H. congruence.
Qed.

Lemma dumps_entries_length : forall F, (length F <= length (dumps_entries L F))%nat.
Proof.
  induction F as [|kv F IH]; [apply le_n|].
  assert (1 <= length (dumps_entry L kv))%nat as H1
      by (unfold dumps_entry, dumps_string; cbn [app length]; lia).
  destruct F as [|kv' F].
  - exact H1.
  - rewrite dumps_entries_cons by discriminate.
    rewrite !length_app.
    change (length (kv :: kv' :: F)) with (S (length (kv' :: F))).
    apply Nat.le_trans with (1 + length (dumps_entries L (kv' :: F)))%nat.
    + apply le_n_S, IH.
    + apply Nat.add_le_mono; [exact H1|apply Nat.le_add_l].
Qed.

(** The scan of a document of [F], whatever follows its entries. *)
Lemma scan_document : forall F fuel t,
  F <> [] -> distinct_keys F = true ->
  scan_once (S (S (S (S (length F + fuel))))) (files_head L ++ dumps_entries L F ++ t)
  = match after_entries (S fuel) (string_entries F) t with
    | Scanned val s3 =>
      after_entries (S (S (length F + fuel))) [(txt "files", val)] s3
    | failure => failure
    end.
Proof.
  intros F fuel t Hne Hd. rewrite files_head_shape.
  rewrite (scan_once_object _ _ _ _ (skip_ws_string _ _ _ blank_after_open) eq_refl).
  rewrite (parse_pairs_key _ _ _ (txt "files")
             (after_files_colon L ++ LBRACE :: after_files_open L ++ dumps_entries L F ++ t))
    by apply scanstring_dumps.
  rewrite skip_ws_blank by apply blank_after_files_colon.
  cbn [skip_ws is_json_ws N.eqb Pos.eqb orb].
  destruct (dumps_entries_head F Hne) as [r Hr].
  assert (scan_once (S (S (length F + fuel)))
                    (LBRACE :: after_files_open L ++ dumps_entries L F ++ t)
          = parse_pairs (S (length F + fuel)) [] (dumps_entries L F ++ t)) as ->.
  { rewrite Hr. cbn [app]. apply scan_once_object; [|reflexivity].
    now rewrite skip_ws_blank by apply blank_after_files_open. }
  rewrite (parse_pairs_entries F fuel [] t Hne Hd) by reflexivity.
  cbn [app]. destruct (after_entries (S fuel) (string_entries F) t); reflexivity.
Qed.

Lemma files_head_length : (2 <= length (files_head L))%nat.
Proof.
  unfold files_head, files_open. cbn [app length]. rewrite !length_app.
  cbn [length]. rewrite !length_app. cbn [length]. lia.
Qed.

(** The budget of [json_loads] covers the document. *)
Lemma document_fuel : forall F t,
  exists fuel,
    S (2 * length (files_head L ++ dumps_entries L F ++ t))
    = S (S (S (S (length F + fuel)))).
Proof.
  intros F t. pose proof (dumps_entries_length F) as H.
  pose proof files_head_length as H2.
  exists (2 * length (files_head L ++ dumps_entries L F ++ t) - 3 - length F)%nat.
  rewrite !length_app in *. lia.
Qed.

Lemma skip_ws_document : forall s, skip_ws (files_head L ++ s) = files_head L ++ s.
Proof. intros s. now rewrite files_head_shape. Qed.

(** A complete document decodes to its file map, with any JSON white
    space before its two closing braces. *)
Lemma json_loads_document : forall F t t2,
  F <> [] -> distinct_keys F = true ->
  skip_ws t = RBRACE :: t2 -> skip_ws t2 = [RBRACE] ->
  json_loads (files_head L ++ dumps_entries L F ++ t)
  = Ok (JObj [(txt "files", JObj (string_entries F))]).
Proof.
  intros F t t2 Hne Hd Ht Ht2. unfold json_loads.
  destruct (document_fuel F t) as [fuel ->].
  rewrite skip_ws_document.
  rewrite scan_document by assumption.
  assert (after_entries (S fuel) (string_entries F) t
          = Scanned (JObj (string_entries F)) t2) as ->
      by (unfold after_entries; now rewrite Ht).
  unfold after_entries. rewrite Ht2. reflexivity.
Qed.

(** A document cut after a comma does not decode. *)
Lemma json_loads_truncated : forall F,
  F <> [] -> distinct_keys F = true ->
  json_loads (files_head L ++ dumps_entries L F ++ [COMMA]) = Raise JSONDecodeError.
Proof.
  intros F Hne Hd. unfold json_loads.
  destruct (document_fuel F [COMMA]) as [fuel ->].
  rewrite skip_ws_document.
  rewrite scan_document by assumption. reflexivity.
Qed.

(** The two closing braces of the document. *)
Lemma skip_ws_tail :
  skip_ws (files_tail L) = RBRACE :: before_close L ++ [RBRACE]
  /\ skip_ws (before_close L ++ [RBRACE]) = [RBRACE].
Proof.
  unfold files_tail. split.
  - now rewrite skip_ws_blank by apply blank_before_files_close.
  - now rewrite skip_ws_blank by apply blank_before_close.
Qed.

(** ** The scanners on a compliant document *)

Lemma fix_loop_entry : forall kv rest,
  fix_loop false false (dumps_entry L kv ++ rest)
  = dumps_entry L kv ++ fix_loop false false rest.
Proof.
  intros kv rest. unfold dumps_entry. flatten.
  rewrite fix_loop_string. cbn [fix_loop N.eqb Pos.eqb].
  rewrite fix_loop_blank by apply blank_after_colon.
  now rewrite fix_loop_string.
Qed.

Lemma fix_loop_entries : forall F rest,
  fix_loop false false (dumps_entries L F ++ rest)
  = dumps_entries L F ++ fix_loop false false rest.
Proof.
  induction F as [|kv F IH]; intros rest; [reflexivity|].
  destruct F as [|kv' F].
  - apply fix_loop_entry.
  - rewrite dumps_entries_cons by discriminate. flatten.
    rewrite fix_loop_entry. cbn [fix_loop N.eqb Pos.eqb].
    rewrite fix_loop_blank by apply blank_after_comma. now rewrite IH.
Qed.

Lemma fix_loop_head : forall s,
  fix_loop false false (files_head L ++ s) = files_head L ++ fix_loop false false s.
Proof.
  intros s. rewrite !files_head_shape. cbn [fix_loop N.eqb Pos.eqb].
  rewrite fix_loop_blank by apply blank_after_open.
  rewrite fix_loop_string. cbn [fix_loop N.eqb Pos.eqb].
  rewrite fix_loop_blank by apply blank_after_files_colon.
  cbn [fix_loop N.eqb Pos.eqb].
  now rewrite fix_loop_blank by apply blank_after_files_open.
Qed.

Lemma fix_loop_tail : fix_loop false false (files_tail L) = files_tail L.
Proof.
  unfold files_tail. rewrite fix_loop_blank by apply blank_before_files_close.
  cbn [fix_loop N.eqb Pos.eqb].
  now rewrite fix_loop_blank by apply blank_before_close.
Qed.

(** The re-escaping stage leaves a compliant document as it is. *)
Lemma fix_document : forall F t,
  fix_loop false false t = t ->
  fix_unescaped_control_chars (files_head L ++ dumps_entries L F ++ t)
  = files_head L ++ dumps_entries L F ++ t.
Proof.
  intros F t Ht. unfold fix_unescaped_control_chars.
  now rewrite fix_loop_head, fix_loop_entries, Ht.
Qed.

Section TruncatedEntries.
Variable text0 : text.

Lemma truncate_entry : forall kv rest i last depth,
  truncate_loop text0 (dumps_entry L kv ++ rest) i last false false depth
  = truncate_loop text0 rest (i + Z.of_nat (length (dumps_entry L kv))) last false false depth.
Proof.
  intros kv rest i last depth. unfold dumps_entry. flatten.
  rewrite truncate_string. cbn [truncate_loop N.eqb Pos.eqb negb].
  rewrite truncate_blank by apply blank_after_colon.
  rewrite truncate_string. f_equal. rewrite !length_app. cbn [length].
  rewrite !length_app. lia.
Qed.

(** On entries cut after a comma, the walk runs off the text with the
    last comma as its truncation point. *)
Lemma truncate_entries : forall F i last,
  F <> [] -> (0 <= i)%Z ->
  truncate_loop text0 (dumps_entries L F ++ [COMMA]) i last false false 1
  = Some (take (i + Z.of_nat (length (dumps_entries L F))) text0
          ++ [NL; SPACE; SPACE; RBRACE; NL; RBRACE]).
Proof.
  induction F as [|kv F IH]; intros i last Hne Hi; [contradiction|].
  destruct F as [|kv' F].
  - cbn [dumps_entries map join]. rewrite truncate_entry.
    cbn [truncate_loop N.eqb Pos.eqb negb Z.eqb].
    destruct (Z.eqb_spec (i + Z.of_nat (length (dumps_entry L kv))) (-1)); [lia|].
    reflexivity.
  - rewrite dumps_entries_cons by discriminate. flatten.
    rewrite truncate_entry. cbn [truncate_loop N.eqb Pos.eqb negb Z.eqb].
    rewrite truncate_blank by apply blank_after_comma.
    rewrite IH by (discriminate || lia). do 3 f_equal.
    rewrite !length_app. cbn [length]. rewrite !length_app. lia.
Qed.
End TruncatedEntries.

Lemma object_end_entry : forall kv rest i count,
  object_end (dumps_entry L kv ++ rest) i false false count
  = object_end rest (i + Z.of_nat (length (dumps_entry L kv))) false false count.
Proof.
  intros kv rest i count. unfold dumps_entry. flatten.
  rewrite object_end_string. cbn [object_end N.eqb Pos.eqb negb].
  rewrite object_end_blank by apply blank_after_colon.
  rewrite object_end_string. f_equal. rewrite !length_app. cbn [length].
  rewrite !length_app. lia.
Qed.

(** No brace closes in entries cut after a comma. *)
Lemma object_end_entries : forall F i count,
  object_end (dumps_entries L F ++ [COMMA]) i false false count = None.
Proof.
  induction F as [|kv F IH]; intros i count; [reflexivity|].
  destruct F as [|kv' F].
  - cbn [dumps_entries map join]. rewrite object_end_entry. reflexivity.
  - rewrite dumps_entries_cons by discriminate. flatten.
    rewrite object_end_entry. cbn [object_end N.eqb Pos.eqb negb].
    rewrite object_end_blank by apply blank_after_comma. apply IH.
Qed.

(** The walk over the head of the document opens two braces. *)
Lemma object_end_head : forall s i,
  exists j, object_end (files_head L ++ s) i false false 0
            = object_end s j false false 2.
Proof.
  intros s i. rewrite files_head_shape. cbn [object_end N.eqb Pos.eqb negb].
  rewrite object_end_blank by apply blank_after_open.
  rewrite object_end_string. cbn [object_end N.eqb Pos.eqb negb].
  rewrite object_end_blank by apply blank_after_files_colon.
  cbn [object_end N.eqb Pos.eqb negb].
  rewrite object_end_blank by apply blank_after_files_open.
  eexists. reflexivity.
Qed.

Lemma find_brace : forall s, find [LBRACE] (files_head L ++ s) = 0%Z.
Proof. intros s. now rewrite files_head_shape. Qed.

(** The balanced-brace search finds nothing in a document cut after a
    comma. *)
Lemma find_json_object_truncated : forall F,
  find_json_object (files_head L ++ dumps_entries L F ++ [COMMA]) = None.
Proof.
  intros F. unfold find_json_object. rewrite find_brace.
  cbn [Z.eqb drop Z.to_nat skipn].
  destruct (object_end_head (dumps_entries L F ++ [COMMA]) 0) as [j ->].
  now rewrite object_end_entries.
Qed.

(** The document, split at the name of its one member. *)
Lemma files_head_name : forall s,
  files_head L ++ s
  = (LBRACE :: after_open L)
      ++ js "'files'"
      ++ COLON :: after_files_colon L ++ LBRACE :: after_files_open L ++ s.
Proof. intros s. rewrite files_head_shape. reflexivity. Qed.

Lemma files_open_length :
  Z.of_nat (length (files_open L))
  = (Z.of_nat (length (LBRACE :: after_open L))
     + Z.of_nat (length (js "'files'" ++ COLON :: after_files_colon L)) + 1)%Z.
Proof.
  unfold files_open. change (dumps_string (txt "files")) with (js "'files'").
  cbn [length]. rewrite !length_app. cbn [length]. rewrite !length_app.
  cbn [length]. lia.
Qed.

(** The name [files] is found after the white space that follows the
    opening brace. *)
Lemma find_files : forall s,
  find (js "'files'") (files_head L ++ s)
  = Z.of_nat (length (LBRACE :: after_open L)).
Proof.
  intros s. rewrite files_head_name. unfold find.
  change (js "'files'") with (DQUOTE :: js "files'").
  rewrite find_from_skips; [reflexivity|].
  intros x [<-|Hx]; [reflexivity|].
  now apply (blank_no_quote (after_open L)); [apply blank_after_open|].
Qed.

(** The brace after the name is the one that opens the files object. *)
Lemma find_files_brace : forall s,
  find_at [LBRACE] (files_head L ++ s) (Z.of_nat (length (LBRACE :: after_open L)))
  = (Z.of_nat (length (files_open L)) - 1)%Z.
Proof.
  intros s. unfold find_at.
  destruct (Z.ltb_spec (Z.of_nat (length (files_head L ++ s)))
                       (Z.of_nat (length (LBRACE :: after_open L)))) as [H|_].
  - rewrite files_head_name, length_app in H. lia.
  - rewrite files_head_name, drop_app_length.
    replace (js "'files'" ++ COLON :: after_files_colon L
                ++ LBRACE :: after_files_open L ++ s)
      with ((js "'files'" ++ COLON :: after_files_colon L)
              ++ [LBRACE] ++ after_files_open L ++ s)
      by now rewrite <- app_assoc.
    rewrite find_from_skips.
    + rewrite files_open_length. lia.
    + intros x Hx. apply in_app_or in Hx as [Hx|[<-|Hx]].
      * cbn in Hx. decompose [or] Hx; try contradiction; subst x; reflexivity.
      * reflexivity.
      * now apply (blank_no_brace (after_files_colon L));
          [apply blank_after_files_colon|].
Qed.

Lemma drop_files_open : forall s,
  drop (Z.of_nat (length (files_open L))) (files_head L ++ s) = after_files_open L ++ s.
Proof. intros s. unfold files_head. now rewrite <- app_assoc, drop_app_length. Qed.

(** Truncation recovery on a document cut after a comma: the document up
    to that comma, closed. *)
Lemma smart_truncate_document : forall F,
  F <> [] ->
  smart_truncate_json (files_head L ++ dumps_entries L F ++ [COMMA])
  = Some (files_head L ++ dumps_entries L F ++ [NL; SPACE; SPACE; RBRACE; NL; RBRACE]).
Proof.
  intros F Hne. unfold smart_truncate_json. rewrite find_files.
  destruct (Z.eqb_spec (Z.of_nat (length (LBRACE :: after_open L))) (-1)) as [H|_]; [lia|].
  rewrite find_files_brace.
  destruct (Z.eqb_spec (Z.of_nat (length (files_open L)) - 1) (-1)) as [H|_].
  { rewrite files_open_length in H. lia. }
  replace (Z.of_nat (length (files_open L)) - 1 + 1)%Z
    with (Z.of_nat (length (files_open L))) by lia.
  rewrite drop_files_open.
  rewrite truncate_blank by apply blank_after_files_open.
  rewrite truncate_entries by (assumption || lia).
  f_equal.
  replace (Z.of_nat (length (files_open L)) + Z.of_nat (length (after_files_open L))
           + Z.of_nat (length (dumps_entries L F)))%Z
    with (Z.of_nat (length (files_head L ++ dumps_entries L F)))
    by (unfold files_head; rewrite !length_app; lia).
  rewrite app_assoc, take_app_length. now rewrite <- app_assoc.
Qed.

(** ** Plain entries make a plain document *)

Lemma dumps_entry_no_closer : forall kv,
  existsb is_closer (fst kv) = false -> existsb is_closer (snd kv) = false ->
  existsb is_closer (dumps_entry L kv) = false.
Proof.
  intros kv Hk Hv. unfold dumps_entry.
  rewrite existsb_app, dumps_string_no_closer by assumption. cbn [existsb].
  rewrite existsb_app, blank_no_closer, dumps_string_no_closer
    by (assumption || apply blank_after_colon).
  reflexivity.
Qed.

Lemma dumps_entries_no_closer : forall F,
  plain_entries F = true -> existsb is_closer (dumps_entries L F) = false.
Proof.
  induction F as [|kv F IH]; intros H; [reflexivity|].
  apply plain_entries_cons in H as ((Hk & _) & (Hv & _) & HF).
  destruct F as [|kv' F].
  - now apply dumps_entry_no_closer.
  - rewrite dumps_entries_cons by discriminate.
    rewrite existsb_app, dumps_entry_no_closer by assumption. cbn [app existsb].
    rewrite existsb_app, blank_no_closer, IH by (assumption || apply blank_after_comma).
    reflexivity.
Qed.

Lemma files_head_no_closer : existsb is_closer (files_head L) = false.
Proof.
  rewrite <- (app_nil_r (files_head L)), files_head_shape. cbn [existsb].
  rewrite existsb_app, blank_no_closer by apply blank_after_open.
  rewrite existsb_app, dumps_string_no_closer by reflexivity. cbn [existsb].
  rewrite existsb_app, blank_no_closer by apply blank_after_files_colon.
  cbn [existsb]. rewrite app_nil_r.
  now rewrite blank_no_closer by apply blank_after_files_open.
Qed.

Lemma dumps_entry_no_opener : forall kv rest,
  no_comment_opener false (fst kv) = true -> no_comment_opener false (snd kv) = true ->
  no_comment_opener false (dumps_entry L kv ++ rest) = no_comment_opener false rest.
Proof.
  intros kv rest Hk Hv. unfold dumps_entry. flatten.
  rewrite dumps_string_no_opener by exact Hk.
  cbn [no_comment_opener andb negb N.eqb Pos.eqb].
  rewrite blank_no_opener by apply blank_after_colon.
  now apply dumps_string_no_opener.
Qed.

Lemma dumps_entries_no_opener : forall F rest,
  plain_entries F = true ->
  no_comment_opener false (dumps_entries L F ++ rest) = no_comment_opener false rest.
Proof.
  induction F as [|kv F IH]; intros rest H; [reflexivity|].
  apply plain_entries_cons in H as ((_ & Hk) & (_ & Hv) & HF).
  destruct F as [|kv' F].
  - now apply dumps_entry_no_opener.
  - rewrite dumps_entries_cons by discriminate. flatten.
    rewrite dumps_entry_no_opener by assumption.
    cbn [no_comment_opener andb negb N.eqb Pos.eqb].
    rewrite blank_no_opener by apply blank_after_comma. now apply IH.
Qed.

Lemma files_head_no_opener : forall s,
  no_comment_opener false (files_head L ++ s) = no_comment_opener false s.
Proof.
  intros s. rewrite files_head_shape. cbn [no_comment_opener andb negb N.eqb Pos.eqb].
  rewrite blank_no_opener by apply blank_after_open.
  rewrite dumps_string_no_opener by reflexivity.
  cbn [no_comment_opener andb negb N.eqb Pos.eqb].
  rewrite blank_no_opener by apply blank_after_files_colon.
  cbn [no_comment_opener andb negb N.eqb Pos.eqb].
  now rewrite blank_no_opener by apply blank_after_files_open.
Qed.

(** ** Commas before closers in a document *)

Lemma dumps_entry_commas : forall kv rest,
  matches_in trailing_comma (fst kv) = false ->
  matches_in trailing_comma (snd kv) = false ->
  matches_in trailing_comma (dumps_entry L kv ++ rest) = matches_in trailing_comma rest.
Proof.
  intros kv rest Hk Hv. unfold dumps_entry. flatten.
  rewrite dumps_string_commas by exact Hk.
  rewrite matches_in_trailing_comma. cbn [N.eqb Pos.eqb andb orb].
  rewrite blank_commas by apply blank_after_colon.
  now apply dumps_string_commas.
Qed.

Lemma dumps_entries_commas : forall F rest,
  comma_safe_entries F = true ->
  matches_in trailing_comma (dumps_entries L F ++ rest) = matches_in trailing_comma rest.
Proof.
  induction F as [|kv F IH]; intros rest H; [reflexivity|].
  apply comma_safe_cons in H as (Hk & Hv & HF).
  destruct F as [|kv' F].
  - now apply dumps_entry_commas.
  - rewrite dumps_entries_cons by discriminate. flatten.
    rewrite dumps_entry_commas by assumption.
    rewrite matches_in_trailing_comma.
    destruct (dumps_entries_head (kv' :: F)) as [r Hr]; [discriminate|].
    assert (closer_follows (after_comma L ++ dumps_entries L (kv' :: F) ++ rest) = false)
      as ->.
    { rewrite closer_follows_blank by apply blank_after_comma. rewrite Hr.
      now rewrite <- app_comm_cons, closer_follows_other. }
    rewrite andb_false_r. cbn [orb].
    rewrite blank_commas by apply blank_after_comma. now apply IH.
Qed.

Lemma files_head_commas : forall s,
  matches_in trailing_comma (files_head L ++ s) = matches_in trailing_comma s.
Proof.
  intros s. rewrite files_head_shape.
  rewrite matches_in_trailing_comma. cbn [N.eqb Pos.eqb andb orb].
  rewrite blank_commas by apply blank_after_open.
  rewrite dumps_string_commas by reflexivity.
  rewrite matches_in_trailing_comma. cbn [N.eqb Pos.eqb andb orb].
  rewrite blank_commas by apply blank_after_files_colon.
  rewrite matches_in_trailing_comma. cbn [N.eqb Pos.eqb andb orb].
  now rewrite blank_commas by apply blank_after_files_open.
Qed.

Lemma files_tail_commas : matches_in trailing_comma (files_tail L) = false.
Proof.
  unfold files_tail. rewrite blank_commas by apply blank_before_files_close.
  rewrite matches_in_trailing_comma. cbn [N.eqb Pos.eqb andb orb].
  now rewrite blank_commas by apply blank_before_close.
Qed.

(** The comma remover finds nothing in the document of comma-safe entries. *)
Lemma dumps_files_commas : forall F,
  comma_safe_entries F = true -> matches_in trailing_comma (dumps_files L F) = false.
Proof.
  intros F H. unfold dumps_files.
  rewrite files_head_commas, dumps_entries_commas by exact H.
  apply files_tail_commas.
Qed.





(** ** Truncation recovery and the round trip *)

Lemma dumps_entries_app : forall A B,
  A <> [] -> B <> [] ->
  dumps_entries L (A ++ B)
  = dumps_entries L A ++ (COMMA :: after_comma L) ++ dumps_entries L B.
Proof.
  induction A as [|kv A IH]; intros B HA HB; [contradiction|].
  destruct A as [|kv' A].
  - cbn [app]. now rewrite dumps_entries_cons.
  - change ((kv :: kv' :: A) ++ B) with (kv :: (kv' :: A) ++ B).
    rewrite dumps_entries_cons by discriminate.
    rewrite IH by (discriminate || assumption).
    rewrite (dumps_entries_cons kv (kv' :: A)) by discriminate.
    now rewrite <- !app_assoc.
Qed.

(** The truncated document is the document of [F] up to the comma after
    its [N]-th entry. *)
Lemma truncated_document_is_prefix : forall F N,
  (1 <= N)%nat -> (N < length F)%nat ->
  exists rest, dumps_files L F = truncated_document L F N ++ rest.
Proof.
  intros F N H1 H2. unfold dumps_files, truncated_document.
  replace (dumps_entries L F) with (dumps_entries L (firstn N F ++ skipn N F))
    by now rewrite firstn_skipn.
  assert (firstn N F <> []) as HA.
  { destruct F; [cbn in H2; lia|]. destruct N; [lia|]. discriminate. }
  assert (skipn N F <> []) as HB.
  { intros E. apply (f_equal (@length _)) in E. rewrite length_skipn in E. cbn in E. lia. }
  rewrite dumps_entries_app by assumption.
  exists (after_comma L ++ dumps_entries L (skipn N F) ++ files_tail L).
  now rewrite <- !app_assoc.
Qed.

Section Recovered.
Context {lib : PyLib}.

Lemma fix_string_entries : forall F,
  distinct_keys F = true -> fix_files (string_entries F) = string_entries F.
Proof.
  intros F H. rewrite fix_files_distinct by now rewrite distinct_string_entries.
  unfold string_entries. rewrite map_map. reflexivity.
Qed.

(** The engine on entries cut after a comma. *)
Lemma recover_truncated_entries : forall G,
  G <> [] -> distinct_keys G = true -> plain_entries G = true ->
  recover (files_head L ++ dumps_entries L G ++ [COMMA]) = Ok (file_map G).
Proof.
  intros G Hne Hd Hp.
  set (T := files_head L ++ dumps_entries L G ++ [COMMA]).
  assert (T = LBRACE :: (tl (files_head L) ++ dumps_entries L G) ++ [COMMA]) as Hshape
      by (unfold T; now rewrite app_assoc).
  assert (existsb is_closer T = false) as Hc.
  { unfold T. rewrite !existsb_app, files_head_no_closer, dumps_entries_no_closer
      by exact Hp. reflexivity. }
  assert (no_comment_opener false T = true) as Ho.
  { unfold T. rewrite files_head_no_opener. now rewrite dumps_entries_no_opener. }
  assert (prepare T = T) as Hprep.
  { rewrite Hshape at 1. rewrite prepare_open; try reflexivity.
    - rewrite <- Hshape. unfold T. now apply fix_document.
    - now rewrite <- Hshape. }
  assert (json_loads T = Raise JSONDecodeError) as Hload
      by now apply json_loads_truncated.
  unfold recover. rewrite Hprep.
  unfold strict_attempt. rewrite Hload. cbn [bind].
  unfold fallback, strategy1. unfold T at 1. rewrite find_json_object_truncated.
  cbn [bind]. unfold strategy2.
  assert (fix_json_common_issues T = T) as ->.
  { rewrite Hshape. apply fix_json_common_issues_plain; try reflexivity;
      now rewrite <- Hshape. }
  rewrite Hload. unfold T at 1. rewrite smart_truncate_document by exact Hne.
  unfold truncated_attempt.
  rewrite files_head_brace, <- app_comm_cons. cbv iota.
  rewrite app_comm_cons, <- files_head_brace.
  rewrite (json_loads_document G _ [NL; RBRACE]) by (assumption || reflexivity).
  change (get_files (JObj [(txt "files", JObj (string_entries G))]))
    with (Ok (JObj (string_entries G))).
  cbn [bind]. rewrite truthy_entries by exact Hne. reflexivity.
Qed.

(** The engine on a complete document in which the comma remover finds
    nothing. *)
Lemma recover_document : forall F,
  F <> [] -> distinct_keys F = true ->
  matches_in trailing_comma (dumps_files L F) = false ->
  recover (dumps_files L F) = Ok (file_map F).
Proof.
  intros F Hne Hd Hm.
  assert (dumps_files L F
          = LBRACE :: (tl (files_head L) ++ dumps_entries L F
                          ++ before_files_close L ++ RBRACE :: before_close L)
                   ++ [RBRACE])
    as Hshape.
  { unfold dumps_files, files_tail. rewrite files_head_brace at 1.
    flatten. reflexivity. }
  assert (prepare (dumps_files L F) = dumps_files L F) as Hprep.
  { rewrite Hshape at 1. rewrite prepare_closed by now rewrite <- Hshape.
    rewrite <- Hshape. unfold dumps_files. apply fix_document, fix_loop_tail. }
  unfold recover. rewrite Hprep. unfold strict_attempt.
  unfold dumps_files.
  rewrite (json_loads_document F _ _ Hne Hd (proj1 skip_ws_tail) (proj2 skip_ws_tail)).
  cbn [bind].
  change (get_files (JObj [(txt "files", JObj (string_entries F))]))
    with (Ok (JObj (string_entries F))).
  cbn [bind]. rewrite truthy_entries by exact Hne.
  cbn [items bind]. rewrite fix_string_entries by exact Hd.
  now rewrite truthy_entries.
Qed.
End Recovered.
End Layout.

Section RoundTrip.
Context {lib : PyLib}.

(** X23. Truncation recovery where the repairs find nothing to repair.
    For every N >= 1 and every compliant files document with string values
    and distinct paths, its strings escaped as [json.dumps] escapes them
    and JSON white space of a serializer's choice after its opening braces,
    colons and commas, cut off right after the comma that follows its N-th
    entry: when no path or content among the first N entries holds a
    closing brace, a closing bracket, [//] or [/*], the engine returns
    exactly the first N entries, no fewer and nothing of the next one. *)
Theorem truncation_recovery_floor : forall L F N,
  well_spaced L = true ->
  (1 <= N)%nat -> (N < length F)%nat ->
  distinct_keys F = true ->
  plain_entries (firstn N F) = true ->
  recover (truncated_document L F N) = Ok (file_map (firstn N F)).
Proof.
  intros L F N HL H1 H2 Hd Hp. unfold truncated_document.
  apply (recover_truncated_entries L HL);
    [|now apply distinct_keys_firstn|exact Hp].
  destruct F; [cbn in H2; lia|]. destruct N; [lia|]. discriminate.
Qed.

End RoundTrip.



(** [truncation_recovery_floor] on the project, indented and cut after its
    second entry. *)
Lemma truncation_recovery_witness :
  recover (lib := plain_lib) (truncated_document indented sample_project 2)
  = Ok (file_map (firstn 2 sample_project)).
Proof.
  apply (truncation_recovery_floor (lib := plain_lib) indented sample_project 2).
  - reflexivity.
  - apply le_S, le_n.
  - apply le_n.
  - reflexivity.
  - reflexivity.
Defined.

Section Defeated.
Context {lib : PyLib}.

(** C2, on the failing inputs: documents of three files cut after their
    second entry.  The truncation scanner takes notice of strings, and on
    the cut document itself it recovers the first two entries; but the
    repairs that run before it do not.  With a closing brace in the first
    content, the slice from the first opening brace to the last closing
    brace ends the text inside that content, and the engine fails.  With
    [//] in a content (an address), the remover of line comments cuts the
    text there, and the engine fails.  With a comma before a closing
    bracket, or a block comment, in a content, the engine returns the two
    entries with that content changed. *)
Theorem truncation_recovery_defeated_by_repairs :
  truncated_document compact braces_project 2 = js "{'files': {'a': '}', 'b': 'y',"
  /\ truncated_attempt (smart_truncate_json (truncated_document compact braces_project 2))
     = Ok (Some (file_map (firstn 2 braces_project)))
  /\ prepare (truncated_document compact braces_project 2) = js "{'files': {'a': '}"
  /\ recover (truncated_document compact braces_project 2)
     = Raise (ValueError "returned invalid JSON")
  /\ recover (truncated_document compact
                [(txt "a", txt "http://x"); (txt "b", txt "y"); (txt "c", txt "z")] 2)
     = Raise (ValueError "returned invalid JSON")
  /\ recover (truncated_document compact
                [(txt "a", txt "x,]"); (txt "b", txt "y"); (txt "c", txt "z")] 2)
     = Ok (file_map [(txt "a", txt "x]"); (txt "b", txt "y")])
  /\ recover (truncated_document compact
                [(txt "a", txt "x /* y */"); (txt "b", txt "y"); (txt "c", txt "z")] 2)
     = Ok (file_map [(txt "a", txt "x "); (txt "b", txt "y")]).
Proof. repeat split; vm_compute; reflexivity. Qed.
End Defeated.

(** ** What the structural scanners return *)

Lemma find_from_char : forall c s i,
  (find_from [c] s i = (-1)%Z /\ existsb (N.eqb c) s = false)
  \/ (exists pre rest,
        s = pre ++ c :: rest /\ existsb (N.eqb c) pre = false
        /\ find_from [c] s i = (i + Z.of_nat (length pre))%Z).
Proof.
  intros c. induction s as [|x s IH]; intros i.
  - left. now split.
  - cbn [find_from startswith]. destruct (c =? x) eqn:E.
    + right. apply N.eqb_eq in E. subst x. exists [], s. cbn. repeat split. lia.
    + cbn [andb]. destruct (IH (i + 1)%Z) as [[H1 H2]|(pre & rest & -> & H2 & H3)].
      * left. cbn [existsb]. now rewrite E, H1, H2.
      * right. exists (x :: pre), rest. cbn [existsb app length].
        rewrite E, H2, H3. repeat split. lia.
Qed.

(** Where the brace walk stops: right after a closing brace. *)
Lemma object_end_stops : forall s i ins esc count e,
  object_end s i ins esc count = Some e ->
  exists a b, s = a ++ RBRACE :: b /\ e = (i + Z.of_nat (length a) + 1)%Z.
Proof.
  induction s as [|c s IH]; intros i ins esc count e H; [discriminate H|].
  assert (forall ins' esc' count',
             object_end s (i + 1) ins' esc' count' = Some e ->
             exists a b, c :: s = a ++ RBRACE :: b
                         /\ e = (i + Z.of_nat (length a) + 1)%Z) as Hnext.
  { intros ins' esc' count' H'. destruct (IH _ _ _ _ _ H') as (a & b & -> & ->).
    exists (c :: a), b. split; [reflexivity|]. cbn [length]. lia. }
  cbn [object_end] in H.
  destruct esc; [eauto|].
  destruct (c =? 92); [eauto|].
  destruct (c =? 34); [eauto|].
  destruct (negb ins); [|eauto].
  destruct (c =? 123); [eauto|].
  destruct (c =? 125) eqn:E; [|eauto].
  destruct (count - 1 =? 0)%Z; [|eauto].
  injection H as <-. apply N.eqb_eq in E. subst c.
  exists [], s. split; [reflexivity|]. cbn [length]. lia.
Qed.

(** X2. Whatever [find_json_object] returns is a part of the text it was
    given: it begins at the first opening brace of the text and ends with a
    closing brace.  A text without an opening brace gives nothing. *)
Theorem find_json_object_is_a_braced_part : forall text0,
  (forall found, find_json_object text0 = Some found ->
     exists before inner after,
       text0 = before ++ found ++ after
       /\ found = LBRACE :: inner ++ [RBRACE]
       /\ existsb (N.eqb LBRACE) before = false)
  /\ (existsb (N.eqb LBRACE) text0 = false -> find_json_object text0 = None).
Proof.
  intros t. unfold find_json_object, find. split.
  - intros found H.
    destruct (find_from_char LBRACE t 0) as [[E _]|(pre & rest & Ht & Hpre & E)];
      rewrite E in H; [discriminate H|].
    destruct (Z.eqb_spec (0 + Z.of_nat (length pre)) (-1)) as [|_]; [lia|].
    replace (0 + Z.of_nat (length pre))%Z with (Z.of_nat (length pre)) in H by lia.
    rewrite Ht in H at 1. rewrite drop_app_length in H.
    destruct (object_end (LBRACE :: rest) _ false false 0) as [e|] eqn:Ee;
      [|discriminate H].
    apply object_end_stops in Ee as (a & b & Hab & ->).
    destruct (Z.ltb_spec (Z.of_nat (length pre))
                         (Z.of_nat (length pre) + Z.of_nat (length a) + 1)) as [_|];
      [|lia].
    destruct a as [|x a]; [discriminate Hab|]. injection Hab as <- Hab. subst rest.
    assert (slice (Z.of_nat (length pre))
                  (Z.of_nat (length pre) + Z.of_nat (length (LBRACE :: a)) + 1)
                  (pre ++ LBRACE :: a ++ RBRACE :: b)
            = LBRACE :: a ++ [RBRACE]) as Hs.
    { unfold slice.
      replace (Z.of_nat (length pre) + Z.of_nat (length (LBRACE :: a)) + 1)%Z
        with (Z.of_nat (length (pre ++ (LBRACE :: a) ++ [RBRACE])))
        by (rewrite !length_app; cbn [length]; lia).
      replace (pre ++ LBRACE :: a ++ RBRACE :: b)
        with ((pre ++ (LBRACE :: a) ++ [RBRACE]) ++ b)
        by (rewrite <- !app_assoc; reflexivity).
      rewrite take_app_length, drop_app_length. reflexivity. }
    subst t. rewrite Hs in H. injection H as <-.
    exists pre, a, b. split; [|split; [reflexivity|exact Hpre]].
    cbn [app]. now rewrite <- app_assoc.
  - intros H.
    destruct (find_from_char LBRACE t 0) as [[E _]|(pre & rest & Ht & Hpre & E)].
    + now rewrite E.
    + subst t. rewrite existsb_app in H. cbn in H. now rewrite orb_true_r in H.
Qed.

(** [find_json_object_is_a_braced_part] on an answer with text around its
    object. *)
Lemma find_json_object_witness :
  exists before inner after,
    js "Here: {'a': {}} done}" = before ++ js "{'a': {}}" ++ after
    /\ js "{'a': {}}" = LBRACE :: inner ++ [RBRACE]
    /\ existsb (N.eqb LBRACE) before = false.
Proof.
  apply (proj1 (find_json_object_is_a_braced_part (js "Here: {'a': {}} done}"))).
  reflexivity.
Defined.

Lemma truncate_loop_returns : forall text0 s i last ins esc depth r,
  truncate_loop text0 s i last ins esc depth = Some r ->
  exists n closing,
    r = take n text0 ++ closing
    /\ (closing = [RBRACE] \/ closing = [NL; SPACE; SPACE; RBRACE; NL; RBRACE]).
Proof.
  intros text0. induction s as [|c s IH]; intros i last ins esc depth r H.
  - cbn [truncate_loop] in H. destruct (last =? -1)%Z; [discriminate H|].
    injection H as <-. eauto.
  - cbn [truncate_loop] in H.
    destruct esc; [eauto|].
    destruct (c =? 92); [eauto|].
    destruct (c =? 34); [eauto|].
    destruct (negb ins); [|eauto].
    destruct (c =? 123); [eauto|].
    destruct (c =? 125).
    + destruct (depth - 1 =? 0)%Z; [|eauto]. injection H as <-. eauto.
    + destruct (c =? 44); eauto.
Qed.

Lemma find_from_absent : forall p s i,
  contains p s = false -> find_from p s i = (-1)%Z.
Proof.
  intros p. induction s as [|c s IH]; intros i H; cbn [contains find_from] in *;
    apply orb_false_iff in H as [H1 H2]; rewrite H1; auto.
Qed.

(** X3. Whatever [smart_truncate_json] returns is made of the text it was
    given: a prefix of it, closed by one brace (the files object was
    complete) or, after the prefix that ends before the last comma between
    entries, by the two braces on lines of their own.  A text without the quoted name [files] gives nothing. *)
Theorem smart_truncate_json_returns_a_closed_prefix : forall text0,
  (forall truncated, smart_truncate_json text0 = Some truncated ->
     exists n closing,
       truncated = firstn n text0 ++ closing
       /\ (closing = [RBRACE] \/ closing = [NL; SPACE; SPACE; RBRACE; NL; RBRACE]))
  /\ (contains (js "'files'") text0 = false -> smart_truncate_json text0 = None).
Proof.
  intros t. unfold smart_truncate_json. split.
  - intros r H.
    destruct (find (js "'files'") t =? -1)%Z; [discriminate H|].
    destruct (find_at [LBRACE] t _ =? -1)%Z; [discriminate H|].
    apply truncate_loop_returns in H as (n & closing & -> & Hc).
    exists (Z.to_nat n), closing. now split.
  - intros H. unfold find. now rewrite find_from_absent.
Qed.

(** [smart_truncate_json_returns_a_closed_prefix] on a document cut inside
    its second entry. *)
Lemma smart_truncate_json_witness :
  exists n closing,
    js "{'files': {'a': 'x'" ++ [NL; SPACE; SPACE; RBRACE; NL; RBRACE]
    = firstn n (js "{'files': {'a': 'x', 'b': 'y") ++ closing
    /\ (closing = [RBRACE] \/ closing = [NL; SPACE; SPACE; RBRACE; NL; RBRACE]).
Proof.
  apply (proj1 (smart_truncate_json_returns_a_closed_prefix
                  (js "{'files': {'a': 'x', 'b': 'y"))).
  reflexivity.
Defined.

(** ** Prose and fences around the outermost braces *)

Lemma existsb_skipn : forall (f : N -> bool) n l,
  existsb f l = false -> existsb f (skipn n l) = false.
Proof.
  intros f. induction n as [|n IH]; intros [|x l] H; try assumption.
  cbn [existsb] in H. apply orb_false_iff in H as [_ H]. cbn [skipn]. auto.
Qed.

Lemma existsb_rev : forall (f : N -> bool) l, existsb f (rev l) = existsb f l.
Proof.
  intros f. induction l as [|x l IH]; [reflexivity|].
  cbn [rev existsb]. rewrite existsb_app, IH. cbn [existsb].
  rewrite orb_false_r. apply orb_comm.
Qed.

Lemma wrapped_rev : forall a b s t,
  wrapped a b s t -> wrapped b a (rev s) (rev t).
Proof.
  intros a b s t (pre & post & -> & H1 & H2). exists (rev post), (rev pre).
  rewrite !existsb_rev. repeat split; try assumption.
  rewrite rev_app_distr. cbn [rev]. rewrite rev_app_distr. cbn [rev].
  rewrite <- !app_assoc. reflexivity.
Qed.

Lemma wrapped_skip : forall a b s k pre post,
  existsb (N.eqb a) pre = false -> existsb (N.eqb b) post = false ->
  wrapped a b s (skipn k pre ++ a :: s ++ b :: post).
Proof.
  intros a b s k pre post H1 H2. exists (skipn k pre), post.
  repeat split; [now apply existsb_skipn|assumption].
Qed.

Lemma wrapped_lstrip : forall a b s t,
  isspace a = false -> wrapped a b s t -> wrapped a b s (lstrip t).
Proof.
  intros a b s t Ha (pre & post & -> & H1 & H2).
  assert (exists k, lstrip (pre ++ a :: s ++ b :: post)
                    = skipn k pre ++ a :: s ++ b :: post) as [k ->];
    [|now apply wrapped_skip].
  clear H1. induction pre as [|x pre [k IH]].
  - exists 0%nat. cbn [app lstrip skipn]. now rewrite Ha.
  - cbn [app lstrip]. destruct (isspace x).
    + exists (S k). now rewrite IH.
    + now exists 0%nat.
Qed.

Lemma wrapped_strip : forall a b s t,
  isspace a = false -> isspace b = false ->
  wrapped a b s t -> wrapped a b s (strip t).
Proof.
  intros a b s t Ha Hb H. unfold strip.
  rewrite <- (rev_involutive s).
  now apply wrapped_rev, wrapped_lstrip, wrapped_rev, wrapped_lstrip.
Qed.

(** A prefix of the text without [a] lies before the object. *)
Lemma wrapped_drop : forall a b s p t,
  wrapped a b s t -> startswith p t = true -> existsb (N.eqb a) p = false ->
  wrapped a b s (skipn (length p) t).
Proof.
  intros a b s p t (pre & post & -> & H1 & H2) Hp Ha.
  assert (skipn (length p) (pre ++ a :: s ++ b :: post)
          = skipn (length p) pre ++ a :: s ++ b :: post) as ->;
    [|now apply wrapped_skip].
  clear H1. revert pre Hp. induction p as [|x p IH]; intros pre Hp; [reflexivity|].
  cbn [existsb] in Ha. apply orb_false_iff in Ha as [Hx Ha].
  destruct pre as [|y pre]; cbn [app startswith] in Hp;
    apply andb_true_iff in Hp as [Hxy Hp]; apply N.eqb_eq in Hxy; subst.
  - rewrite N.eqb_refl in Hx. discriminate Hx.
  - cbn [length skipn app]. now apply IH.
Qed.

(** A suffix of the text without [b] lies after the object. *)
Lemma wrapped_take : forall a b s p t,
  wrapped a b s t -> endswith p t = true -> existsb (N.eqb b) p = false ->
  wrapped a b s (firstn (length t - length p) t).
Proof.
  intros a b s p t H Hp Hb.
  rewrite <- (rev_involutive (firstn _ t)), <- skipn_rev.
  rewrite <- (rev_involutive s). apply wrapped_rev.
  rewrite <- (length_rev p). apply wrapped_drop.
  - now apply wrapped_rev.
  - exact Hp.
  - now rewrite existsb_rev.
Qed.

Lemma startswith_length_le : forall p t,
  startswith p t = true -> (length p <= length t)%nat.
Proof.
  induction p as [|x p IH]; intros [|y t] H; cbn [length]; try lia; [discriminate H|].
  cbn [startswith] in H. apply andb_true_iff in H as [_ H]. apply IH in H. lia.
Qed.

Lemma rfind_char_app : forall c x y i last,
  rfind_char_from c (x ++ y) i last
  = rfind_char_from c y (i + Z.of_nat (length x)) (rfind_char_from c x i last).
Proof.
  intros c. induction x as [|a x IH]; intros y i last.
  - cbn [app length rfind_char_from]. f_equal. cbn. lia.
  - cbn [app length rfind_char_from]. rewrite IH. f_equal. lia.
Qed.

(** The slice from the first opening brace to the last closing brace. *)
Lemma wrapped_slice : forall s t,
  wrapped LBRACE RBRACE s t ->
  negb (find [LBRACE] t =? -1)%Z && (find [LBRACE] t <? rfind_char RBRACE t + 1)%Z = true
  /\ slice (find [LBRACE] t) (rfind_char RBRACE t + 1) t = LBRACE :: s ++ [RBRACE].
Proof.
  intros s t (pre & post & -> & H1 & H2).
  assert (find [LBRACE] (pre ++ LBRACE :: s ++ RBRACE :: post)
          = Z.of_nat (length pre)) as ->.
  { unfold find. change (LBRACE :: s ++ RBRACE :: post)
      with ([LBRACE] ++ s ++ RBRACE :: post).
    rewrite find_from_skips; [lia|].
    intros x Hx. destruct (LBRACE =? x) eqn:E; [|reflexivity].
    assert (existsb (N.eqb LBRACE) pre = true) by (apply existsb_exists; eauto).
    congruence. }
  assert (rfind_char RBRACE (pre ++ LBRACE :: s ++ RBRACE :: post)
          = Z.of_nat (length (pre ++ LBRACE :: s))) as ->.
  { unfold rfind_char.
    replace (pre ++ LBRACE :: s ++ RBRACE :: post)
      with ((pre ++ LBRACE :: s) ++ RBRACE :: post)
      by (now rewrite <- app_assoc).
    rewrite rfind_char_app. cbn [rfind_char_from]. rewrite N.eqb_refl.
    rewrite rfind_char_absent by exact H2. lia. }
  split.
  - apply andb_true_iff. split.
    + apply negb_true_iff, Z.eqb_neq. lia.
    + apply Z.ltb_lt. rewrite length_app. lia.
  - unfold slice.
    replace (Z.of_nat (length (pre ++ LBRACE :: s)) + 1)%Z
      with (Z.of_nat (length (pre ++ (LBRACE :: s) ++ [RBRACE])))
      by (rewrite !length_app; cbn [length]; lia).
    replace (pre ++ LBRACE :: s ++ RBRACE :: post)
      with ((pre ++ (LBRACE :: s) ++ [RBRACE]) ++ post)
      by (rewrite <- !app_assoc; reflexivity).
    rewrite take_app_length, drop_app_length. reflexivity.
Qed.

(** What [prepare] makes of an answer whose outermost braces enclose
    [s]. *)
Lemma prepare_wrapped : forall s t,
  wrapped LBRACE RBRACE s t ->
  prepare t
  = fix_unescaped_control_chars (re_sub trailing_comma (LBRACE :: s ++ [RBRACE])).
Proof.
  intros s t H. unfold prepare. cbv zeta.
  apply (wrapped_strip LBRACE RBRACE s t eq_refl eq_refl) in H.
  remember (strip t) as t1 eqn:E1. clear E1 t.
  assert (wrapped LBRACE RBRACE s
            (if startswith (txt "```json") t1 then strip (drop 7 t1)
             else if startswith (txt "```") t1 then strip (drop 3 t1) else t1)) as H2.
  { destruct (startswith (txt "```json") t1) eqn:F1.
    - apply wrapped_strip; try reflexivity.
      apply (wrapped_drop _ _ _ (txt "```json") _ H F1). reflexivity.
    - destruct (startswith (txt "```") t1) eqn:F2; [|exact H].
      apply wrapped_strip; try reflexivity.
      apply (wrapped_drop _ _ _ (txt "```") _ H F2). reflexivity. }
  remember (if startswith (txt "```json") t1 then strip (drop 7 t1)
            else if startswith (txt "```") t1 then strip (drop 3 t1) else t1)
    as t2 eqn:E2. clear E2 H t1.
  assert (wrapped LBRACE RBRACE s
            (if endswith (txt "```") t2
             then strip (take (Z.of_nat (length t2) - 3) t2) else t2)) as H3.
  { destruct (endswith (txt "```") t2) eqn:F; [|exact H2].
    apply wrapped_strip; try reflexivity.
    pose proof (startswith_length_le _ _ F) as Hl. rewrite !length_rev in Hl.
    unfold take.
    replace (Z.to_nat (Z.of_nat (length t2) - 3))
      with (length t2 - length (txt "```"))%nat
      by (change (length (txt "```")) with 3%nat in *; lia).
    apply (wrapped_take _ _ _ _ _ H2 F). reflexivity. }
  remember (if endswith (txt "```") t2
            then strip (take (Z.of_nat (length t2) - 3) t2) else t2)
    as t3 eqn:E3. clear E3 H2 t2.
  destruct (wrapped_slice s t3 H3) as [-> ->].
  now rewrite strip_fixed by reflexivity.
Qed.

Section Surroundings.
Context {lib : PyLib}.

(** X4. [prepare] keeps of an answer what stands from its first opening
    brace to its last closing brace: whatever stands before the first
    opening brace and after the last closing brace (prose, white space,
    code fences) changes nothing. *)
Theorem prepare_discards_surroundings : forall before s after,
  existsb (N.eqb LBRACE) before = false ->
  existsb (N.eqb RBRACE) after = false ->
  prepare (before ++ LBRACE :: s ++ RBRACE :: after) = prepare (LBRACE :: s ++ [RBRACE]).
Proof.
  intros pre s post H1 H2.
  rewrite (prepare_wrapped s (pre ++ LBRACE :: s ++ RBRACE :: post))
    by (exists pre, post; auto).
  rewrite (prepare_wrapped s (LBRACE :: s ++ [RBRACE]))
    by (exists [], []; auto).
  reflexivity.
Qed.

Lemma dumps_files_braces : forall L F,
  exists s, dumps_files L F = LBRACE :: s ++ [RBRACE].
Proof.
  intros L F.
  exists (tl (files_head L) ++ dumps_entries L F
             ++ before_files_close L ++ RBRACE :: before_close L).
  unfold dumps_files, files_tail. rewrite files_head_brace at 1.
  flatten. reflexivity.
Qed.

(** X5. The round trip survives what a model puts around its answer: for
    a file map as in the round trip (not empty, distinct paths, no comma
    before a closer in a path or a content), the compliant document with
    any text free of opening braces before it and any text free of closing
    braces after it (a code fence, a sentence) is recovered as exactly the
    file map. *)
Theorem round_trip_inside_prose : forall L F before after,
  well_spaced L = true ->
  F <> [] -> distinct_keys F = true -> comma_safe_entries F = true ->
  existsb (N.eqb LBRACE) before = false ->
  existsb (N.eqb RBRACE) after = false ->
  recover (before ++ dumps_files L F ++ after) = Ok (file_map F).
Proof.
  intros L F pre post HL Hne Hd Hs H1 H2.
  pose proof (recover_document L HL F Hne Hd (dumps_files_commas L HL F Hs)) as R.
  destruct (dumps_files_braces L F) as [s E]. rewrite E in *.
  unfold recover in *. cbn [app]. rewrite <- app_assoc. cbn [app].
  rewrite (prepare_wrapped s (pre ++ LBRACE :: s ++ RBRACE :: post))
    by (exists pre, post; auto).
  rewrite (prepare_wrapped s (LBRACE :: s ++ [RBRACE])) in R
    by (exists [], []; auto).
  exact R.
Qed.
End Surroundings.

(** [prepare_discards_surroundings] on an object inside a sentence. *)
Lemma prepare_discards_witness :
  prepare (txt "Sure: " ++ LBRACE :: js "'a': 1" ++ RBRACE :: txt " Done.")
  = prepare (LBRACE :: js "'a': 1" ++ [RBRACE]).
Proof.
  apply (prepare_discards_surroundings (txt "Sure: ") (js "'a': 1") (txt " Done."));
    reflexivity.
Defined.

(** [round_trip_inside_prose] on the project, indented, in a fence. *)
Lemma round_trip_inside_prose_witness :
  recover (lib := plain_lib)
          ((txt "```json" ++ [NL]) ++ dumps_files indented sample_project
             ++ (NL :: txt "```"))
  = Ok (file_map sample_project).
Proof.
  apply (round_trip_inside_prose (lib := plain_lib) indented sample_project).
  - reflexivity.
  - discriminate.
  - reflexivity.
  - reflexivity.
  - reflexivity.
  - reflexivity.
Defined.

(** ** The engine never returns an empty file map *)

Section Truthy.
Context {lib : PyLib}.

Lemma truncated_attempt_truthy : forall t f,
  truncated_attempt t = Ok (Some f) -> truthy f = true.
Proof.
  intros [[|c t]|] f H; try discriminate H. unfold truncated_attempt in H.
  destruct (json_loads (c :: t)) as [r|[]]; try discriminate H.
  destruct (get_files r) as [g|]; cbn [bind] in H; [|discriminate H].
  destruct (truthy g) eqn:E; [|discriminate H]. now injection H as <-.
Qed.

Lemma strategy1_truthy : forall t f, strategy1 t = Ok (Some f) -> truthy f = true.
Proof.
  intros t f H. unfold strategy1 in H.
  destruct (find_json_object t) as [[|c x]|]; try discriminate H.
  destruct (json_loads _) as [r|e1]; cbn [bind] in H.
  - destruct (get_files r) as [g|e2]; cbn [bind] in H.
    + destruct (items g) as [en|e3]; cbn [bind] in H.
      * destruct (truthy _) eqn:E.
        -- injection H as <-. exact E.
        -- now apply truncated_attempt_truthy in H.
      * destruct e3; try discriminate H; now apply truncated_attempt_truthy in H.
    + destruct e2; try discriminate H; now apply truncated_attempt_truthy in H.
  - destruct e1; try discriminate H; now apply truncated_attempt_truthy in H.
Qed.

Lemma strategy2_truthy : forall t f, strategy2 t = Ok (Some f) -> truthy f = true.
Proof.
  intros t f H. unfold strategy2 in H.
  destruct (json_loads _) as [r|e1].
  - destruct (get_files r) as [g|e2]; cbn [bind] in H; [|discriminate H].
    destruct (truthy g); [|discriminate H].
    destruct (items g) as [en|e3]; cbn [bind] in H; [|discriminate H].
    destruct (truthy _) eqn:E; [|discriminate H]. injection H as <-. exact E.
  - destruct e1; try discriminate H; now apply truncated_attempt_truthy in H.
Qed.

Lemma try_matches_truthy : forall ms f,
  try_matches ms = Ok (Some f) -> truthy f = true.
Proof.
  induction ms as [|m ms IH]; intros f H; [discriminate H|]. cbn [try_matches] in H.
  destruct (json_loads _) as [r|e1].
  - destruct (get_files r) as [g|e2]; cbn [bind] in H; [|discriminate H].
    destruct (truthy g) eqn:E; [|auto]. injection H as <-. exact E.
  - destruct e1; try discriminate H; auto.
Qed.

Lemma fallback_truthy : forall t f, fallback t = Ok f -> truthy f = true.
Proof.
  intros t f H. unfold fallback in H.
  destruct (strategy1 t) as [[g|]|e] eqn:E1; cbn [bind] in H; try discriminate H.
  { injection H as <-. now apply strategy1_truthy in E1. }
  destruct (strategy2 t) as [[g|]|e] eqn:E2; cbn [bind] in H; try discriminate H.
  { injection H as <-. now apply strategy2_truthy in E2. }
  destruct (strategy3 t) as [[g|]|e] eqn:E3; cbn [bind] in H; try discriminate H.
  injection H as <-. now apply try_matches_truthy in E3.
Qed.

Lemma strict_attempt_truthy : forall t f,
  strict_attempt t = Ok f -> truthy f = true.
Proof.
  intros t f H. unfold strict_attempt in H.
  destruct (json_loads t) as [r|]; cbn [bind] in H; [|discriminate H].
  destruct (get_files r) as [g|]; cbn [bind] in H; [|discriminate H].
  destruct (if truthy g then _ else _) as [h|]; cbn [bind] in H; [|discriminate H].
  destruct (truthy h) eqn:E; [|discriminate H]. now injection H as <-.
Qed.

(** X6. Whatever the engine returns is truthy: a file map with at least one
    entry or, from the truncation and pattern strategies, some other value
    that is not empty.  So the last [else] of [generate_api_with_openai],
    which raises "Failed to parse or extract valid JSON", is never
    reached. *)
Theorem recover_never_returns_empty : forall content files,
  recover content = Ok files -> truthy files = true.
Proof.
  intros c f H. unfold recover in H.
  destruct (strict_attempt (prepare c)) as [g|e] eqn:E.
  - injection H as <-. now apply strict_attempt_truthy in E.
  - destruct e; try discriminate H. now apply fallback_truthy in H.
Qed.
End Truthy.

(** [recover_never_returns_empty] on a document of one file. *)
Lemma recover_never_returns_empty_witness :
  truthy (file_map [(txt "a.txt", txt "x")]) = true.
Proof.
  apply (recover_never_returns_empty (lib := plain_lib)
           (dumps_files compact [(txt "a.txt", txt "x")])).
  reflexivity.
Defined.

(** ** After the engine: the wrong dependency files and the README *)

Lemma dict_get_del_other : forall k k' (d : list (text * json)),
  text_eqb k k' = false ->
  dict_get text_eqb k' (dict_del k d) = dict_get text_eqb k' d.
Proof.
  intros k k' d H. induction d as [|[k0 v] d IH]; [reflexivity|].
  cbn [dict_del dict_get]. destruct (text_eqb k k0) eqn:E.
  - apply text_eqb_eq in E. subst k0.
    rewrite text_eqb_sym in H. now rewrite H.
  - cbn [dict_get]. now rewrite IH.
Qed.

Lemma dict_get_del_none : forall k k' (d : list (text * json)),
  dict_get text_eqb k' d = None -> dict_get text_eqb k' (dict_del k d) = None.
Proof.
  intros k k' d. induction d as [|[k0 v] d IH]; intros H; [reflexivity|].
  cbn [dict_del dict_get] in *. destruct (text_eqb k' k0) eqn:E; [discriminate H|].
  destruct (text_eqb k k0); [exact H|]. cbn [dict_get]. rewrite E. auto.
Qed.

Lemma dict_get_has_key : forall {V : Type} k (d : list (text * V)),
  has_key k d = false -> dict_get text_eqb k d = None.
Proof.
  intros V k d. induction d as [|[k0 v] d IH]; intros H; [reflexivity|].
  cbn in H. apply orb_false_iff in H as [H1 H2]. cbn [dict_get]. rewrite H1. auto.
Qed.

Lemma dict_get_del_same : forall k (d : list (text * json)),
  distinct_keys d = true -> dict_get text_eqb k (dict_del k d) = None.
Proof.
  intros k d. induction d as [|[k0 v] d IH]; intros H; [reflexivity|].
  cbn [distinct_keys] in H. apply andb_true_iff in H as [H1 H2].
  apply negb_true_iff in H1. cbn [dict_del]. destruct (text_eqb k k0) eqn:E.
  - apply text_eqb_eq in E. subst k0. now apply dict_get_has_key.
  - cbn [dict_get]. rewrite E. auto.
Qed.

Lemma has_key_del : forall k k' (d : list (text * json)),
  has_key k' d = false -> has_key k' (dict_del k d) = false.
Proof.
  intros k k' d. induction d as [|[k0 v] d IH]; intros H; [reflexivity|].
  cbn in H. apply orb_false_iff in H as [H1 H2]. cbn [dict_del].
  destruct (text_eqb k k0); [exact H2|]. cbn. rewrite H1. now apply IH.
Qed.

Lemma distinct_keys_del : forall k (d : list (text * json)),
  distinct_keys d = true -> distinct_keys (dict_del k d) = true.
Proof.
  intros k d. induction d as [|[k0 v] d IH]; intros H; [reflexivity|].
  cbn [distinct_keys] in H. apply andb_true_iff in H as [H1 H2].
  apply negb_true_iff in H1. cbn [dict_del]. destruct (text_eqb k k0); [exact H2|].
  cbn [distinct_keys]. rewrite IH by exact H2. rewrite andb_true_r.
  apply negb_true_iff. now apply (has_key_del k k0 d).
Qed.


Lemma files_to_remove_from : forall (d : list (text * json)) l acc,
  for_each (fun found k =>
              present <- py_in k (JObj d) ;;
              Ok (if present then found ++ [k] else found)) l acc
  = Ok (acc ++ filter (fun k => dict_mem text_eqb (txt k) d) l).
Proof.
  intros d. induction l as [|k l IH]; intros acc.
  - cbn. now rewrite app_nil_r.
  - cbn [for_each py_in bind filter]. destruct (dict_mem text_eqb (txt k) d).
    + rewrite IH. now rewrite <- app_assoc.
    + apply IH.
Qed.

Lemma files_to_remove_dict : forall language d,
  files_to_remove language (JObj d)
  = Ok (filter (fun k => dict_mem text_eqb (txt k) d) (wrong_files language)).
Proof. intros language d. unfold files_to_remove. now rewrite files_to_remove_from. Qed.

Lemma del_loop_dict : forall names d,
  for_each (fun files k => del_item k files) names (JObj d)
  = Ok (JObj (deleted names d)).
Proof.
  induction names as [|k names IH]; intros d; [reflexivity|].
  cbn [for_each del_item bind]. apply IH.
Qed.

Lemma deleted_cons : forall k names d,
  deleted (k :: names) d = deleted names (dict_del (txt k) d).
Proof. reflexivity. Qed.

Lemma deleted_distinct : forall names d,
  distinct_keys d = true -> distinct_keys (deleted names d) = true.
Proof.
  induction names as [|k names IH]; intros d H; [exact H|].
  rewrite deleted_cons. apply IH. now apply distinct_keys_del.
Qed.

Lemma deleted_other : forall names k d,
  (forall w, In w names -> txt w <> k) ->
  dict_get text_eqb k (deleted names d) = dict_get text_eqb k d.
Proof.
  induction names as [|w names IH]; intros k d H; [reflexivity|].
  rewrite deleted_cons, IH by (intros; apply H; now right).
  apply dict_get_del_other. destruct (text_eqb (txt w) k) eqn:E; [|reflexivity].
  apply text_eqb_eq in E. exfalso. apply (H w); [now left|exact E].
Qed.

Lemma deleted_none : forall names k d,
  dict_get text_eqb k d = None -> dict_get text_eqb k (deleted names d) = None.
Proof.
  induction names as [|w names IH]; intros k d H; [exact H|].
  rewrite deleted_cons. apply IH. now apply dict_get_del_none.
Qed.

Lemma deleted_gone : forall names w d,
  distinct_keys d = true -> In w names ->
  dict_get text_eqb (txt w) (deleted names d) = None.
Proof.
  induction names as [|n names IH]; intros w d Hd Hin; [contradiction|].
  rewrite deleted_cons. destruct Hin as [->|Hin].
  - apply deleted_none. now apply dict_get_del_same.
  - apply IH; [now apply distinct_keys_del|exact Hin].
Qed.

Lemma readme_is_not_wrong : forall language w,
  In w (wrong_files language) -> txt w <> txt "README.md".
Proof.
  intros language w H. unfold wrong_files in H.
  repeat match type of H with
         | In _ (if ?c then _ else _) => destruct c
         end;
    cbn in H; decompose [or] H; try contradiction; subst w; discriminate.
Qed.

Lemma dict_get_set_same : forall k (v : json) d,
  dict_get text_eqb k (dict_set text_eqb k v d) = Some v.
Proof.
  intros k v. induction d as [|[k0 v0] d IH]; cbn [dict_set dict_get].
  - now rewrite text_eqb_refl.
  - destruct (text_eqb k k0) eqn:E; cbn [dict_get]; now rewrite E.
Qed.

Lemma dict_get_set_other : forall k k' (v : json) d,
  text_eqb k' k = false ->
  dict_get text_eqb k' (dict_set text_eqb k v d) = dict_get text_eqb k' d.
Proof.
  intros k k' v d H. induction d as [|[k0 v0] d IH]; cbn [dict_set dict_get].
  - now rewrite H.
  - destruct (text_eqb k k0) eqn:E; cbn [dict_get]; [|now rewrite IH].
    apply text_eqb_eq in E. subst k0. now rewrite H.
Qed.

Lemma text_eqb_neq : forall a b, a <> b -> text_eqb a b = false.
Proof.
  intros a b H. destruct (text_eqb a b) eqn:E; [|reflexivity].
  apply text_eqb_eq in E. contradiction.
Qed.

Lemma dict_mem_get : forall k (d : list (text * json)),
  dict_mem text_eqb k d = false <-> dict_get text_eqb k d = None.
Proof.
  intros k d. unfold dict_mem. destruct (dict_get text_eqb k d); split; congruence.
Qed.

(** What is left of a dict once the wrong files found in it are deleted. *)
Lemma kept_files : forall language d,
  let kept := deleted (filter (fun k => dict_mem text_eqb (txt k) d)
                              (wrong_files language)) d in
  (distinct_keys d = true ->
   forall w, In w (wrong_files language) -> dict_get text_eqb (txt w) kept = None)
  /\ (forall k, (forall w, In w (wrong_files language) -> txt w <> k) ->
                dict_get text_eqb k kept = dict_get text_eqb k d)
  /\ (forall k, dict_get text_eqb k d = None -> dict_get text_eqb k kept = None).
Proof.
  intros language d kept. split; [|split].
  - intros Hd w Hw. destruct (dict_mem text_eqb (txt w) d) eqn:E.
    + apply deleted_gone; [exact Hd|]. apply filter_In. now split.
    + apply deleted_none. now apply dict_mem_get.
  - intros k Hk. apply deleted_other. intros w Hw. apply filter_In in Hw as [Hw _]. auto.
  - intros k Hk. now apply deleted_none.
Qed.

Section Finished.
Context {lib : PyLib}.

Lemma finish_files_dict : forall language pn fw models now d,
  finish_files language pn fw models now (JObj d)
  = let kept := deleted (filter (fun k => dict_mem text_eqb (txt k) d)
                                (wrong_files language)) d in
    if dict_mem text_eqb (txt "README.md") kept then Ok (JObj kept)
    else
      names <- join_names models ;;
      Ok (JObj (dict_set text_eqb (txt "README.md")
                         (JStr (readme_content pn fw now names)) kept)).
Proof.
  intros. unfold finish_files. rewrite files_to_remove_dict. cbn [bind].
  rewrite del_loop_dict. reflexivity.
Qed.

(** X7. What [generate_api_with_openai] returns when the engine gave it a
    dict: a dict that has a [README.md], that has none of the dependency
    files that are wrong for the language (for the Node languages
    [requirements.txt] and [setup.py], for the Python ones [package.json],
    for Java [requirements.txt] and [package.json]), in which every other
    file of the engine keeps its content, and which holds no file the
    engine did not give except the [README.md]. *)
Theorem finish_files_cleans_and_documents :
  forall language pn fw models now d returned,
  distinct_keys d = true ->
  finish_files language pn fw models now (JObj d) = Ok returned ->
  exists d',
    returned = JObj d'
    /\ dict_mem text_eqb (txt "README.md") d' = true
    /\ (forall w, In w (wrong_files language) -> dict_mem text_eqb (txt w) d' = false)
    /\ (forall k, (forall w, In w (wrong_files language) -> txt w <> k) ->
                  dict_mem text_eqb k d = true ->
                  dict_get text_eqb k d' = dict_get text_eqb k d)
    /\ (forall k, dict_mem text_eqb k d' = true ->
                  k = txt "README.md" \/ dict_mem text_eqb k d = true).
Proof.
  intros language pn fw models now d r Hd H. rewrite finish_files_dict in H.
  destruct (kept_files language d) as (K1 & K2 & K3). specialize (K1 Hd).
  cbv zeta in H.
  set (kept := deleted _ d) in *.
  destruct (dict_mem text_eqb (txt "README.md") kept) eqn:R.
  - injection H as <-. exists kept. repeat split.
    + exact R.
    + intros w Hw. apply dict_mem_get. auto.
    + intros k Hk _. auto.
    + intros k Hk. right. destruct (dict_mem text_eqb k d) eqn:E; [reflexivity|].
      apply dict_mem_get in E. apply K3 in E. apply dict_mem_get in E. congruence.
  - destruct (join_names models) as [names|]; cbn [bind] in H; [|discriminate H].
    injection H as <-. eexists. split; [reflexivity|]. repeat split.
    + unfold dict_mem. now rewrite dict_get_set_same.
    + intros w Hw. apply dict_mem_get.
      rewrite dict_get_set_other by (apply text_eqb_neq; now apply readme_is_not_wrong with language).
      auto.
    + intros k Hk Hin.
      destruct (text_eqb k (txt "README.md")) eqn:E.
      * apply text_eqb_eq in E. subst k. unfold dict_mem in Hin, R.
        rewrite <- K2 in Hin by exact Hk. destruct (dict_get text_eqb (txt "README.md") kept);
          discriminate.
      * rewrite dict_get_set_other by exact E. auto.
    + intros k Hk.
      destruct (text_eqb k (txt "README.md")) eqn:E; [left; now apply text_eqb_eq|].
      right. unfold dict_mem in Hk. rewrite dict_get_set_other in Hk by exact E.
      destruct (dict_mem text_eqb k d) eqn:F; [reflexivity|].
      apply dict_mem_get in F. apply K3 in F. now rewrite F in Hk.
Qed.

(** X8. When the engine gave a dict, the end of
    [generate_api_with_openai] fails in one case only: the dict has no
    [README.md] and a model name of the schema is not a string, so that
    the list of models of the generated README cannot be joined (a
    [TypeError]).  With a [README.md] among the files, or with string
    model names, it returns. *)
Theorem finish_files_fails_only_for_the_readme :
  forall language pn fw models now d,
  (dict_mem text_eqb (txt "README.md") d = true \/ forallb is_str models = true ->
   exists returned, finish_files language pn fw models now (JObj d) = Ok returned)
  /\ (dict_mem text_eqb (txt "README.md") d = false ->
      forallb is_str models = false ->
      finish_files language pn fw models now (JObj d) = Raise TypeError).
Proof.
  intros language pn fw models now d. rewrite finish_files_dict.
  destruct (kept_files language d) as (_ & K2 & _). cbv zeta.
  set (kept := deleted _ d) in *.
  assert (dict_mem text_eqb (txt "README.md") kept
          = dict_mem text_eqb (txt "README.md") d) as ->.
  { unfold dict_mem. rewrite K2; [reflexivity|].
    intros w Hw. now apply readme_is_not_wrong with language. }
  unfold join_names. split.
  - intros [->| ->]; [eauto|].
    destruct (dict_mem text_eqb (txt "README.md") d); cbn [bind]; eauto.
  - intros -> ->. reflexivity.
Qed.
End Finished.

(** [finish_files_cleans_and_documents] on the files of a Flask project
    that came with a [package.json]. *)
Lemma finish_files_witness :
  exists d',
    JObj [(txt "app.py", JStr (txt "x"));
          (txt "README.md",
           JStr (readme_content (lib := plain_lib) (JStr (txt "shop"))
                                (JStr (txt "Python Flask")) (txt "2024-01-01 00:00:00")
                                (txt "User, Order")))]
    = JObj d'
    /\ dict_mem text_eqb (txt "README.md") d' = true
    /\ (forall w, In w (wrong_files (JStr (txt "python-flask"))) ->
                  dict_mem text_eqb (txt w) d' = false)
    /\ (forall k, (forall w, In w (wrong_files (JStr (txt "python-flask"))) -> txt w <> k) ->
                  dict_mem text_eqb k [(txt "app.py", JStr (txt "x"));
                                       (txt "package.json", JStr (txt "{}"))] = true ->
                  dict_get text_eqb k d'
                  = dict_get text_eqb k [(txt "app.py", JStr (txt "x"));
                                         (txt "package.json", JStr (txt "{}"))])
    /\ (forall k, dict_mem text_eqb k d' = true ->
                  k = txt "README.md"
                  \/ dict_mem text_eqb k [(txt "app.py", JStr (txt "x"));
                                          (txt "package.json", JStr (txt "{}"))] = true).
Proof.
  apply (finish_files_cleans_and_documents (lib := plain_lib)
           (JStr (txt "python-flask")) (JStr (txt "shop")) (JStr (txt "Python Flask"))
           [JStr (txt "User"); JStr (txt "Order")] (txt "2024-01-01 00:00:00")
           [(txt "app.py", JStr (txt "x")); (txt "package.json", JStr (txt "{}"))]).
  - reflexivity.
  - reflexivity.
Defined.

(** [finish_files_fails_only_for_the_readme] on a schema whose one model
    is named by a number. *)
Lemma finish_files_fails_witness :
  finish_files (lib := plain_lib) (JStr (txt "python-flask")) (JStr (txt "shop"))
               (JStr (txt "Python Flask")) [JInt 5] (txt "2024-01-01 00:00:00")
               (JObj [(txt "app.py", JStr (txt "x"))])
  = Raise TypeError.
Proof.
  apply (proj2 (finish_files_fails_only_for_the_readme (lib := plain_lib)
                  (JStr (txt "python-flask")) (JStr (txt "shop"))
                  (JStr (txt "Python Flask")) [JInt 5] (txt "2024-01-01 00:00:00")
                  [(txt "app.py", JStr (txt "x"))]));
    reflexivity.
Defined.

(** ** [cleanup_old_repos] keeps the newest directories *)

Lemma in_firstn : forall {A : Type} n (l : list A) x, In x (firstn n l) -> In x l.
Proof.
  intros A n l x H. rewrite <- (firstn_skipn n l). apply in_or_app. now left.
Qed.

Lemma in_skipn : forall {A : Type} n (l : list A) x, In x (skipn n l) -> In x l.
Proof.
  intros A n l x H. rewrite <- (firstn_skipn n l). apply in_or_app. now right.
Qed.

Section Cleanup.
Variable getmtime : text -> Z.

Lemma insert_newest_perm : forall p l,
  Permutation (insert_newest getmtime p l) (p :: l).
Proof.
  intros p. induction l as [|x l IH]; [apply Permutation_refl|].
  cbn [insert_newest]. destruct (getmtime x <? getmtime p)%Z; [apply Permutation_refl|].
  apply Permutation_trans with (x :: p :: l); [now apply perm_skip|apply perm_swap].
Qed.

Lemma newest_first_from : forall l acc,
  Permutation (fold_left (fun sorted p => insert_newest getmtime p sorted) l acc)
              (l ++ acc).
Proof.
  induction l as [|p l IH]; intros acc; [apply Permutation_refl|].
  cbn [fold_left app]. eapply Permutation_trans; [apply IH|].
  apply Permutation_trans with (l ++ p :: acc).
  - apply Permutation_app_head, insert_newest_perm.
  - apply Permutation_sym, Permutation_middle.
Qed.

Lemma newest_first_perm : forall l, Permutation (newest_first getmtime l) l.
Proof.
  intros l. unfold newest_first. eapply Permutation_trans; [apply newest_first_from|].
  now rewrite app_nil_r.
Qed.

Lemma insert_newest_sorted : forall p l,
  StronglySorted (fun x y => (getmtime y <= getmtime x)%Z) l ->
  StronglySorted (fun x y => (getmtime y <= getmtime x)%Z) (insert_newest getmtime p l).
Proof.
  intros p. induction l as [|x l IH]; intros H.
  - repeat constructor.
  - apply StronglySorted_inv in H as [H1 H2]. cbn [insert_newest].
    destruct (Z.ltb_spec (getmtime x) (getmtime p)) as [E|E].
    + constructor; [now constructor|]. constructor; [lia|].
      eapply Forall_impl; [|exact H2]. cbn. intros y Hy. lia.
    + constructor; [auto|].
      apply (Permutation_Forall (Permutation_sym (insert_newest_perm p l))).
      now constructor.
Qed.

Lemma newest_first_sorted : forall l,
  StronglySorted (fun x y => (getmtime y <= getmtime x)%Z) (newest_first getmtime l).
Proof.
  intros l. unfold newest_first.
  assert (StronglySorted (fun x y => (getmtime y <= getmtime x)%Z) []) as H
      by constructor.
  revert H. generalize (@nil text). induction l as [|p l IH]; intros acc H; [exact H|].
  cbn [fold_left]. apply IH. now apply insert_newest_sorted.
Qed.

Lemma sorted_split : forall (a b : list text),
  StronglySorted (fun x y => (getmtime y <= getmtime x)%Z) (a ++ b) ->
  forall x y, In x a -> In y b -> (getmtime y <= getmtime x)%Z.
Proof.
  induction a as [|z a IH]; intros b H x y Hx Hy; [contradiction|].
  cbn [app] in H. apply StronglySorted_inv in H as [H1 H2].
  destruct Hx as [->|Hx]; [|eauto].
  rewrite Forall_forall in H2. apply H2. apply in_or_app. now right.
Qed.

Lemma NoDup_split : forall (a b : list text) x,
  NoDup (a ++ b) -> In x a -> ~ In x b.
Proof.
  induction a as [|z a IH]; intros b x H Hx Hb; [contradiction|].
  cbn [app] in H. apply NoDup_cons_iff in H as [H1 H2].
  destruct Hx as [->|Hx]; [|exact (IH b x H2 Hx Hb)].
  apply H1. apply in_or_app. now right.
Qed.

(** X9. [cleanup_old_repos] with a [keep_count] that is not negative keeps
    the newest directories: there are [keep_count] of the listed
    directories (all of them when there are fewer) that are not removed,
    and each of them is at least as new as every directory removed.  Only
    listed directories are removed, at most as many as exceed
    [keep_count], and exactly that many when every removal succeeds. *)
Theorem cleanup_old_repos_keeps_the_newest : forall repo_dirs keep_count removable,
  (0 <= keep_count)%Z ->
  exists kept,
    length kept = Nat.min (Z.to_nat keep_count) (length repo_dirs)
    /\ incl kept repo_dirs
    /\ incl (cleanup_old_repos repo_dirs keep_count getmtime removable) repo_dirs
    /\ (forall k r,
          In k kept ->
          In r (cleanup_old_repos repo_dirs keep_count getmtime removable) ->
          (getmtime r <= getmtime k)%Z)
    /\ (NoDup repo_dirs ->
        forall k, In k kept ->
                  ~ In k (cleanup_old_repos repo_dirs keep_count getmtime removable))
    /\ (length (cleanup_old_repos repo_dirs keep_count getmtime removable)
        <= length repo_dirs - Z.to_nat keep_count)%nat
    /\ ((forall p, removable p = true) ->
        length (cleanup_old_repos repo_dirs keep_count getmtime removable)
        = (length repo_dirs - Z.to_nat keep_count)%nat).
Proof.
  intros dirs keep removable Hk.
  pose proof (newest_first_perm dirs) as P.
  pose proof (newest_first_sorted dirs) as S.
  exists (firstn (Z.to_nat keep) (newest_first getmtime dirs)).
  assert (incl (firstn (Z.to_nat keep) (newest_first getmtime dirs)) dirs) as I1.
  { intros x Hx. apply (Permutation_in _ P). eapply in_firstn; eauto. }
  split; [rewrite length_firstn, (Permutation_length P); reflexivity|].
  split; [exact I1|].
  unfold cleanup_old_repos.
  destruct (Z.leb_spec (Z.of_nat (length dirs)) keep) as [E|E].
  { repeat split; intros; try intro; cbn in *; (contradiction || lia). }
  unfold from_index. destruct (Z.ltb_spec keep 0) as [|_]; [lia|].
  set (sorted := newest_first getmtime dirs) in *.
  assert (forall r, In r (filter removable (skipn (Z.to_nat keep) sorted)) ->
                    In r (skipn (Z.to_nat keep) sorted)) as F
      by (intros r Hr; now apply filter_In in Hr).
  rewrite <- (firstn_skipn (Z.to_nat keep) sorted) in S.
  repeat split.
  - intros r Hr. apply (Permutation_in _ P). eapply in_skipn. apply F, Hr.
  - intros k r Hk' Hr. eapply sorted_split; eauto.
  - intros N k Hk' Hr. apply F in Hr. revert Hr.
    apply NoDup_split with (firstn (Z.to_nat keep) sorted); [|exact Hk'].
    rewrite firstn_skipn. apply (Permutation_NoDup (Permutation_sym P) N).
  - eapply Nat.le_trans; [apply filter_length_le|].
    rewrite length_skipn, (Permutation_length P). lia.
  - intros A. rewrite forallb_filter_id.
    + now rewrite length_skipn, (Permutation_length P).
    + apply forallb_forall. auto.
Qed.
End Cleanup.

(** [cleanup_old_repos_keeps_the_newest] on five clones, listed out of
    order, each as old as the last character of its name says, with the
    default of three to keep: the two oldest are removed, the older
    last. *)
Lemma cleanup_old_repos_witness :
  cleanup_old_repos [txt "r_3"; txt "r_1"; txt "r_5"; txt "r_2"; txt "r_4"] 3
    (fun p => Z.of_N (last p 0%N)) (fun _ => true)
  = [txt "r_2"; txt "r_1"]
  /\ exists kept,
    length kept = Nat.min (Z.to_nat 3) (length [txt "r_3"; txt "r_1"; txt "r_5"; txt "r_2"; txt "r_4"])
    /\ incl kept [txt "r_3"; txt "r_1"; txt "r_5"; txt "r_2"; txt "r_4"]
    /\ incl (cleanup_old_repos [txt "r_3"; txt "r_1"; txt "r_5"; txt "r_2"; txt "r_4"] 3
        (fun p => Z.of_N (last p 0%N)) (fun _ => true))
            [txt "r_3"; txt "r_1"; txt "r_5"; txt "r_2"; txt "r_4"]
    /\ (forall k r,
          In k kept ->
          In r (cleanup_old_repos [txt "r_3"; txt "r_1"; txt "r_5"; txt "r_2"; txt "r_4"] 3
        (fun p => Z.of_N (last p 0%N)) (fun _ => true)) ->
          (Z.of_N (last r 0%N) <= Z.of_N (last k 0%N))%Z)
    /\ (NoDup [txt "r_3"; txt "r_1"; txt "r_5"; txt "r_2"; txt "r_4"] ->
        forall k, In k kept ->
                  ~ In k (cleanup_old_repos [txt "r_3"; txt "r_1"; txt "r_5"; txt "r_2"; txt "r_4"] 3
        (fun p => Z.of_N (last p 0%N)) (fun _ => true)))
    /\ (length (cleanup_old_repos [txt "r_3"; txt "r_1"; txt "r_5"; txt "r_2"; txt "r_4"] 3
        (fun p => Z.of_N (last p 0%N)) (fun _ => true))
        <= length [txt "r_3"; txt "r_1"; txt "r_5"; txt "r_2"; txt "r_4"] - Z.to_nat 3)%nat
    /\ ((forall p : text, (fun _ => true) p = true) ->
        length (cleanup_old_repos [txt "r_3"; txt "r_1"; txt "r_5"; txt "r_2"; txt "r_4"] 3
        (fun p => Z.of_N (last p 0%N)) (fun _ => true))
        = (length [txt "r_3"; txt "r_1"; txt "r_5"; txt "r_2"; txt "r_4"] - Z.to_nat 3)%nat).
Proof.
  split; [reflexivity|].
  apply (cleanup_old_repos_keeps_the_newest (fun p => Z.of_N (last p 0%N))
           [txt "r_3"; txt "r_1"; txt "r_5"; txt "r_2"; txt "r_4"] 3 (fun _ => true)).
  lia.
Defined.

(** ** Repository addresses *)

Lemma split_on_not_nil : forall c s, split_on c s <> [].
Proof.
  intros c [|x s]; cbn [split_on]; [discriminate|].
  destruct (x =? c); [discriminate|]. destruct (split_on c s); discriminate.
Qed.

Lemma split_on_app : forall c pre s,
  split_on c (pre ++ c :: s) = split_on c pre ++ split_on c s.
Proof.
  intros c pre s. induction pre as [|x pre IH].
  - cbn [app split_on]. now rewrite N.eqb_refl.
  - cbn [app split_on]. destruct (x =? c); [now rewrite IH|].
    rewrite IH. destruct (split_on c pre) as [|p parts] eqn:E; [|reflexivity].
    now apply split_on_not_nil in E.
Qed.

Lemma split_on_absent : forall c s,
  existsb (N.eqb c) s = false -> split_on c s = [s].
Proof.
  intros c. induction s as [|x s IH]; intros H; [reflexivity|].
  cbn [existsb] in H. apply orb_false_iff in H as [H1 H2].
  cbn [split_on]. rewrite N.eqb_sym, H1, IH by exact H2. reflexivity.
Qed.

Lemma last_app_not_nil : forall (a b : list text) d,
  b <> [] -> last (a ++ b) d = last b d.
Proof.
  induction a as [|x a IH]; intros b d H; [reflexivity|].
  cbn [app]. rewrite <- (IH b d H).
  destruct (a ++ b) eqn:E; [|reflexivity].
  apply app_eq_nil in E as [_ ->]. contradiction.
Qed.

(** The last segment of a path. *)
Lemma last_segment : forall base s,
  existsb (N.eqb SLASH) s = false ->
  last (split_on SLASH (base ++ SLASH :: s)) [] = s.
Proof.
  intros base s H. rewrite split_on_app, last_app_not_nil by apply split_on_not_nil.
  now rewrite split_on_absent.
Qed.

Lemma replace_absent : forall old new s,
  contains old s = false -> replace old new s = s.
Proof.
  intros old new s H. apply re_sub_no_match.
  induction s as [|c s IH]; [reflexivity|].
  cbn [contains] in H. apply orb_false_iff in H as [H1 H2].
  cbn [matches_in]. now rewrite H1, IH.
Qed.

Lemma re_sub_skip : forall m o s,
  re_sub_from m (length o) (o ++ s) = re_sub_from m 0 s.
Proof.
  intros m. induction o as [|c o IH]; intros s; [reflexivity|].
  cbn [length app re_sub_from]. apply IH.
Qed.

Lemma replace_here : forall c o new s,
  replace (c :: o) new ((c :: o) ++ s) = new ++ replace (c :: o) new s.
Proof.
  intros c o new s. unfold replace, re_sub. cbn [app re_sub_from].
  change (startswith (c :: o) (c :: o ++ s)) with (startswith (c :: o) ((c :: o) ++ s)).
  rewrite startswith_app. cbn [length]. now rewrite re_sub_skip.
Qed.

Lemma replace_next : forall old new x s,
  startswith old (x :: s) = false ->
  replace old new (x :: s) = x :: replace old new s.
Proof.
  intros old new x s H. unfold replace, re_sub. cbn [re_sub_from]. now rewrite H.
Qed.

(** [.git] does not overlap itself: it begins in a text that does not
    hold it only where the text ends. *)
Lemma dot_git_starts_late : forall x a rest,
  contains (txt ".git") (x :: a) = false ->
  startswith (txt ".git") ((x :: a) ++ txt ".git" ++ rest) = false.
Proof.
  intros x a rest H. cbn [contains] in H. apply orb_false_iff in H as [H _].
  change (txt ".git") with [46; 103; 105; 116] in *.
  cbn [app startswith] in *.
  destruct (46 =? x); [|reflexivity]. cbn [andb] in *.
  destruct a as [|y a]; [reflexivity|]. cbn [app startswith] in *.
  destruct (103 =? y); [|reflexivity]. cbn [andb] in *.
  destruct a as [|z a]; [reflexivity|]. cbn [app startswith] in *.
  destruct (105 =? z); [|reflexivity]. cbn [andb] in *.
  destruct a as [|w a]; [reflexivity|]. cbn [app startswith] in *.
  destruct (116 =? w); [discriminate H|reflexivity].
Qed.

Lemma replace_dot_git : forall a b,
  contains (txt ".git") a = false -> contains (txt ".git") b = false ->
  replace (txt ".git") [] (a ++ txt ".git" ++ b) = a ++ b.
Proof.
  induction a as [|x a IH]; intros b Ha Hb.
  - cbn [app]. change (txt ".git") with [46; 103; 105; 116].
    rewrite replace_here. cbn [app]. now apply replace_absent.
  - change ((x :: a) ++ txt ".git" ++ b) with (x :: (a ++ txt ".git" ++ b)).
    rewrite replace_next by (apply (dot_git_starts_late x a b Ha)).
    cbn [app]. f_equal. apply IH; [|exact Hb].
    cbn [contains] in Ha. now apply orb_false_iff in Ha.
Qed.

(** X10. The repository name is the text after the last slash of the URL
    with [.git] deleted wherever it stands in it, not only at its end: a
    last segment [a.git] gives [a], and a last segment that holds [.git]
    in its middle loses it too.  A last segment without [.git] is the
    name, and a URL that ends with a slash has the empty name. *)
Theorem repo_name_deletes_dot_git : forall base a b,
  existsb (N.eqb SLASH) a = false -> existsb (N.eqb SLASH) b = false ->
  contains (txt ".git") a = false -> contains (txt ".git") b = false ->
  repo_name_of (JStr (base ++ SLASH :: a ++ txt ".git" ++ b)) = Ok (a ++ b)
  /\ repo_name_of (JStr (base ++ SLASH :: a)) = Ok a
  /\ repo_name_of (JStr (base ++ [SLASH])) = Ok [].
Proof.
  intros base a b Sa Sb Ha Hb. unfold repo_name_of. repeat split.
  - rewrite last_segment by (rewrite !existsb_app, Sa, Sb; reflexivity).
    now rewrite replace_dot_git.
  - rewrite last_segment by exact Sa. now rewrite replace_absent.
  - now rewrite last_segment.
Qed.

(** [repo_name_deletes_dot_git] on the repository of a site. *)
Lemma repo_name_witness :
  repo_name_of (JStr (txt "https://github.com/me" ++ SLASH :: txt "me" ++ txt ".git" ++ txt "hub.io"))
  = Ok (txt "me" ++ txt "hub.io")
  /\ repo_name_of (JStr (txt "https://github.com/me" ++ SLASH :: txt "me")) = Ok (txt "me")
  /\ repo_name_of (JStr (txt "https://github.com/me" ++ [SLASH])) = Ok [].
Proof.
  apply (repo_name_deletes_dot_git (txt "https://github.com/me") (txt "me") (txt "hub.io"));
    reflexivity.
Defined.

Lemma load_destination_with_token : forall g token,
  truthy token = true ->
  load_destination (JObj [(txt "git_config", JObj ((txt "token", token) :: g))])
  = let repo_url := get "repo_url" g in
    if negb (truthy repo_url) then Ok (inl "Missing git configuration"%string)
    else
      auth_url <- (insert <- py_in "https://" repo_url ;;
                   if insert then
                     u <- replace_in (txt "https://") (txt "https://{token}@") repo_url ;;
                     Ok (JStr u)
                   else Ok repo_url) ;;
      repo_name <- repo_name_of repo_url ;;
      Ok (inr (auth_url, repo_name)).
Proof.
  intros g token H. unfold load_destination, auth_url_of.
  cbn [items bind].
  change (get "git_config" [(txt "git_config", JObj ((txt "token", token) :: g))])
    with (JObj ((txt "token", token) :: g)).
  cbn [truthy negb items bind].
  change (get "repo_url" ((txt "token", token) :: g)) with (get "repo_url" g).
  change (get "token" ((txt "token", token) :: g)) with token.
  now rewrite H.
Qed.

(** X11. [load_git_repo] never puts the token into the URL it clones: its
    f-string writes the braces and the word [token] themselves, so two
    requests that differ only in their (non-empty) tokens are answered
    alike, with the same URL to clone; for a URL that holds [https://]
    that URL has [https://{token}@] in the place of each [https://]. *)
Theorem load_git_repo_never_inserts_the_token : forall g token1 token2,
  truthy token1 = true -> truthy token2 = true ->
  load_destination (JObj [(txt "git_config", JObj ((txt "token", token1) :: g))])
  = load_destination (JObj [(txt "git_config", JObj ((txt "token", token2) :: g))])
  /\ forall u name,
       get "repo_url" g = JStr u -> contains (txt "https://") u = true ->
       repo_name_of (JStr u) = Ok name ->
       load_destination (JObj [(txt "git_config", JObj ((txt "token", token1) :: g))])
       = Ok (inr (JStr (replace (txt "https://") (txt "https://{token}@") u), name)).
Proof.
  intros g t1 t2 H1 H2. rewrite !load_destination_with_token by assumption.
  split; [reflexivity|]. intros u name Hu Hc Hn. cbv zeta. rewrite Hu.
  destruct u as [|c u]; [discriminate Hc|].
  cbn [truthy negb py_in bind replace_in]. rewrite Hc. cbn [bind].
  now rewrite Hn.
Qed.

(** [load_git_repo_never_inserts_the_token] on two requests for one
    repository. *)
Lemma load_git_repo_witness :
  load_destination
    (JObj [(txt "git_config",
            JObj [(txt "token", JStr (txt "secret"));
                  (txt "repo_url", JStr (txt "https://github.com/me/app.git"))])])
  = load_destination
    (JObj [(txt "git_config",
            JObj [(txt "token", JStr (txt "other"));
                  (txt "repo_url", JStr (txt "https://github.com/me/app.git"))])])
  /\ forall u name,
       get "repo_url" [(txt "repo_url", JStr (txt "https://github.com/me/app.git"))]
       = JStr u ->
       contains (txt "https://") u = true ->
       repo_name_of (JStr u) = Ok name ->
       load_destination
         (JObj [(txt "git_config",
                 JObj [(txt "token", JStr (txt "secret"));
                       (txt "repo_url", JStr (txt "https://github.com/me/app.git"))])])
       = Ok (inr (JStr (replace (txt "https://") (txt "https://{token}@") u), name)).
Proof.
  apply (load_git_repo_never_inserts_the_token
           [(txt "repo_url", JStr (txt "https://github.com/me/app.git"))]
           (JStr (txt "secret")) (JStr (txt "other")));
    reflexivity.
Defined.

Section Push.
Context {lib : PyLib}.

(** X12. What [push_to_git] lets through its checks: a request that is a
    dict, with files, whose [git_config] is a dict with a [repo_url] that
    is a string beginning with [http://] or [https://]; a token when the
    URL names [github.com]; and, when a token goes into the URL (there is
    one and the URL holds [https://]), a URL without [@] and a token
    without a colon, the URL cloned being the URL with [https://TOKEN@]
    for each [https://].  Otherwise (no token, or an [http://] URL) the
    URL is cloned as it is. *)
Theorem push_to_git_lets_through : forall data auth_url repo_name,
  push_destination data = Ok (inr (auth_url, repo_name)) ->
  exists d g u,
    data = JObj d /\ get "git_config" d = JObj g /\ get "repo_url" g = JStr u
    /\ truthy (get "files" d) = true
    /\ (startswith (txt "http://") u = true \/ startswith (txt "https://") u = true)
    /\ (contains (txt "github.com") u = true -> truthy (get "token" g) = true)
    /\ repo_name_of (JStr u) = Ok repo_name
    /\ (truthy (get "token" g) = true -> contains (txt "https://") u = true ->
        contains (txt "@") u = false
        /\ py_in ":" (get "token" g) = Ok false
        /\ auth_url = JStr (replace (txt "https://") (with_token (get "token" g)) u))
    /\ (truthy (get "token" g) = false \/ contains (txt "https://") u = false ->
        auth_url = JStr u).
Proof.
  intros data auth name H. unfold push_destination in H.
  destruct data as [| | | | | |d]; try discriminate H. cbn [items bind] in H.
  destruct (truthy (get "git_config" d)) eqn:Tg; cbn [negb] in H; [|discriminate H].
  destruct (get "git_config" d) as [| | | | | |g] eqn:G; try discriminate H.
  cbn [items bind] in H.
  destruct (truthy (get "repo_url" g)) eqn:Tu; cbn [negb] in H; [|discriminate H].
  destruct (truthy (get "files" d)) eqn:Tf; cbn [negb] in H; [|discriminate H].
  destruct (get "repo_url" g) as [| | | | u| |] eqn:U; try discriminate H.
  exists d, g, u. split; [reflexivity|]. split; [exact G|].
  split; [exact U|]. split; [exact Tf|].
  destruct (startswith (txt "http://") u || startswith (txt "https://") u) eqn:S;
    cbn [negb] in H; [|discriminate H].
  split; [now apply orb_true_iff|].
  destruct (contains (txt "github.com") u) eqn:Gh;
    destruct (truthy (get "token" g)) eqn:Tt; cbn [andb negb] in H;
    try discriminate H.
  - split; [reflexivity|].
    destruct (contains (txt "https://") u) eqn:Hs.
    + destruct (contains (txt "@") u) eqn:At; [discriminate H|].
      destruct (py_in ":" (get "token" g)) as [[|]|] eqn:C; cbn [bind] in H;
        try discriminate H.
      destruct (repo_name_of (JStr u)) as [n|] eqn:N; cbn [bind] in H; [|discriminate H].
      injection H as <- <-. split; [reflexivity|]. split; [auto|].
      intros [F|F]; discriminate F.
    + destruct (repo_name_of (JStr u)) as [n|] eqn:N; cbn [bind] in H; [|discriminate H].
      injection H as <- <-. split; [reflexivity|]. split; [|reflexivity].
      intros _ F. discriminate F.
  - split; [discriminate|].
    destruct (contains (txt "https://") u) eqn:Hs.
    + destruct (contains (txt "@") u) eqn:At; [discriminate H|].
      destruct (py_in ":" (get "token" g)) as [[|]|] eqn:C; cbn [bind] in H;
        try discriminate H.
      destruct (repo_name_of (JStr u)) as [n|] eqn:N; cbn [bind] in H; [|discriminate H].
      injection H as <- <-. split; [reflexivity|]. split; [auto|].
      intros [F|F]; discriminate F.
    + destruct (repo_name_of (JStr u)) as [n|] eqn:N; cbn [bind] in H; [|discriminate H].
      injection H as <- <-. split; [reflexivity|]. split; [|reflexivity].
      intros _ F. discriminate F.
  - split; [discriminate|].
    destruct (repo_name_of (JStr u)) as [n|] eqn:N; cbn [bind] in H; [|discriminate H].
    injection H as <- <-. split; [reflexivity|]. split; [|reflexivity].
    intros F. discriminate F.
Qed.
End Push.

(** [push_to_git_lets_through] on a request for a repository of GitHub. *)
Lemma push_to_git_witness :
  exists d g u,
    JObj [(txt "git_config",
           JObj [(txt "repo_url", JStr (txt "https://github.com/me/app.git"));
                 (txt "token", JStr (txt "secret"))]);
          (txt "files", JObj [(txt "a.txt", JStr (txt "x"))])]
    = JObj d /\ get "git_config" d = JObj g /\ get "repo_url" g = JStr u
    /\ truthy (get "files" d) = true
    /\ (startswith (txt "http://") u = true \/ startswith (txt "https://") u = true)
    /\ (contains (txt "github.com") u = true -> truthy (get "token" g) = true)
    /\ repo_name_of (JStr u) = Ok (txt "app")
    /\ (truthy (get "token" g) = true -> contains (txt "https://") u = true ->
        contains (txt "@") u = false
        /\ py_in ":" (get "token" g) = Ok false
        /\ JStr (txt "https://secret@github.com/me/app.git")
           = JStr (replace (txt "https://")
                           (with_token (lib := plain_lib) (get "token" g)) u))
    /\ (truthy (get "token" g) = false \/ contains (txt "https://") u = false ->
        JStr (txt "https://secret@github.com/me/app.git") = JStr u).
Proof.
  apply (push_to_git_lets_through (lib := plain_lib)
           (JObj [(txt "git_config",
                   JObj [(txt "repo_url", JStr (txt "https://github.com/me/app.git"));
                         (txt "token", JStr (txt "secret"))]);
                  (txt "files", JObj [(txt "a.txt", JStr (txt "x"))])])
           (JStr (txt "https://secret@github.com/me/app.git")) (txt "app")).
  reflexivity.
Defined.

(** ** The entities of a loaded project *)

Lemma startswith_split : forall p u v,
  startswith p (u ++ v) = true ->
  startswith p u = true \/ exists q, q <> [] /\ p = u ++ q /\ startswith q v = true.
Proof.
  induction p as [|x p IH]; intros u v H; [now left|].
  destruct u as [|y u].
  - right. exists (x :: p). repeat split; [discriminate|exact H].
  - cbn [app startswith] in *. apply andb_true_iff in H as [E H].
    rewrite E. cbn [andb]. destruct (IH u v H) as [L|(q & Hq & -> & R)]; [now left|].
    right. exists q. apply N.eqb_eq in E. subst y. auto.
Qed.

Lemma contains_absent_char : forall c o s,
  existsb (N.eqb c) s = false -> contains (c :: o) s = false.
Proof.
  intros c o. induction s as [|x s IH]; intros H; [reflexivity|].
  cbn [existsb] in H. apply orb_false_iff in H as [H1 H2].
  cbn [contains startswith]. now rewrite H1, IH.
Qed.

(** A word whose first character comes once in it begins, in a text that
    does not hold it and is followed by it, only where the text ends. *)
Lemma word_starts_late : forall c o x a rest,
  existsb (N.eqb c) o = false ->
  contains (c :: o) (x :: a) = false ->
  startswith (c :: o) ((x :: a) ++ (c :: o) ++ rest) = false.
Proof.
  intros c o x a rest Hc H.
  destruct (startswith (c :: o) ((x :: a) ++ (c :: o) ++ rest)) eqn:E; [|reflexivity].
  apply startswith_split in E as [E|(q & Hq & E & S)].
  - cbn [contains] in H. apply orb_false_iff in H as [H _]. congruence.
  - injection E as -> ->. destruct q as [|y q]; [contradiction|].
    cbn [app startswith] in S. apply andb_true_iff in S as [S _].
    apply N.eqb_eq in S. subst y.
    rewrite existsb_app in Hc. cbn [existsb] in Hc.
    rewrite N.eqb_refl, orb_true_r in Hc. discriminate Hc.
Qed.

Lemma replace_word : forall c o a b,
  existsb (N.eqb c) o = false ->
  contains (c :: o) a = false -> contains (c :: o) b = false ->
  replace (c :: o) [] (a ++ (c :: o) ++ b) = a ++ b.
Proof.
  intros c o a b Hc. induction a as [|x a IH]; intros Ha Hb.
  - cbn [app]. change (c :: o ++ b) with ((c :: o) ++ b).
    rewrite replace_here. cbn [app]. now apply replace_absent.
  - change ((x :: a) ++ (c :: o) ++ b) with (x :: (a ++ (c :: o) ++ b)).
    rewrite replace_next by (apply (word_starts_late c o x a b Hc Ha)).
    cbn [app]. f_equal. apply IH; [|exact Hb].
    cbn [contains] in Ha. now apply orb_false_iff in Ha.
Qed.

Lemma contains_app : forall p a b, contains p (a ++ p ++ b) = true.
Proof.
  intros p a b. induction a as [|x a IH].
  - cbn [app]. destruct (p ++ b) eqn:E; cbn [contains]; rewrite <- E;
      now rewrite startswith_app.
  - cbn [app contains]. rewrite IH. apply orb_true_r.
Qed.

Lemma endswith_app : forall p s, endswith p (s ++ p) = true.
Proof. intros p s. unfold endswith. rewrite rev_app_distr. apply startswith_app. Qed.

Lemma existsb_app_false : forall (f : N -> bool) a b,
  existsb f a = false -> existsb f b = false -> existsb f (a ++ b) = false.
Proof. intros f a b Ha Hb. now rewrite existsb_app, Ha, Hb. Qed.

(** X13. A Java file in an [entity] folder marks the class it is named
    after as an existing entity: for a class name without a slash and
    without a dot that does not hold [DTO], the file
    [.../entity/Name.java] stands for [Name]. *)
Theorem entity_folder_marks_the_class : forall dir name,
  existsb (N.eqb SLASH) name = false ->
  existsb (N.eqb 46) name = false ->
  contains (txt "DTO") name = false ->
  entity_of (dir ++ txt "/entity/" ++ name ++ txt ".java") = Some name.
Proof.
  intros dir name Hs Hd Ho. unfold entity_of.
  rewrite (app_assoc dir), (app_assoc (dir ++ _)), endswith_app.
  rewrite <- !app_assoc, contains_app. cbn [orb].
  change (dir ++ txt "/entity/" ++ name ++ txt ".java")
    with (dir ++ txt "/entity" ++ SLASH :: (name ++ txt ".java")).
  rewrite (app_assoc dir), last_segment
    by (apply existsb_app_false; [exact Hs|reflexivity]).
  rewrite <- (app_nil_r (name ++ txt ".java")), <- app_assoc.
  change (txt ".java") with (46 :: txt "java").
  rewrite replace_word; [|reflexivity|now apply contains_absent_char|reflexivity].
  rewrite app_nil_r. now rewrite replace_absent.
Qed.

(** [entity_folder_marks_the_class] on a file of a Spring project. *)
Lemma entity_folder_witness :
  entity_of (txt "src/main/java/com/shop" ++ txt "/entity/" ++ txt "Order" ++ txt ".java")
  = Some (txt "Order").
Proof.
  apply (entity_folder_marks_the_class (txt "src/main/java/com/shop") (txt "Order"));
    reflexivity.
Defined.

Lemma endswith_false : forall p q s,
  (forall r, startswith (rev p) (rev q ++ r) = false) ->
  endswith p (s ++ q) = false.
Proof. intros p q s H. unfold endswith. rewrite rev_app_distr. apply H. Qed.

(** X14. Outside an [entity] folder a Java file named after a layer marks
    the entity of that layer as existing: for a name without a slash and
    without a dot that does not hold the suffix, the files
    [NameRepository.java], [NameService.java] and [NameController.java]
    each stand for [Name]. *)
Theorem layer_file_marks_the_entity : forall dir name suffix,
  In suffix ["Repository"; "Service"; "Controller"]%string ->
  existsb (N.eqb SLASH) name = false ->
  existsb (N.eqb 46) name = false ->
  contains (txt suffix) name = false ->
  contains (txt "/entity/") (dir ++ SLASH :: name ++ txt suffix ++ txt ".java") = false ->
  entity_of (dir ++ SLASH :: name ++ txt suffix ++ txt ".java") = Some name.
Proof.
  intros dir name suffix Hin Hs Hd Hn He. unfold entity_of. rewrite He.
  assert (endswith (txt ".java") (dir ++ SLASH :: name ++ txt suffix ++ txt ".java")
          = true) as ->.
  { change (dir ++ SLASH :: name ++ txt suffix ++ txt ".java")
      with (dir ++ [SLASH] ++ name ++ txt suffix ++ txt ".java").
    rewrite !app_assoc. apply endswith_app. }
  assert (existsb (N.eqb SLASH) (txt suffix) = false
          /\ existsb (N.eqb 46) (txt suffix) = false
          /\ endswith (txt "DTO.java")
                      (dir ++ SLASH :: name ++ txt suffix ++ txt ".java") = false
          /\ List.find (fun x => endswith (txt x) (name ++ txt suffix))
                       ["Repository"; "Service"; "Controller"]%string = Some suffix
          /\ exists c o, txt suffix = c :: o /\ existsb (N.eqb c) o = false)
    as (S1 & S2 & S3 & S4 & c & o & S5 & S6).
  { cbn [In] in Hin. decompose [or] Hin; try contradiction; subst suffix;
      (split; [reflexivity|]); (split; [reflexivity|]); (split; [|split]).
    all: try (eexists; eexists; split; reflexivity).
    all: try (change (dir ++ SLASH :: name ++ ?x ++ ?y)
                with (dir ++ (SLASH :: name) ++ (x ++ y));
              rewrite app_assoc; apply endswith_false; intros r; reflexivity).
    - cbn [List.find]. now rewrite endswith_app.
    - cbn [List.find]. rewrite endswith_false by (intros r; reflexivity).
      now rewrite endswith_app.
    - cbn [List.find]. rewrite !endswith_false by (intros r; reflexivity).
      now rewrite endswith_app. }
  rewrite S3. cbn [orb].
  rewrite last_segment
    by (repeat apply existsb_app_false; (assumption || reflexivity)).
  assert (replace (txt ".java") [] (name ++ txt suffix ++ txt ".java")
          = name ++ txt suffix) as ->.
  { rewrite app_assoc, <- (app_nil_r ((name ++ txt suffix) ++ txt ".java")), <- app_assoc.
    change (txt ".java") with (46 :: txt "java").
    rewrite replace_word; [apply app_nil_r|reflexivity| |reflexivity].
    apply contains_absent_char. now apply existsb_app_false. }
  assert (existsb (fun x => contains (txt x) (name ++ txt suffix))
                  ["Repository"; "Service"; "Controller"]%string = true) as ->.
  { apply existsb_exists. exists suffix. split; [exact Hin|].
    pose proof (contains_app (txt suffix) name []) as C. now rewrite app_nil_r in C. }
  rewrite S4. f_equal.
  rewrite <- (app_nil_r (name ++ txt suffix)), <- app_assoc.
  rewrite S5 in *. rewrite replace_word; [apply app_nil_r|exact S6|exact Hn|reflexivity].
Qed.

(** [layer_file_marks_the_entity] on a service of a Spring project. *)
Lemma layer_file_witness :
  entity_of (txt "src/main/java/com/shop/service" ++ SLASH :: txt "Order"
               ++ txt "Service" ++ txt ".java")
  = Some (txt "Order").
Proof.
  apply (layer_file_marks_the_entity (txt "src/main/java/com/shop/service")
           (txt "Order") "Service"%string).
  - right. left. reflexivity.
  - reflexivity.
  - reflexivity.
  - reflexivity.
  - reflexivity.
Defined.

(** ** What [generate_api] generates from *)

Lemma in_existing_entities : forall paths s,
  In s (existing_entities paths) <-> exists p, In p paths /\ entity_of p = Some s.
Proof.
  intros paths s. unfold existing_entities. rewrite in_flat_map. split.
  - intros (p & Hp & H). exists p. split; [exact Hp|].
    destruct (entity_of p) as [e|]; [|contradiction]. destruct H as [->|[]]. reflexivity.
  - intros (p & Hp & H). exists p. split; [exact Hp|]. rewrite H. now left.
Qed.

Lemma is_existing_in : forall existing s,
  In s existing -> is_existing existing (JStr s) = true.
Proof.
  intros existing s H. apply existsb_exists. exists s. split; [exact H|].
  apply text_eqb_refl.
Qed.

Lemma check_schema_inr : forall schema checked,
  check_schema schema = inr checked ->
  checked = schema /\ model_names schema <> []
  /\ (forall v, schema = Original v ->
        exists entries,
          v = JObj entries
          /\ forallb (fun kv : text * json => is_dict (snd kv)) entries = true).
Proof.
  intros [[|m n]|v] checked H; cbn [check_schema] in H; try discriminate H.
  - injection H as <-. repeat split; [discriminate|]. intros v E. discriminate E.
  - destruct v as [| | | | | |[|kv d]]; try discriminate H.
    destruct (forallb _ (kv :: d)) eqn:F; [|discriminate H].
    injection H as <-. repeat split; [discriminate|].
    intros v E. injection E as <-. eauto.
Qed.

Section Accepts.
Context {lib : PyLib}.

Lemma filter_existing_inr : forall existing schema filtered,
  filter_existing existing schema = Ok (inr filtered) ->
  incl (model_names filtered) (model_names schema)
  /\ forall s, In s existing -> ~ In (JStr s) (model_names filtered).
Proof.
  intros existing [ms|v] filtered H; cbn [filter_existing] in H.
  - destruct (filter _ ms) as [|m f] eqn:F; [discriminate H|].
    destruct (_ && _); [discriminate H|]. injection H as <-. rewrite <- F.
    cbn [model_names]. split.
    + intros x Hx. apply in_map_iff in Hx as (y & <- & Hy).
      apply filter_In in Hy as [Hy _]. now apply in_map.
    + intros s Hs Hx. apply in_map_iff in Hx as (y & E & Hy).
      apply filter_In in Hy as [_ Hy]. rewrite E, is_existing_in in Hy by exact Hs.
      discriminate Hy.
  - destruct v as [| | | | | |d]; try discriminate H.
    destruct (filter _ d) as [|m f] eqn:F; [discriminate H|].
    injection H as <-. rewrite <- F. cbn [model_names]. split.
    + intros x Hx. apply in_map_iff in Hx as (y & <- & Hy).
      apply filter_In in Hy as [Hy _].
      now apply (in_map (fun kv : text * json => JStr (fst kv))).
    + intros s Hs Hx. apply in_map_iff in Hx as (y & E & Hy).
      apply filter_In in Hy as [_ Hy]. rewrite E, is_existing_in in Hy by exact Hs.
      discriminate Hy.
Qed.

(** X15. What [generate_api] calls the generator with.  The request is a
    dict and the schema is what [normalize_schema] returned for its
    [schema], less the entities of the loaded project: a dict that is not
    empty (of models the normalizer found, or the schema itself with a dict
    for every value), whose names are names of the normalizer's result,
    none of them an entity that a file of [existing_files] stands for; and
    when no file stands for an entity it is the normalizer's result
    itself. *)
Theorem generate_api_accepts : forall data schema,
  accept data = Ok (inr schema) ->
  exists d returned,
    data = JObj d
    /\ normalize_schema (get "schema" d) = Ok returned
    /\ model_names schema <> []
    /\ (forall v, schema = Original v ->
          exists entries,
            v = JObj entries
            /\ forallb (fun kv : text * json => is_dict (snd kv)) entries = true)
    /\ incl (model_names schema) (model_names returned)
    /\ (forall files p s,
          dict_get text_eqb (txt "existing_files") d = Some (JObj files) ->
          In p (map fst files) -> entity_of p = Some s ->
          ~ In (JStr s) (model_names schema))
    /\ ((forall files p,
           dict_get text_eqb (txt "existing_files") d = Some (JObj files) ->
           In p (map fst files) -> entity_of p = None) ->
        schema = returned).
Proof.
  intros data schema H. unfold accept in H.
  destruct (first_missing _ data) as [[f|]|]; cbn [bind] in H; try discriminate H.
  destruct data as [| | | | | |d]; try discriminate H.
  exists d.
  destruct (if truthy _ then _ else _) as [ex|] eqn:X; cbn [bind] in H; [|discriminate H].
  assert (forall files,
             dict_get text_eqb (txt "existing_files") d = Some (JObj files) ->
             ex = existing_entities (map fst files)) as X1.
  { intros files E. rewrite E in X. destruct files; cbn [truthy] in X; now injection X. }
  assert (ex = [] \/ exists files,
             dict_get text_eqb (txt "existing_files") d = Some (JObj files)) as X2.
  { destruct (dict_get text_eqb (txt "existing_files") d) as [v|]; [|left; now injection X].
    destruct (truthy v); [|left; now injection X].
    destruct v; try discriminate X. eauto. }
  clear X.
  destruct (normalize_schema (get "schema" d)) as [N|]; cbn [bind] in H; [|discriminate H].
  exists N. split; [reflexivity|]. split; [reflexivity|].
  destruct ex as [|e ex].
  - cbn [bind] in H. injection H as H. apply check_schema_inr in H as (-> & H1 & H2).
    split; [exact H1|]. split; [exact H2|]. split; [apply incl_refl|].
    split; [|reflexivity].
    intros files p s E Hp Hs. apply X1 in E. symmetry in E.
    assert (In s (existing_entities (map fst files))) as I
        by (apply in_existing_entities; eauto).
    rewrite E in I. contradiction.
  - destruct (filter_existing (e :: ex) N) as [[msg|S]|] eqn:F; cbn [bind] in H;
      try discriminate H.
    injection H as H. apply check_schema_inr in H as (-> & H1 & H2).
    apply filter_existing_inr in F as [F1 F2].
    split; [exact H1|]. split; [exact H2|]. split; [exact F1|]. split.
    + intros files p s E Hp Hs. apply F2. rewrite (X1 files E).
      apply in_existing_entities. eauto.
    + intros H0. exfalso. destruct X2 as [X2|[files E]]; [discriminate X2|].
      assert (In e (existing_entities (map fst files))) as I
          by (rewrite <- (X1 files E); now left).
      apply in_existing_entities in I as (p & Hp & Hs).
      rewrite (H0 files p E Hp) in Hs. discriminate Hs.
Qed.
End Accepts.

(** [generate_api_accepts] on a request for two models, one of them in the
    loaded project. *)
Lemma generate_api_accepts_witness :
  exists d returned,
    JObj [(txt "project_name", JStr (txt "shop"));
          (txt "language", JStr (txt "java-spring"));
          (txt "schema",
           JObj [(txt "Order", JObj [(txt "id", JStr (txt "int"))]);
                 (txt "Item", JObj [(txt "id", JStr (txt "int"))])]);
          (txt "existing_files",
           JObj [(txt "src/main/java/com/shop/entity/Order.java", JStr (txt "x"))])]
    = JObj d
    /\ normalize_schema (lib := plain_lib) (get "schema" d) = Ok returned
    /\ model_names (Normalized [(JStr (txt "Item"), [(JStr (txt "id"), integer)])]) <> []
    /\ (forall v,
          Normalized [(JStr (txt "Item"), [(JStr (txt "id"), integer)])] = Original v ->
          exists entries,
            v = JObj entries
            /\ forallb (fun kv : text * json => is_dict (snd kv)) entries = true)
    /\ incl (model_names (Normalized [(JStr (txt "Item"), [(JStr (txt "id"), integer)])]))
            (model_names returned)
    /\ (forall files p s,
          dict_get text_eqb (txt "existing_files") d = Some (JObj files) ->
          In p (map fst files) -> entity_of p = Some s ->
          ~ In (JStr s)
               (model_names (Normalized [(JStr (txt "Item"), [(JStr (txt "id"), integer)])])))
    /\ ((forall files p,
           dict_get text_eqb (txt "existing_files") d = Some (JObj files) ->
           In p (map fst files) -> entity_of p = None) ->
        Normalized [(JStr (txt "Item"), [(JStr (txt "id"), integer)])] = returned).
Proof.
  apply (generate_api_accepts (lib := plain_lib)).
  reflexivity.
Defined.

(** ** The package of a loaded project *)

Lemma split_on_join : forall c parts,
  parts <> [] ->
  (forall p, In p parts -> existsb (N.eqb c) p = false) ->
  split_on c (join [c] parts) = parts.
Proof.
  intros c. induction parts as [|p parts IH]; intros Hne H; [contradiction|].
  destruct parts as [|q parts].
  - cbn [join]. apply split_on_absent. apply H. now left.
  - change (join [c] (p :: q :: parts)) with (p ++ c :: join [c] (q :: parts)).
    rewrite split_on_app, split_on_absent by (apply H; now left).
    rewrite IH; [reflexivity|discriminate|]. intros x Hx. apply H. now right.
Qed.

Lemma index_of_app : forall x ps l,
  (forall p, In p ps -> text_eqb p x = false) ->
  index_of x (ps ++ x :: l) = length ps.
Proof.
  intros x. induction ps as [|p ps IH]; intros l H.
  - cbn [app index_of length]. now rewrite text_eqb_refl.
  - cbn [app index_of length]. rewrite (H p) by now left.
    f_equal. apply IH. intros q Hq. apply H. now right.
Qed.

Lemma existsb_all_false : forall (f : text -> bool) l,
  (forall p, In p l -> f p = false) -> existsb f l = false.
Proof.
  intros f. induction l as [|p l IH]; intros H; [reflexivity|].
  cbn [existsb]. rewrite (H p) by now left. apply IH. intros q Hq. apply H. now right.
Qed.

(** X16. The package detected for a loaded project is the dotted path of
    its first Java source: for the first file of [existing_files], under
    [src/main/java/], in the folders [p1/.../pn] (no slash in a name, none
    of them [entity], the dotted path not empty, no other [src/main/java/]
    in the path), the package is [p1. ... .pn], whether the file lies in
    an [entity] folder below them or in the last of them. *)
Theorem detect_package_is_the_dotted_path : forall folders file others,
  (forall p, In p folders -> existsb (N.eqb SLASH) p = false) ->
  existsb (N.eqb SLASH) file = false ->
  (forall p, In p folders -> text_eqb p (txt "entity") = false) ->
  text_eqb file (txt "entity") = false ->
  join (txt ".") folders <> [] ->
  contains (txt "src/main/java/")
           (join (txt "/") (folders ++ [txt "entity"; file])) = false ->
  contains (txt "src/main/java/") (join (txt "/") (folders ++ [file])) = false ->
  detect_package
    ((txt "src/main/java/" ++ join (txt "/") (folders ++ [txt "entity"; file])) :: others)
  = Some (join (txt ".") folders)
  /\ detect_package
       ((txt "src/main/java/" ++ join (txt "/") (folders ++ [file])) :: others)
     = Some (join (txt ".") folders).
Proof.
  intros ps file others Hs Hf He Hfe Hj C1 C2.
  change (txt "/") with [SLASH] in *.
  assert (forall parts, contains (txt "src/main/java/") (join [SLASH] parts) = false ->
            replace (txt "src/main/java/") [] (txt "src/main/java/" ++ join [SLASH] parts)
            = join [SLASH] parts) as R.
  { intros parts C. change (txt "src/main/java/") with (115 :: txt "rc/main/java/") in *.
    rewrite replace_here. now apply replace_absent. }
  split; cbn [detect_package]; rewrite startswith_app, R by assumption.
  - rewrite split_on_join;
      [|now destruct ps
       |intros p Hp; apply in_app_or in Hp as [Hp|[<-|[<-|[]]]]; auto].
    match goal with
    | |- context [(1 <? ?n)%nat] =>
      replace (1 <? n)%nat with true
        by (symmetry; apply Nat.ltb_lt; rewrite length_app; cbn [length]; lia)
    end.
    match goal with
    | |- context [existsb ?f ?l] =>
      replace (existsb f l) with true
        by (symmetry; rewrite existsb_app; cbn [existsb];
            rewrite text_eqb_refl; cbn [orb]; apply orb_true_r)
    end.
    rewrite index_of_app by exact He.
    rewrite firstn_app, Nat.sub_diag, firstn_all. cbn [firstn]. rewrite app_nil_r.
    destruct (join (txt ".") ps); [contradiction|reflexivity].
  - rewrite split_on_join;
      [|now destruct ps
       |intros p Hp; apply in_app_or in Hp as [Hp|[<-|[]]]; auto].
    match goal with
    | |- context [(1 <? ?n)%nat] => replace (1 <? n)%nat with true
    end.
    2:{ symmetry. apply Nat.ltb_lt. rewrite length_app. cbn [length].
        destruct ps; [contradiction Hj; reflexivity|cbn [length]; lia]. }
    rewrite existsb_all_false
      by (intros p Hp; apply in_app_or in Hp as [Hp|[<-|[]]]; auto).
    rewrite removelast_last.
    destruct (join (txt ".") ps); [contradiction|reflexivity].
Qed.

(** [detect_package_is_the_dotted_path] on the sources of a shop. *)
Lemma detect_package_witness :
  detect_package
    ((txt "src/main/java/"
        ++ join (txt "/") ([txt "com"; txt "shop"] ++ [txt "entity"; txt "Order.java"]))
       :: [txt "pom.xml"])
  = Some (join (txt ".") [txt "com"; txt "shop"])
  /\ detect_package
       ((txt "src/main/java/"
           ++ join (txt "/") ([txt "com"; txt "shop"] ++ [txt "Order.java"]))
          :: [txt "pom.xml"])
     = Some (join (txt ".") [txt "com"; txt "shop"]).
Proof.
  apply (detect_package_is_the_dotted_path [txt "com"; txt "shop"] (txt "Order.java")
           [txt "pom.xml"]).
  - intros p [<-|[<-|[]]]; reflexivity.
  - reflexivity.
  - intros p [<-|[<-|[]]]; reflexivity.
  - reflexivity.
  - discriminate.
  - reflexivity.
  - reflexivity.
Defined.

(** ** The Python package of a repository *)

Lemma insert_shortest_perm : forall p l, Permutation (insert_shortest p l) (p :: l).
Proof.
  intros p. induction l as [|x l IH]; [apply Permutation_refl|].
  cbn [insert_shortest]. destruct (length p <? length x)%nat; [apply Permutation_refl|].
  apply Permutation_trans with (x :: p :: l); [now apply perm_skip|apply perm_swap].
Qed.

Lemma shortest_first_from : forall l acc,
  Permutation (fold_left (fun sorted p => insert_shortest p sorted) l acc) (l ++ acc).
Proof.
  induction l as [|p l IH]; intros acc; [apply Permutation_refl|].
  cbn [fold_left app]. eapply Permutation_trans; [apply IH|].
  apply Permutation_trans with (l ++ p :: acc).
  - apply Permutation_app_head, insert_shortest_perm.
  - apply Permutation_sym, Permutation_middle.
Qed.

Lemma shortest_first_perm : forall l, Permutation (shortest_first l) l.
Proof.
  intros l. unfold shortest_first. eapply Permutation_trans; [apply shortest_first_from|].
  now rewrite app_nil_r.
Qed.

Lemma insert_shortest_sorted : forall p l,
  StronglySorted (fun x y : text => (length x <= length y)%nat) l ->
  StronglySorted (fun x y : text => (length x <= length y)%nat) (insert_shortest p l).
Proof.
  intros p. induction l as [|x l IH]; intros H.
  - repeat constructor.
  - apply StronglySorted_inv in H as [H1 H2]. cbn [insert_shortest].
    destruct (Nat.ltb_spec (length p) (length x)) as [E|E].
    + constructor; [now constructor|]. constructor; [lia|].
      eapply Forall_impl; [|exact H2]. cbn. intros y Hy. lia.
    + constructor; [auto|].
      apply (Permutation_Forall (Permutation_sym (insert_shortest_perm p l))).
      now constructor.
Qed.

Lemma shortest_first_sorted : forall l,
  StronglySorted (fun x y : text => (length x <= length y)%nat) (shortest_first l).
Proof.
  intros l. unfold shortest_first.
  assert (StronglySorted (fun x y : text => (length x <= length y)%nat) []) as H
      by constructor.
  revert H. generalize (@nil text). induction l as [|p l IH]; intros acc H; [exact H|].
  cbn [fold_left]. apply IH. now apply insert_shortest_sorted.
Qed.

Lemma existsb_all_false_strings : forall (f : string -> bool) l,
  (forall x, In x l -> f x = false) -> existsb f l = false.
Proof.
  intros f. induction l as [|x l IH]; intros H; [reflexivity|].
  cbn [existsb]. rewrite (H x) by now left. apply IH. intros y Hy. apply H. now right.
Qed.

Section PackageOf.
Context {lib : PyLib}.

(** X17. The Python package that [extract_project_metadata] settles on is
    a shortest one among the directories with an [__init__.py], the
    repository's own directory apart, whose dotted path holds, in lower
    case, none of [test], [tests], [docs], [examples], [build], [dist]
    anywhere in it (so not as a part of a word either, as in
    [latest]): it is the dotted path of such a directory, and no other
    such directory has a shorter one. *)
Theorem python_package_is_a_shortest : forall sep rel_paths package,
  python_package sep rel_paths = Some package ->
  (exists rel_path,
      In rel_path rel_paths /\ rel_path <> txt "."
      /\ package = replace [sep] (txt ".") rel_path)
  /\ (forall x, In x unwanted_words -> contains (txt x) (py_lower package) = false)
  /\ (forall rel_path,
        In rel_path rel_paths -> rel_path <> txt "." ->
        (forall x, In x unwanted_words ->
                   contains (txt x) (py_lower (replace [sep] (txt ".") rel_path)) = false) ->
        (length package <= length (replace [sep] (txt ".") rel_path))%nat).
Proof.
  intros sep rel_paths package H. unfold python_package in H.
  pose proof (shortest_first_perm (flat_map (potential_package sep) rel_paths)) as P.
  pose proof (shortest_first_sorted (flat_map (potential_package sep) rel_paths)) as S.
  destruct (shortest_first _) as [|p rest]; [discriminate H|]. injection H as ->.
  assert (forall q, In q (flat_map (potential_package sep) rel_paths) <->
                    exists r, In r rel_paths /\ r <> txt "."
                              /\ q = replace [sep] (txt ".") r
                              /\ existsb (fun x => contains (txt x) (py_lower q))
                                         unwanted_words = false) as F.
  { intros q. rewrite in_flat_map. unfold potential_package.
    split; intros (r & Hr & H); exists r; (split; [exact Hr|]).
    - destruct (text_eqb r (txt ".")) eqn:E; [contradiction|].
      destruct (existsb _ unwanted_words) eqn:U; [contradiction|].
      destruct H as [<-|[]]. repeat split; [|exact U].
      intros ->. now rewrite text_eqb_refl in E.
    - destruct H as (Hd & -> & U). rewrite text_eqb_neq by exact Hd.
      rewrite U. now left. }
  assert (In package (flat_map (potential_package sep) rel_paths)) as I
      by (apply (Permutation_in _ P); now left).
  apply F in I as (r & Hr & Hd & E & U). split; [eauto|]. split.
  - intros x Hx. destruct (contains (txt x) (py_lower package)) eqn:C; [|reflexivity].
    assert (existsb (fun x => contains (txt x) (py_lower package)) unwanted_words = true)
      by (apply existsb_exists; eauto).
    congruence.
  - intros r' Hr' Hd' U'.
    assert (In (replace [sep] (txt ".") r') (flat_map (potential_package sep) rel_paths))
      as I.
    { apply F. exists r'. repeat split; try assumption.
      apply existsb_all_false_strings. exact U'. }
    apply (Permutation_in _ (Permutation_sym P)) in I. destruct I as [<-|I]; [lia|].
    apply StronglySorted_inv in S as [_ S]. rewrite Forall_forall in S. now apply S.
Qed.
End PackageOf.

(** [python_package_is_a_shortest] on a repository with a package, a
    subpackage and its tests. *)
Lemma python_package_witness :
  (exists rel_path,
      In rel_path [txt "shop/api"; txt "shop"; txt "tests"]
      /\ rel_path <> txt "."
      /\ txt "shop" = replace [SLASH] (txt ".") rel_path)
  /\ (forall x, In x unwanted_words ->
                contains (txt x) (py_lower (lib := plain_lib) (txt "shop")) = false)
  /\ (forall rel_path,
        In rel_path [txt "shop/api"; txt "shop"; txt "tests"] -> rel_path <> txt "." ->
        (forall x, In x unwanted_words ->
                   contains (txt x)
                            (py_lower (lib := plain_lib)
                                      (replace [SLASH] (txt ".") rel_path)) = false) ->
        (length (txt "shop") <= length (replace [SLASH] (txt ".") rel_path))%nat).
Proof.
  apply (python_package_is_a_shortest (lib := plain_lib) SLASH
           [txt "shop/api"; txt "shop"; txt "tests"] (txt "shop")).
  reflexivity.
Defined.

(** ** No [//] is left by the fixer of common issues *)

Lemma re_sub_from_skipn : forall m n s,
  re_sub_from m n s = re_sub_from m 0 (skipn n s).
Proof.
  intros m. induction n as [|n IH]; intros [|c r]; try reflexivity.
  cbn [re_sub_from skipn]. apply IH.
Qed.

Lemma re_sub_step : forall m c r,
  re_sub m (c :: r)
  = match m (c :: r) with
    | Some (repl, S k) => repl ++ re_sub m (skipn k r)
    | _ => c :: re_sub m r
    end.
Proof.
  intros m c r. unfold re_sub. cbn [re_sub_from].
  destruct (m (c :: r)) as [[repl [|k]]|]; try reflexivity.
  now rewrite re_sub_from_skipn.
Qed.

Lemma line_rest_stops : forall r,
  skipn (line_rest r) r = [] \/ exists t, skipn (line_rest r) r = NL :: t.
Proof.
  induction r as [|c r IH]; [now left|]. cbn [line_rest].
  destruct (c =? 10) eqn:E; [|exact IH].
  right. apply N.eqb_eq in E. subst c. now exists r.
Qed.

Lemma contains_skipn : forall p n s,
  contains p s = false -> contains p (skipn n s) = false.
Proof.
  intros p. induction n as [|n IH]; intros [|c s] H; try assumption.
  cbn [contains] in H. apply orb_false_iff in H as [_ H]. cbn [skipn]. auto.
Qed.

Lemma contains_exists : forall p s,
  contains p s = true <-> exists a b, s = a ++ p ++ b.
Proof.
  intros p s. split.
  - induction s as [|c s IH]; intros H; cbn [contains] in H;
      apply orb_true_iff in H as [H|H]; try discriminate H.
    + exists [], []. destruct p; [reflexivity|discriminate H].
    + exists []. cbn [app]. revert H. generalize (c :: s). clear.
      induction p as [|x p IH]; intros l H; [now exists l|].
      destruct l as [|y l]; [discriminate H|].
      cbn [startswith] in H. apply andb_true_iff in H as [E H].
      apply N.eqb_eq in E. subst y. destruct (IH l H) as [b ->]. now exists b.
    + destruct (IH H) as (a & b & ->). exists (c :: a), b. reflexivity.
  - intros (a & b & ->). apply contains_app.
Qed.

Lemma double_slash_rev : forall s,
  contains (txt "//") s = false -> contains (txt "//") (rev s) = false.
Proof.
  intros s H. destruct (contains (txt "//") (rev s)) eqn:E; [|reflexivity].
  apply contains_exists in E as (a & b & E).
  apply (f_equal (@rev _)) in E. rewrite rev_involutive, !rev_app_distr in E.
  change (rev (txt "//")) with (txt "//") in E. rewrite <- app_assoc in E.
  rewrite E, contains_app in H. discriminate H.
Qed.

Lemma lstrip_skipn : forall s, exists k, lstrip s = skipn k s.
Proof.
  induction s as [|c s [k IH]]; [now exists 0%nat|]. cbn [lstrip].
  destruct (isspace c); [now exists (S k)|now exists 0%nat].
Qed.

Lemma double_slash_strip : forall s,
  contains (txt "//") s = false -> contains (txt "//") (strip s) = false.
Proof.
  intros s H. unfold strip. apply double_slash_rev.
  destruct (lstrip_skipn (rev (lstrip s))) as [k ->]. apply contains_skipn.
  apply double_slash_rev. destruct (lstrip_skipn s) as [j ->]. now apply contains_skipn.
Qed.

(** After the line comments are taken out no [//] is left, and the text
    begins with a slash only where it did. *)
Lemma line_comments_gone : forall n s,
  (length s <= n)%nat ->
  contains (txt "//") (re_sub line_comment s) = false
  /\ (startswith [SLASH] (re_sub line_comment s) = true ->
      startswith [SLASH] s = true /\ startswith (txt "//") s = false).
Proof.
  change (txt "//") with [SLASH; SLASH].
  induction n as [|n IH]; intros s L.
  - destruct s; [|cbn in L; lia]. split; [reflexivity|discriminate].
  - destruct s as [|a [|b r]].
    + split; [reflexivity|discriminate].
    + cbn. rewrite !andb_false_r. split; [reflexivity|]. intros H. now rewrite H.
    + rewrite re_sub_step.
      change (line_comment (a :: b :: r))
        with (if (a =? SLASH) && (b =? SLASH)
              then Some (@nil N, S (S (line_rest r))) else None).
      destruct ((a =? 47) && (b =? 47)) eqn:M.
      * cbn [app skipn].
        assert (length (skipn (line_rest r) r) <= n)%nat as L'
            by (rewrite length_skipn; cbn [length] in L; lia).
        destruct (IH _ L') as [C P].
        split; [exact C|]. intros H. apply P in H as [H _].
        destruct (line_rest_stops r) as [E|[t E]]; rewrite E in H; discriminate H.
      * assert (length (b :: r) <= n)%nat as L' by (cbn [length] in *; lia).
        destruct (IH _ L') as [C P].
        cbn [contains startswith]. rewrite C, orb_false_r.
        rewrite (N.eqb_sym 47 a), (N.eqb_sym 47 b).
        destruct (a =? 47) eqn:A; cbn [andb] in *; [|split; [reflexivity|discriminate]].
        rewrite M. split; [|auto].
        destruct (re_sub line_comment (b :: r)) as [|x y] eqn:R; [reflexivity|].
        cbn [startswith]. rewrite andb_true_r.
        destruct (47 =? x) eqn:X; [|reflexivity].
        assert (startswith [SLASH] (x :: y) = true) as S
            by (cbn [startswith]; now rewrite X).
        apply P in S as [S _]. cbn [startswith] in S. rewrite andb_true_r in S.
        rewrite N.eqb_sym in S. congruence.
Qed.

(** Taking the block comments out of a text without [//] leaves it
    without [//]: what follows a comment cannot begin with a slash that
    was not there before, since a comment ends with one. *)
Lemma block_comments_keep : forall n s,
  (length s <= n)%nat ->
  contains (txt "//") s = false ->
  contains (txt "//") (re_sub block_comment s) = false
  /\ (startswith [SLASH] (re_sub block_comment s) = true -> startswith [SLASH] s = true).
Proof.
  change (txt "//") with [SLASH; SLASH].
  induction n as [|n IH]; intros s L H.
  - destruct s; [|cbn in L; lia]. split; [reflexivity|discriminate].
  - destruct s as [|a [|b r]].
    + split; [reflexivity|discriminate].
    + cbn. rewrite !andb_false_r. split; [reflexivity|]. intros E. now rewrite E.
    + assert (forall k, contains [SLASH; SLASH] (skipn k (b :: r)) = false) as Hk.
      { intros k. apply contains_skipn. cbn [contains] in H.
        now apply orb_false_iff in H. }
      assert (forall k, (length (skipn k (b :: r)) <= n)%nat) as Lk
          by (intros k; rewrite length_skipn; cbn [length] in *; lia).
      assert (contains [SLASH; SLASH] (a :: re_sub block_comment (b :: r)) = false
              /\ (startswith [SLASH] (a :: re_sub block_comment (b :: r)) = true ->
                  startswith [SLASH] (a :: b :: r) = true)) as Keep.
      { destruct (IH _ (Lk 0%nat) (Hk 0%nat)) as [C P]. cbn [skipn] in C, P.
        split; [|intros E; exact E].
        cbn [contains]. rewrite C, orb_false_r.
        cbn [contains] in H. apply orb_false_iff in H as [H _].
        destruct (re_sub block_comment (b :: r)) as [|x y] eqn:R;
          [cbn; now rewrite andb_false_r|].
        cbn [startswith] in *. rewrite andb_true_r in *.
        destruct (47 =? a); [|reflexivity]. cbn [andb] in *.
        destruct (47 =? x) eqn:X; [|reflexivity].
        pose proof (P eq_refl) as Q. rewrite ?andb_true_r in *. congruence. }
      rewrite re_sub_step.
      change (block_comment (a :: b :: r))
        with (if (a =? SLASH) && (b =? STAR)
              then match comment_close r with
                   | Some k => Some (@nil N, (4 + k)%nat)
                   | None => None
                   end
              else None).
      destruct ((a =? 47) && (b =? 42)) eqn:M; [|exact Keep].
      destruct (comment_close r) as [k|]; [|exact Keep].
      cbn [Nat.add app].
      destruct (IH _ (Lk (S (S (S k)))) (Hk (S (S (S k))))) as [C P].
      split; [exact C|].
      intros _. apply andb_true_iff in M as [M _]. cbn [startswith].
      now rewrite N.eqb_sym, M.
Qed.

Lemma quote_closer_keeps : forall closer,
  (47 =? closer) = false ->
  forall n s,
  (length s <= n)%nat ->
  contains (txt "//") s = false ->
  contains (txt "//") (re_sub (quote_closer_quote closer) s) = false
  /\ (startswith [SLASH] (re_sub (quote_closer_quote closer) s) = true ->
      startswith [SLASH] s = true).
Proof.
  change (txt "//") with [SLASH; SLASH].
  intros closer Hc. induction n as [|n IH]; intros s L H.
  - destruct s; [|cbn in L; lia]. split; [reflexivity|discriminate].
  - destruct s as [|a r]; [split; [reflexivity|discriminate]|].
    assert (forall k, contains [SLASH; SLASH] (skipn k r) = false) as Hk.
    { intros k. apply contains_skipn. cbn [contains] in H.
      now apply orb_false_iff in H. }
    assert (forall k, (length (skipn k r) <= n)%nat) as Lk
        by (intros k; rewrite length_skipn; cbn [length] in *; lia).
    assert (contains [SLASH; SLASH] (a :: re_sub (quote_closer_quote closer) r) = false
            /\ (startswith [SLASH] (a :: re_sub (quote_closer_quote closer) r) = true ->
                startswith [SLASH] (a :: r) = true)) as Keep.
    { destruct (IH _ (Lk 0%nat) (Hk 0%nat)) as [C P]. cbn [skipn] in C, P.
      split; [|intros E; exact E].
      cbn [contains]. rewrite C, orb_false_r.
      cbn [contains] in H. apply orb_false_iff in H as [H _].
      destruct (re_sub (quote_closer_quote closer) r) as [|x y] eqn:R;
        [cbn; now rewrite andb_false_r|].
      cbn [startswith] in *. rewrite andb_true_r in *.
      destruct (47 =? a); [|reflexivity]. cbn [andb] in *.
      destruct (47 =? x) eqn:X; [|reflexivity].
      destruct r as [|b r']; [discriminate (P eq_refl)|].
      cbn [startswith] in *. rewrite andb_true_r in *.
      pose proof (P eq_refl) as Q. rewrite ?andb_true_r in *. congruence. }
    rewrite re_sub_step.
    destruct (quote_closer_quote closer (a :: r)) as [[repl [|k]]|] eqn:M;
      try exact Keep.
    assert (repl = [DQUOTE; closer; COMMA; NL; DQUOTE]) as ->.
    { unfold quote_closer_quote in M. destruct (a =? 34); [|discriminate M].
      destruct (skipn _ r) as [|d r1]; [discriminate M|].
      destruct (d =? closer); [|discriminate M].
      destruct (skipn _ r1) as [|q2 r2]; [discriminate M|].
      destruct (q2 =? 34); [|discriminate M]. now injection M. }
    destruct (IH _ (Lk k) (Hk k)) as [C P].
    cbn [app contains startswith]. rewrite Hc, C. cbn [N.eqb Pos.eqb andb orb].
    split; [reflexivity|discriminate].
Qed.

(** X18. What [fix_json_common_issues] returns holds no [//]: the line
    comments are taken out wherever two slashes stand, inside strings too,
    up to the end of the line, and the later steps bring none back.  So no
    URL written with [//] in a file's content passes the fallback
    strategies, which all clean their text with it. *)
Theorem fix_json_common_issues_leaves_no_double_slash : forall text0,
  contains (txt "//") (fix_json_common_issues text0) = false.
Proof.
  intros t. unfold fix_json_common_issues. cbv zeta.
  apply double_slash_strip.
  apply (quote_closer_keeps RBRACK eq_refl _ _ (le_n _)).
  apply (quote_closer_keeps RBRACE eq_refl _ _ (le_n _)).
  apply (block_comments_keep _ _ (le_n _)).
  apply (line_comments_gone _ _ (le_n _)).
Qed.

(** ** The files of a cloned repository *)

Lemma collected_app : forall l1 l2 files,
  collected (l1 ++ l2) files = collected l2 (collected l1 files).
Proof. intros. unfold collected. apply fold_left_app. Qed.

Lemma length_dict_set_le : forall k (v : text) d,
  (length (dict_set text_eqb k v d) <= S (length d))%nat.
Proof.
  intros k v. induction d as [|[k' v'] d IH]; cbn [dict_set length]; [lia|].
  destruct (text_eqb k k'); cbn [length]; lia.
Qed.

Lemma length_collected_le : forall l files,
  (length (collected l files) <= length files + length l)%nat.
Proof.
  induction l as [|[k v] l IH]; intros files; cbn [length].
  - unfold collected. cbn [fold_left]. lia.
  - change (collected ((k, v) :: l) files)
      with (collected l (dict_set text_eqb k v files)).
    pose proof (IH (dict_set text_eqb k v files)).
    pose proof (length_dict_set_le k v files). lia.
Qed.

(** The loop over one directory takes its readable files, as many as the
    count leaves room for. *)
Lemma read_files_firstn : forall prefix filenames files file_count,
  (file_count <= MAX_FILES)%nat ->
  read_files prefix filenames files file_count
  = (collected (firstn (MAX_FILES - file_count) (flat_map (readable prefix) filenames))
               files,
     file_count
     + length (firstn (MAX_FILES - file_count) (flat_map (readable prefix) filenames)))%nat.
Proof.
  intros prefix. induction filenames as [|[filename [size content]] rest IH];
    intros files n Hn.
  - cbn [read_files flat_map]. rewrite firstn_nil. cbn [length].
    now rewrite Nat.add_0_r.
  - cbn [read_files].
    destruct (Nat.leb_spec MAX_FILES n) as [Hfull|Hroom].
    + replace (MAX_FILES - n)%nat with 0%nat by lia. cbn [firstn length].
      now rewrite Nat.add_0_r.
    + cbn [flat_map readable]. destruct (MAX_SIZE <? size)%Z.
      * destruct content; cbn [app]; now apply IH.
      * destruct content as [t|]; cbn [app]; [|now apply IH].
        replace (MAX_FILES - n)%nat with (S (MAX_FILES - S n)) by lia.
        cbn [firstn length]. rewrite IH by lia.
        rewrite Nat.add_succ_r. reflexivity.
Qed.

(** So does the loop over the directories. *)
Lemma read_dirs_firstn : forall yielded files file_count,
  (file_count <= MAX_FILES)%nat ->
  read_dirs yielded files file_count
  = (collected (firstn (MAX_FILES - file_count) (readable_files yielded)) files,
     file_count + length (firstn (MAX_FILES - file_count) (readable_files yielded)))%nat.
Proof.
  induction yielded as [|[prefix filenames] rest IH]; intros files n Hn.
  - cbn [read_dirs readable_files flat_map]. rewrite firstn_nil. cbn [length].
    now rewrite Nat.add_0_r.
  - cbn [read_dirs]. rewrite read_files_firstn by exact Hn.
    change (readable_files ((prefix, filenames) :: rest))
      with (flat_map (readable prefix) filenames ++ readable_files rest).
    set (here := flat_map (readable prefix) filenames).
    rewrite firstn_app, collected_app, length_app, length_firstn.
    destruct (Nat.leb_spec MAX_FILES (n + Nat.min (MAX_FILES - n) (length here)))
      as [Hfull|Hroom].
    + replace (MAX_FILES - n - length here)%nat with 0%nat by lia.
      cbn [firstn length]. unfold collected at 1. cbn [fold_left].
      now rewrite Nat.add_0_r.
    + rewrite IH by lia.
      replace (MAX_FILES - (n + Nat.min (MAX_FILES - n) (length here)))%nat
        with (MAX_FILES - n - length here)%nat by lia.
      rewrite Nat.add_assoc. reflexivity.
Qed.

(** X19. The files [load_git_repo] returns are the first hundred readable
    files of the walk, a later file of the same path replacing the text of
    an earlier one: the files not larger than 100 KB that decode as UTF-8,
    in the order in which [os.walk] comes to them; a file that is skipped
    does not count.  There are at most a hundred of them. *)
Theorem load_files_are_the_first_readable : forall repo,
  load_files repo = collected (firstn 100 (readable_files (walked [] repo))) []
  /\ (length (load_files repo) <= 100)%nat.
Proof.
  intros repo. unfold load_files.
  rewrite read_dirs_firstn by (unfold MAX_FILES; lia).
  rewrite Nat.sub_0_r. cbn [fst]. split; [reflexivity|].
  pose proof (length_collected_le
                (firstn MAX_FILES (readable_files (walked [] repo))) []) as H.
  rewrite length_firstn in H. cbn [length] in H. unfold MAX_FILES in *. lia.
Qed.

(** The walk does not see what stands under a directory taken out of
    [dirs]. *)
Lemma walked_without_pruned : forall d prefix,
  walked prefix (without_pruned d) = walked prefix d.
Proof.
  fix IH 1. intros [filenames dirs] prefix. cbn [walked without_pruned]. f_equal.
  induction dirs as [|[name sub] l IHl]; [reflexivity|].
  destruct (pruned name) eqn:E.
  - cbn [app]. exact IHl.
  - rewrite E. rewrite IH. f_equal. exact IHl.
Qed.

(** X20. Nothing that stands under a [.git] or a [__pycache__] directory,
    at any depth of the clone, has a part in what [load_git_repo] returns:
    the files are those of the repository without these directories. *)
Theorem load_files_skips_git_and_pycache : forall repo,
  load_files (without_pruned repo) = load_files repo.
Proof.
  intros repo. unfold load_files. now rewrite walked_without_pruned.
Qed.

(** ** Pushing by hand and pushing after a generation *)

Section Same.
Context {lib : PyLib}.

(** X21. The checks of [push_to_git] only refuse: a request they let
    through is cloned from the URL, and under the repository name, that
    [handle_git_operations] takes for the same [git_config] after a
    generation. *)
Theorem push_to_git_goes_where_generation_pushes : forall d auth_url repo_name,
  push_destination (JObj d) = Ok (inr (auth_url, repo_name)) ->
  git_destination (get "git_config" d) = Ok (Some (auth_url, repo_name)).
Proof.
  intros d auth name H. unfold push_destination in H. cbn [items bind] in H.
  unfold git_destination.
  destruct (truthy (get "git_config" d)) eqn:Tg; cbn [negb] in H |- *; [|discriminate H].
  destruct (get "git_config" d) as [| | | | | |g] eqn:G; try discriminate H.
  cbn [items bind] in H |- *.
  destruct (truthy (get "repo_url" g)) eqn:Tu; cbn [negb] in H |- *; [|discriminate H].
  destruct (truthy (get "files" d)); cbn [negb] in H; [|discriminate H].
  destruct (get "repo_url" g) as [| | | | u| |] eqn:U; try discriminate H.
  destruct (startswith (txt "http://") u || startswith (txt "https://") u);
    cbn [negb] in H; [|discriminate H].
  destruct (contains (txt "github.com") u && negb (truthy (get "token" g)));
    [discriminate H|].
  unfold auth_url_of. cbn [py_in replace_in].
  destruct (truthy (get "token" g)); cbn [andb] in H.
  - destruct (contains (txt "https://") u); cbn [bind].
    + destruct (contains (txt "@") u); [discriminate H|].
      destruct (py_in ":" (get "token" g)) as [[|]|]; cbn [bind] in H;
        try discriminate H.
      destruct (repo_name_of (JStr u)) as [n|]; cbn [bind] in H |- *; [|discriminate H].
      now injection H as <- <-.
    + destruct (repo_name_of (JStr u)) as [n|]; cbn [bind] in H |- *; [|discriminate H].
      now injection H as <- <-.
  - cbn [bind].
    destruct (repo_name_of (JStr u)) as [n|]; cbn [bind] in H |- *; [|discriminate H].
    now injection H as <- <-.
Qed.
End Same.

(** [push_to_git_goes_where_generation_pushes] on a request for a
    repository of GitHub. *)
Lemma push_to_git_same_witness :
  git_destination (lib := plain_lib)
    (get "git_config"
         [(txt "git_config",
           JObj [(txt "repo_url", JStr (txt "https://github.com/me/app.git"));
                 (txt "token", JStr (txt "secret"))]);
          (txt "files", JObj [(txt "a.txt", JStr (txt "x"))])])
  = Ok (Some (JStr (txt "https://secret@github.com/me/app.git"), txt "app")).
Proof.
  apply (push_to_git_goes_where_generation_pushes (lib := plain_lib)).
  reflexivity.
Defined.

(** ** The Java package of a loaded project *)

Lemma replace_char_app : forall c new a b,
  existsb (N.eqb c) a = false ->
  replace [c] new (a ++ c :: b) = a ++ new ++ replace [c] new b.
Proof.
  intros c new. induction a as [|x a IH]; intros b H.
  - cbn [app]. change (c :: b) with ([c] ++ b). now rewrite replace_here.
  - cbn [existsb] in H. apply orb_false_iff in H as [H1 H2].
    cbn [app]. rewrite replace_next by (cbn [startswith]; now rewrite H1).
    f_equal. now apply IH.
Qed.

Lemma replace_join : forall c ps,
  (forall p, In p ps -> existsb (N.eqb c) p = false) ->
  replace [c] (txt ".") (join [c] ps) = join (txt ".") ps.
Proof.
  intros c. induction ps as [|p ps IH]; intros H; [reflexivity|].
  destruct ps as [|q ps].
  - cbn [join]. apply replace_absent, contains_absent_char, H. now left.
  - change (join [c] (p :: q :: ps)) with (p ++ c :: join [c] (q :: ps)).
    rewrite replace_char_app by (apply H; now left).
    rewrite IH by (intros x Hx; apply H; now right). reflexivity.
Qed.

Lemma first_package_app : forall sep l1 l2 p,
  first_package sep l1 = Some p -> first_package sep (l1 ++ l2) = Some p.
Proof.
  intros sep. induction l1 as [|[path files] l1 IH]; intros l2 p H; [discriminate H|].
  cbn [app first_package] in *. destruct files; [now apply IH|].
  destruct (text_eqb (relpath sep path) (txt ".")); [now apply IH|exact H].
Qed.

Lemma first_package_nest : forall sep names path inner p,
  first_package sep (walked_all (path ++ names) inner) = Some p ->
  first_package sep (walked_all path (nest names inner)) = Some p.
Proof.
  intros sep. induction names as [|n names IH]; intros path inner p H.
  - now rewrite app_nil_r in H.
  - cbn [nest fold_right walked_all first_package]. rewrite app_nil_r.
    apply IH. now rewrite <- app_assoc.
Qed.

(** X22. The Java package of a loaded project is the dotted path of the
    first directory with files that the walk over [src/main/java] comes
    to, files of [src/main/java] itself apart: when its first directory
    leads, through directories [p1/.../pn] that hold nothing else, to one
    with a file, the package is [p1. ... .pn], whatever stands deeper or
    in later directories. *)
Theorem java_package_is_the_first_directory_with_files :
  forall sep top_files name names f fs dirs others,
  (forall p, In p (name :: names) -> existsb (N.eqb sep) p = false) ->
  join [sep] (name :: names) <> txt "." ->
  java_package sep
    (Directory top_files ((name, nest names (Directory (f :: fs) dirs)) :: others))
  = Some (join (txt ".") (name :: names)).
Proof.
  intros sep top name names f fs dirs others Hs Hd. unfold java_package.
  cbn [walked_all].
  assert (first_package sep
            (walked_all ([] ++ [name]) (nest names (Directory (f :: fs) dirs)))
          = Some (join (txt ".") (name :: names))) as H.
  { apply first_package_nest. cbn [app walked_all first_package relpath].
    rewrite text_eqb_neq by exact Hd. now rewrite replace_join. }
  cbn [first_package relpath]. rewrite text_eqb_refl.
  destruct top; now apply first_package_app.
Qed.

(** [java_package_is_the_first_directory_with_files] on the sources of a
    shop. *)
Lemma java_package_witness :
  java_package SLASH
    (Directory [(txt "README.md", (12%Z, Some (txt "shop")))]
       ((txt "com",
         nest [txt "shop"]
              (Directory [(txt "App.java", (40%Z, Some (txt "class App {}")))]
                 [(txt "entity", Directory [(txt "Order.java", (0%Z, Some []))] [])]))
          :: [(txt "org", Directory [(txt "Other.java", (0%Z, Some []))] [])]))
  = Some (join (txt ".") [txt "com"; txt "shop"]).
Proof.
  apply (java_package_is_the_first_directory_with_files SLASH).
  - intros p [<-|[<-|[]]]; reflexivity.
  - discriminate.
Defined.
